(** * Workspace exploration tools: [list_files] and [search]

    A shallow embedding of [src/agents/tools/search-tools.ts]: the glob
    matcher [matchesPattern], the path guard ([path.resolve] followed by
    [startsWith]), the recursive directory walker, the construction of the
    [grep] argument vector, the classification of the child process outcome
    and the truncation of the output.

    JavaScript strings are modelled as [string] (one [ascii] per code unit),
    POSIX path conventions are assumed ([path.sep] is the slash), and the
    file system is a finite tree of named entries read in list order. *)

From Stdlib Require Import List String Ascii Bool Arith NArith Lia.
From Stdlib Require Import Permutation Sorted DecimalString DecimalNat.
From Stdlib Require Import ZArith QArith Qround.
Close Scope Q_scope.
Import ListNotations.

Open Scope list_scope.
Open Scope string_scope.

(** ** JavaScript values and string primitives *)

(** The values a loosely typed parameter object can hold under one key. *)
Inductive jsval :=
| JUndefined
| JNull
| JBool (b : bool)
| JNum (n : nat)
| JStr (s : string)
| JArr (items : list string).

(** [v === true] *)
Definition strict_eq_true (v : jsval) : bool :=
  match v with JBool true => true | _ => false end.

(** [v !== false] *)
Definition strict_neq_false (v : jsval) : bool :=
  match v with JBool false => false | _ => true end.

(** [v === n] for a number literal [n] *)
Definition strict_eq_num (v : jsval) (n : nat) : bool :=
  match v with JNum m => Nat.eqb m n | _ => false end.

(** [v === s] for a string literal [s] *)
Definition strict_eq_str (v : jsval) (s : string) : bool :=
  match v with JStr t => String.eqb t s | _ => false end.

Module Str.

(** [s.includes(c)] for a one-character needle. *)
Fixpoint includes (s : string) (c : ascii) : bool :=
  match s with
  | EmptyString => false
  | String d s' => Ascii.eqb d c || includes s' c
  end.

(** [s.endsWith(c)] for a one-character needle. *)
Fixpoint endsWith (s : string) (c : ascii) : bool :=
  match s with
  | EmptyString => false
  | String d EmptyString => Ascii.eqb d c
  | String _ s' => endsWith s' c
  end.

(** [s.startsWith(p)] *)
Definition startsWith (s p : string) : bool := String.prefix p s.

(** [s.split(sep)] for a one-character separator: never empty. *)
Fixpoint split (sep : ascii) (s : string) : list string :=
  match s with
  | EmptyString => [EmptyString]
  | String c s' =>
      if Ascii.eqb c sep then EmptyString :: split sep s'
      else match split sep s' with
           | [] => [String c EmptyString]
           | w :: ws => String c w :: ws
           end
  end.

(** [parts.join(sep)] *)
Definition join (sep : string) (parts : list string) : string :=
  String.concat sep parts.

(** [s.replace(/[class]/g, f)] where the replacement is computed from the
    single matched character. *)
Fixpoint replace_chars (cls : ascii -> bool) (f : ascii -> string)
         (s : string) : string :=
  match s with
  | EmptyString => EmptyString
  | String c s' =>
      if cls c then f c ++ replace_chars cls f s'
      else String c (replace_chars cls f s')
  end.

(** [s.replace(/cc/g, r)] for a doubled character [c]: leftmost,
    non-overlapping occurrences. *)
Fixpoint replace_pair (c : ascii) (r : string) (s : string) : string :=
  match s with
  | EmptyString => EmptyString
  | String d s' =>
      match s' with
      | EmptyString => String d EmptyString
      | String e s'' =>
          if Ascii.eqb d c && Ascii.eqb e c
          then r ++ replace_pair c r s''
          else String d (replace_pair c r s')
      end
  end.

(** Non-empty strings are truthy ([filter(Boolean)], [a || b]). *)
Definition truthy (s : string) : bool :=
  match s with EmptyString => false | _ => true end.

End Str.

(** ** The fragment of JavaScript regular expressions built by the matcher *)

Module Regex.

Inductive atom :=
| AnyChar                      (* .      *)
| Lit (c : ascii)              (* c, \c  *)
| OneOf (cs : list ascii)      (* [...]  *)
| NoneOf (cs : list ascii).    (* [^...] *)

Inductive term :=
| AssertStart                  (* ^  *)
| AssertEnd                    (* $  *)
| Once (a : atom)
| Star (a : atom).             (* a* *)

Definition regex := list term.

Inductive token :=
| TokStart
| TokEnd
| TokStar
| TokAtom (a : atom).

(** Characters with a meaning of their own in a pattern. *)
Definition syntax_chars : list ascii :=
  ["^"; "$"; "\"; "."; "*"; "+"; "?"; "("; ")"; "["; "]"; "{"; "}"; "|"]%char.

Definition is_syntax_char (c : ascii) : bool :=
  existsb (Ascii.eqb c) syntax_chars.

(** Tokens of a pattern source; [None] outside the fragment (groups,
    alternation, [+], [?], braces, escapes and ranges inside a class) and
    on a syntax error.  The inner loop reads the body of a character
    class up to its closing bracket. *)
Fixpoint lex (s : string) : option (list token) :=
  match s with
  | EmptyString => Some []
  | String c s1 =>
      if Ascii.eqb c "^" then option_map (cons TokStart) (lex s1)
      else if Ascii.eqb c "$" then option_map (cons TokEnd) (lex s1)
      else if Ascii.eqb c "*" then option_map (cons TokStar) (lex s1)
      else if Ascii.eqb c "." then
             option_map (cons (TokAtom AnyChar)) (lex s1)
      else if Ascii.eqb c "\" then
             match s1 with
             | EmptyString => None
             | String e s2 =>
                 if is_syntax_char e || Ascii.eqb e "/"
                 then option_map (cons (TokAtom (Lit e))) (lex s2)
                 else None
             end
      else if Ascii.eqb c "[" then
             let class :=
               fix class (neg : bool) (acc : list ascii) (t : string)
                   {struct t} : option (list token) :=
                 match t with
                 | EmptyString => None
                 | String d t' =>
                     if Ascii.eqb d "]" then
                       option_map
                         (cons (TokAtom (if neg then NoneOf (rev acc)
                                         else OneOf (rev acc))))
                         (lex t')
                     else if Ascii.eqb d "\" || Ascii.eqb d "-" then None
                     else class neg (d :: acc) t'
                 end in
             match s1 with
             | EmptyString => None
             | String e s2 =>
                 if Ascii.eqb e "^" then class true [] s2
                 else class false [] s1
             end
      else if is_syntax_char c then None
      else option_map (cons (TokAtom (Lit c))) (lex s1)
  end.

(** Attach each [*] to the atom before it; a [*] with nothing to repeat
    is a syntax error. *)
Fixpoint group (ts : list token) : option regex :=
  match ts with
  | [] => Some []
  | TokStart :: ts' => option_map (cons AssertStart) (group ts')
  | TokEnd :: ts' => option_map (cons AssertEnd) (group ts')
  | TokStar :: _ => None
  | TokAtom a :: ts' =>
      match ts' with
      | TokStar :: ts'' => option_map (cons (Star a)) (group ts'')
      | _ => option_map (cons (Once a)) (group ts')
      end
  end.

(** [new RegExp(source)] *)
Definition RegExp (source : string) : option regex :=
  match lex source with
  | Some ts => group ts
  | None => None
  end.

Definition is_line_terminator (c : ascii) : bool :=
  Ascii.eqb c "010" || Ascii.eqb c "013".

Definition atom_matches (a : atom) (c : ascii) : bool :=
  match a with
  | AnyChar => negb (is_line_terminator c)
  | Lit d => Ascii.eqb c d
  | OneOf cs => existsb (Ascii.eqb c) cs
  | NoneOf cs => negb (existsb (Ascii.eqb c) cs)
  end.

(** Does [r] match a prefix of [s]?  [at_start] tells whether [s] is the
    whole input. *)
Fixpoint match_here (r : regex) (at_start : bool) (s : string) : bool :=
  match r with
  | [] => true
  | AssertStart :: r' => at_start && match_here r' at_start s
  | AssertEnd :: r' =>
      match s with
      | EmptyString => match_here r' at_start s
      | String _ _ => false
      end
  | Once a :: r' =>
      match s with
      | EmptyString => false
      | String c s' => atom_matches a c && match_here r' false s'
      end
  | Star a :: r' =>
      (fix loop (at_start : bool) (s : string) : bool :=
         match_here r' at_start s
         || match s with
            | EmptyString => false
            | String c s' => atom_matches a c && loop false s'
            end) at_start s
  end.

Fixpoint search (r : regex) (at_start : bool) (s : string) : bool :=
  match_here r at_start s
  || match s with
     | EmptyString => false
     | String _ s' => search r false s'
     end.

(** [r.test(s)] for a pattern without flags. *)
Definition test (r : regex) (s : string) : bool := search r true s.

End Regex.

(** ** GlobMatcher: [matchesPattern] *)

(** [path.sep] on a POSIX host. *)
Definition path_sep : ascii := "/"%char.

(** The character class of [/[.+^${}()|[\]\\]/g]. *)
Definition escaped_chars : list ascii :=
  ["."; "+"; "^"; "$"; "{"; "}"; "("; ")"; "|"; "["; "]"; "\"]%char.

Definition is_escaped_char (c : ascii) : bool :=
  existsb (Ascii.eqb c) escaped_chars.

Definition is_char (d c : ascii) : bool := Ascii.eqb c d.

(** The four [replace] calls of the glob-to-regex conversion, in source
    order: each one runs over the output of the one before it. *)
Definition glob_to_regex (pattern : string) : string :=
  let escaped :=
    Str.replace_chars is_escaped_char (fun c => String "\" (String c "")) pattern in
  let stars2 := Str.replace_pair "*" ".*" escaped in
  let stars1 := Str.replace_chars (is_char "*") (fun _ => "[^/]*") stars2 in
  Str.replace_chars (is_char "?") (fun _ => ".") stars1.

(** The source of the regular expression compiled for one pattern. *)
Definition regexString (pattern : string) : string :=
  if Str.endsWith pattern "/"
  then "^" ++ glob_to_regex pattern ++ ".*"
  else "^" ++ glob_to_regex pattern ++ "$".

(** The body of the callback given to [patterns.some].  The [None] branch
    stands for a [SyntaxError] of [new RegExp]; lemma [regexString_compiles]
    shows that it is never taken. *)
Definition matches_one (normalizedPath basename pattern : string) : bool :=
  let hasSlash := Str.includes pattern "/" && negb (Str.endsWith pattern "/") in
  let matchTarget := if hasSlash then normalizedPath else basename in
  match Regex.RegExp (regexString pattern) with
  | Some r => Regex.test r matchTarget
  | None => false
  end.

Definition matchesPattern (filePath basename : string)
           (patterns : list string) : bool :=
  match patterns with
  | [] => false
  | _ =>
      let normalizedPath := Str.join "/" (Str.split path_sep filePath) in
      existsb (matches_one normalizedPath basename) patterns
  end.

(** ** Node's POSIX [path] module, at the level of path segments *)

Module Path.

Definition is_absolute (p : string) : bool :=
  match p with
  | String c _ => Ascii.eqb c "/"
  | EmptyString => false
  end.

(** One step of [normalizeString]: [stack] holds the segments kept so
    far, last one first. *)
Definition push_segment (allowAboveRoot : bool) (stack : list string)
           (seg : string) : list string :=
  if String.eqb seg "" || String.eqb seg "." then stack
  else if String.eqb seg ".." then
    match stack with
    | top :: rest =>
        if String.eqb top ".." then
          if allowAboveRoot then ".." :: stack else stack
        else rest
    | [] => if allowAboveRoot then [".."] else []
    end
  else seg :: stack.

Definition normalize_segments (allowAboveRoot : bool) (p : string)
  : list string :=
  rev (fold_left (push_segment allowAboveRoot) (Str.split "/" p) []).

(** [normalizeString(path, allowAboveRoot, "/", isPosixPathSeparator)] *)
Definition normalizeString (p : string) (allowAboveRoot : bool) : string :=
  Str.join "/" (normalize_segments allowAboveRoot p).

(** [path.normalize(p)] *)
Definition normalize (p : string) : string :=
  match p with
  | EmptyString => "."
  | _ =>
      let isAbsolute := is_absolute p in
      let trailingSeparator := Str.endsWith p "/" in
      let body := normalizeString p (negb isAbsolute) in
      match body with
      | EmptyString =>
          if isAbsolute then "/"
          else if trailingSeparator then "./" else "."
      | _ =>
          let body := if trailingSeparator then body ++ "/" else body in
          if isAbsolute then "/" ++ body else body
      end
  end.

(** [path.join(a, b)] *)
Definition join (a b : string) : string :=
  match a, b with
  | EmptyString, EmptyString => "."
  | EmptyString, _ => normalize b
  | _, EmptyString => normalize a
  | _, _ => normalize (a ++ "/" ++ b)
  end.

(** The loop of [path.resolve]: arguments are visited from the last one
    backwards, then the working directory, until an absolute one is
    met. *)
Fixpoint resolve_loop (args_rev : list string) (resolvedPath : string)
  : string * bool :=
  match args_rev with
  | [] => (resolvedPath, false)
  | p :: rest =>
      match p with
      | EmptyString => resolve_loop rest resolvedPath
      | _ =>
          let resolvedPath := p ++ "/" ++ resolvedPath in
          if is_absolute p then (resolvedPath, true)
          else resolve_loop rest resolvedPath
      end
  end.

(** [path.resolve(a, b)] in a process whose working directory is
    [cwd]. *)
Definition resolve (cwd a b : string) : string :=
  let '(resolvedPath, resolvedAbsolute) := resolve_loop [b; a; cwd] "" in
  let resolvedPath := normalizeString resolvedPath (negb resolvedAbsolute) in
  if resolvedAbsolute then "/" ++ resolvedPath
  else match resolvedPath with
       | EmptyString => "."
       | _ => resolvedPath
       end.

End Path.

(** ** Errors and results of a tool call *)

(** What the child process rejected with: [code] is the exit status (or an
    errno name when the process could not be run), [stderr] the captured
    diagnostic stream when there is one. *)
Record exec_error := {
  err_code : jsval;
  err_stderr : option string;
  err_message : string
}.

Inductive error :=
| ToolInputError (message : string)
| ErrnoException (code : string)
| ChildProcessError (e : exec_error).

Inductive result :=
| Content (text : string)
| Throw (e : error).

Definition nl : string := String "010" "".

(** [`${n}`] for a non-negative integer. *)
Definition show_nat (n : nat) : string :=
  NilEmpty.string_of_uint (Nat.to_uint n).

(** ** The file system seen by [fs.stat] and [fs.readdir] *)

#[warnings="-register-all"]
Inductive node :=
| File
| Dir (entries : list (string * node)).

Definition is_directory (n : node) : bool :=
  match n with Dir _ => true | File => false end.

Definition find_entry (name : string) (entries : list (string * node))
  : option node :=
  option_map snd (find (fun e => String.eqb (fst e) name) entries).

Inductive stat_result :=
| Stat (n : node)
| StatError (code : string).

Fixpoint lookup (n : node) (segments : list string) : stat_result :=
  match segments with
  | [] => Stat n
  | name :: rest =>
      match n with
      | File => StatError "ENOTDIR"
      | Dir entries =>
          match find_entry name entries with
          | Some child => lookup child rest
          | None => StatError "ENOENT"
          end
      end
  end.

(** The names a path is made of. *)
Definition path_segments (p : string) : list string :=
  filter Str.truthy (Str.split "/" p).

(** [fs.stat(p)] for an absolute path [p] in the tree [fs] mounted at the
    file system root. *)
Definition stat (fs : node) (p : string) : stat_result :=
  lookup fs (path_segments p).

(** ** DirectoryWalker and [list_files] *)

Definition default_ignore : list string :=
  [".git"; "node_modules"; "dist"; "coverage"].

(** [walk(currentDir, currentRelative)], returning the entries it pushes
    onto [files], in push order.  [dir] is the node found at
    [currentDir]; its entries come in the order [fs.readdir] yields
    them. *)
Fixpoint walk (recursive : bool) (ignore : list string) (dir : node)
         (currentRelative : string) : list string :=
  match dir with
  | File => []
  | Dir entries =>
      (fix each (entries : list (string * node)) : list string :=
         match entries with
         | [] => []
         | (name, child) :: rest =>
             let entryRelative := Path.join currentRelative name in
             ((if matchesPattern entryRelative name ignore then []
              else if is_directory child then
                     if recursive
                     then walk recursive ignore child entryRelative
                     else [(entryRelative ++ "/")%string]
                   else [entryRelative])
             ++ each rest)%list
         end) entries
  end.

(** [files.sort()]: the default comparison orders strings by code unit. *)
Fixpoint insert_sorted (x : string) (l : list string) : list string :=
  match l with
  | [] => [x]
  | y :: l' => if String.leb x y then x :: l else y :: insert_sorted x l'
  end.

Fixpoint sort (l : list string) : list string :=
  match l with
  | [] => []
  | x :: l' => insert_sorted x (sort l')
  end.

Definition MAX_FILES : nat := 1000.
Definition MAX_LINES : nat := 500.

(** The text block built from the sorted [files]. *)
Definition list_files_text (files : list string) : string :=
  let output := Str.join nl files in
  if Nat.ltb MAX_FILES (List.length files) then
    let output := Str.join nl (firstn MAX_FILES files) in
    output ++ nl ++ nl ++ "... and "
           ++ show_nat (List.length files - MAX_FILES) ++ " more files."
  else if Str.truthy output then output else "(empty directory)".

(** The parameters of [list_files] after [readStringParam] and
    [readStringArrayParam]: [None] is an absent (or blank) parameter. *)
Record list_files_params := {
  lf_path : option string;
  lf_recursive : jsval;
  lf_ignore : option (list string)
}.

(** [arr.push(...items)] *)
Definition push (arr items : list string) : list string := (arr ++ items)%list.

Definition or_default {A} (o : option A) (d : A) : A :=
  match o with Some x => x | None => d end.

Section Tools.

(** [process.cwd()] and the [cwd] option the tool was created with. *)
Variable process_cwd : string.
Variable options_cwd : option string.

Definition root : string := or_default options_cwd process_cwd.

(** The guard, the [stat] call and the walk of [list_files]: the array
    [files] after [files.sort()], or the error thrown before it is
    built. *)
Definition list_files_entries (fs : node) (params : list_files_params)
  : error + list string :=
  let relativePath := or_default (lf_path params) "." in
  let recursive := strict_neq_false (lf_recursive params) in
  let ignore := or_default (lf_ignore params) default_ignore in
  let targetDir := Path.resolve process_cwd root relativePath in
  if negb (Str.startsWith targetDir root) then
    inl (ToolInputError
           ("Access denied: " ++ relativePath ++ " is outside workspace root."))
  else
    match stat fs targetDir with
    | StatError code =>
        if String.eqb code "ENOENT"
        then inl (ToolInputError ("Directory not found: " ++ relativePath))
        else inl (ErrnoException code)
    | Stat stats =>
        if negb (is_directory stats)
        then inl (ToolInputError (relativePath ++ " is not a directory."))
        else
          inr (sort (walk recursive ignore stats
                          (if String.eqb relativePath "." then ""
                           else relativePath)))
    end.

(** [createListFilesTool(options).execute(_id, args)] on the file
    system [fs]. *)
Definition list_files (fs : node) (params : list_files_params) : result :=
  match list_files_entries fs params with
  | inl e => Throw e
  | inr files => Content (list_files_text files)
  end.

(** *** ExternalSearchInvoker and [search] *)

(** The call [execFileAsync(file, args, { maxBuffer, cwd })]: a program
    name and an argument vector, no command line. *)
Record exec_request := {
  exec_file : string;
  exec_args : list string;
  exec_maxBuffer : N;
  exec_cwd : string
}.

(** How the awaited call settles. *)
Inductive exec_outcome :=
| Resolved (stdout : string)
| Rejected (e : exec_error).

(** The parameters of [search] after [readStringParam] and
    [readStringArrayParam]; [pattern] is required. *)
Record search_params := {
  sp_pattern : string;
  sp_path : option string;
  sp_include : option (list string);
  sp_exclude : option (list string);
  sp_caseSensitive : jsval
}.

(** The argument vector, built by the successive [push] calls. *)
Definition grepArgs (pattern relativePath : string)
           (include : option (list string)) (exclude : list string)
           (caseSensitive : bool) : list string :=
  let grepArgs := ["-rIn"] in
  let grepArgs := if negb caseSensitive then push grepArgs ["-i"] else grepArgs in
  let grepArgs := push grepArgs ["-E"] in
  let grepArgs :=
    match include with
    | Some include =>
        fold_left (fun args inc => push args ["--include"; inc]) include grepArgs
    | None => grepArgs
    end in
  let grepArgs :=
    fold_left (fun args exc =>
                 push (push args ["--exclude"; exc]) ["--exclude-dir"; exc])
              exclude grepArgs in
  let grepArgs := push grepArgs ["-e"; pattern] in
  push grepArgs [relativePath].

(** The text block built from the captured standard output. *)
Definition search_text (stdout : string) : string :=
  let lines := filter Str.truthy (Str.split "010" stdout) in
  let output := Str.join nl lines in
  if Nat.ltb MAX_LINES (List.length lines) then
    let output := Str.join nl (firstn MAX_LINES lines) in
    output ++ nl ++ nl ++ "... and "
           ++ show_nat (List.length lines - MAX_LINES) ++ " more matches."
  else if Str.truthy output then output else "No matches found.".

(** The [try] block after the call settles, and the [catch] clause. *)
Definition search_settle (outcome : exec_outcome) : result :=
  match outcome with
  | Resolved stdout => Content (search_text stdout)
  | Rejected e =>
      if strict_eq_num (err_code e) 1 then Content "No matches found."
      else if strict_eq_num (err_code e) 2 then
        Throw (ToolInputError
                 ("Grep error: " ++
                  match err_stderr e with
                  | Some text => if Str.truthy text then text else err_message e
                  | None => err_message e
                  end))
      else Throw (ChildProcessError e)
  end.

(** What [search] does before it awaits the child process: it throws, or
    it runs one request and hands the outcome to [search_settle]. *)
Inductive search_step :=
| Refused (e : error)
| Run (request : exec_request).

Definition search_prepare (params : search_params) : search_step :=
  let pattern := sp_pattern params in
  let relativePath := or_default (sp_path params) "." in
  let include := sp_include params in
  let exclude := or_default (sp_exclude params) default_ignore in
  let caseSensitive := strict_eq_true (sp_caseSensitive params) in
  let targetDir := Path.resolve process_cwd root relativePath in
  if negb (Str.startsWith targetDir root) then
    Refused (ToolInputError
            ("Access denied: " ++ relativePath ++ " is outside workspace root."))
  else
    Run {| exec_file := "grep";
           exec_args := grepArgs pattern relativePath include exclude caseSensitive;
           exec_maxBuffer := 1024 * 1024;
           exec_cwd := root |}.

(** [createSearchTool(options).execute(_id, args)], where [execFile]
    stands for the host running the child process. *)
Definition search (execFile : exec_request -> exec_outcome)
           (params : search_params) : result :=
  match search_prepare params with
  | Refused e => Throw e
  | Run request => search_settle (execFile request)
  end.

End Tools.


(** ** The regular expression a glob pattern really compiles to *)

(** The terms of [new RegExp(glob_to_regex pattern)], read off the pattern:
    a doubled star ends up as one arbitrary character followed by a run
    without slash, because the replacement of the single star also
    rewrites the star that the replacement of the doubled star has just
    produced. *)
Fixpoint glob_terms (pattern : string) : Regex.regex :=
  match pattern with
  | EmptyString => []
  | String c rest =>
      if Ascii.eqb c "*" then
        match rest with
        | EmptyString => [Regex.Star (Regex.NoneOf ["/"%char])]
        | String d rest' =>
            if Ascii.eqb d "*"
            then Regex.Once Regex.AnyChar
                 :: Regex.Star (Regex.NoneOf ["/"%char]) :: glob_terms rest'
            else Regex.Star (Regex.NoneOf ["/"%char]) :: glob_terms rest
        end
      else if Ascii.eqb c "?" then Regex.Once Regex.AnyChar :: glob_terms rest
      else Regex.Once (Regex.Lit c) :: glob_terms rest
  end.

Definition compiled (pattern : string) : Regex.regex :=
  Regex.AssertStart
    :: (glob_terms pattern
          ++ [if Str.endsWith pattern "/" then Regex.Star Regex.AnyChar
              else Regex.AssertEnd])%list.

(** The first [replace] call on its own. *)
Definition escape (pattern : string) : string :=
  Str.replace_chars is_escaped_char (fun c => String "\" (String c "")) pattern.

Definition no_leading_star (s : string) : Prop :=
  match s with
  | EmptyString => True
  | String d _ => Ascii.eqb d "*" = false
  end.

Definition no_leading_TokStar (ts : list Regex.token) : Prop :=
  match ts with
  | Regex.TokStar :: _ => False
  | _ => True
  end.

(** Patterns without wildcard. *)
Definition is_literal (pattern : string) : bool :=
  negb (Str.includes pattern "*") && negb (Str.includes pattern "?").

(** ** Well-formed trees and the entries a walk meets *)

(** What [fs.readdir] can yield as an entry name. *)
Definition valid_name (name : string) : bool :=
  Str.truthy name
  && negb (Str.includes name "/")
  && negb (String.eqb name ".")
  && negb (String.eqb name "..").

Fixpoint valid_names (n : node) : Prop :=
  match n with
  | File => True
  | Dir entries =>
      (fix all (entries : list (string * node)) : Prop :=
         match entries with
         | [] => True
         | (name, child) :: rest =>
             valid_name name = true /\ valid_names child /\ all rest
         end) entries
  end.

(** [descends dir names target]: following [names] from [dir], entry by
    entry, leads to [target]. *)
Fixpoint descends (dir : node) (names : list string) (target : node) : Prop :=
  match names with
  | [] => dir = target
  | name :: rest =>
      match dir with
      | File => False
      | Dir entries =>
          exists child, In (name, child) entries /\ descends child rest target
      end
  end.

(** [kept ignore rel names]: none of the entries [names], met one below
    the other from the relative path [rel], is matched by [ignore]. *)
Fixpoint kept (ignore : list string) (rel : string) (names : list string)
  : Prop :=
  match names with
  | [] => True
  | name :: rest =>
      matchesPattern (Path.join rel name) name ignore = false
      /\ kept ignore (Path.join rel name) rest
  end.

(** The relative path of the entry reached through [names] from [rel]. *)
Definition entry_path (rel : string) (names : list string) : string :=
  fold_left Path.join names rel.

(** Containment of directories: [target] is [root] or lies beneath it,
    segment by segment. *)
Fixpoint is_prefix (l1 l2 : list string) : bool :=
  match l1, l2 with
  | [], _ => true
  | _ :: _, [] => false
  | x :: l1', y :: l2' => String.eqb x y && is_prefix l1' l2'
  end.

Definition within (root target : string) : bool :=
  is_prefix (path_segments root) (path_segments target).

(** Sorted by code unit, each element below all the later ones. *)
Definition ordered : list string -> Prop :=
  StronglySorted (fun a b => String.leb a b = true).

(** ** The same directory tree under another enumeration order *)

(** [same_tree t t']: [t'] holds the entries of [t], directory by
    directory, in a possibly different order. *)
Inductive same_tree : node -> node -> Prop :=
| same_file : same_tree File File
| same_dir entries entries' :
    same_entries entries entries' -> same_tree (Dir entries) (Dir entries')
with same_entries : list (string * node) -> list (string * node) -> Prop :=
| same_nil : same_entries [] []
| same_skip name child child' rest rest' :
    same_tree child child' ->
    same_entries rest rest' ->
    same_entries ((name, child) :: rest) ((name, child') :: rest')
| same_swap name1 child1 child1' name2 child2 child2' rest rest' :
    same_tree child1 child1' ->
    same_tree child2 child2' ->
    same_entries rest rest' ->
    same_entries ((name1, child1) :: (name2, child2) :: rest)
                 ((name2, child2') :: (name1, child1') :: rest')
| same_trans entries1 entries2 entries3 :
    same_entries entries1 entries2 ->
    same_entries entries2 entries3 ->
    same_entries entries1 entries3.

Scheme same_tree_mind := Minimality for same_tree Sort Prop
  with same_entries_mind := Minimality for same_entries Sort Prop.

(** No directory lists a name twice. *)
Fixpoint unique_names (n : node) : Prop :=
  match n with
  | File => True
  | Dir entries =>
      NoDup (map fst entries)
      /\ (fix all (entries : list (string * node)) : Prop :=
            match entries with
            | [] => True
            | (_, child) :: rest => unique_names child /\ all rest
            end) entries
  end.

(** ** The argument vector, section by section *)

Definition include_args (include : list string) : list string :=
  flat_map (fun inc => ["--include"; inc]) include.

Definition exclude_args (exclude : list string) : list string :=
  flat_map (fun exc => ["--exclude"; exc; "--exclude-dir"; exc]) exclude.


(** [text] occurs in [s]. *)
Definition contains (s text : string) : Prop :=
  exists before after, s = before ++ text ++ after.

(** ** The workspace of the test suite *)

Definition test_workspace : node :=
  Dir [("src", Dir [("index.ts", File);
                    ("utils.ts", File);
                    ("nested_modules", Dir [("nested.js", File)])]);
       ("test", Dir [("index.test.ts", File)]);
       ("node_modules", Dir [("foo.js", File)]);
       ("README.md", File)].

(** The same workspace, enumerated in another order. *)
Definition test_workspace_reordered : node :=
  Dir [("test", Dir [("index.test.ts", File)]);
       ("src", Dir [("utils.ts", File);
                    ("index.ts", File);
                    ("nested_modules", Dir [("nested.js", File)])]);
       ("node_modules", Dir [("foo.js", File)]);
       ("README.md", File)].

(** A file system with the workspace at [/ws] and a sibling directory. *)
Definition test_fs : node :=
  Dir [("ws", test_workspace);
       ("ws-other", Dir [("secret.txt", File)])].

Definition test_fs_reordered : node :=
  Dir [("ws-other", Dir [("secret.txt", File)]);
       ("ws", test_workspace_reordered)].

Definition list_params (path : option string) (ignore : option (list string))
  : list_files_params :=
  {| lf_path := path; lf_recursive := JUndefined; lf_ignore := ignore |}.

Definition search_for (pattern : string) (path : option string)
           (caseSensitive : jsval) : search_params :=
  {| sp_pattern := pattern; sp_path := path; sp_include := None;
     sp_exclude := None; sp_caseSensitive := caseSensitive |}.

Definition with_pattern (params : search_params) (pattern : string)
  : search_params :=
  {| sp_pattern := pattern; sp_path := sp_path params;
     sp_include := sp_include params; sp_exclude := sp_exclude params;
     sp_caseSensitive := sp_caseSensitive params |}.

(** The request [search] makes in the workspace [/ws] when the caller
    gives a pattern and a path only. *)
Definition default_request (pattern relativePath : string) : exec_request :=
  {| exec_file := "grep";
     exec_args :=
       ["-rIn"; "-i"; "-E";
        "--exclude"; ".git"; "--exclude-dir"; ".git";
        "--exclude"; "node_modules"; "--exclude-dir"; "node_modules";
        "--exclude"; "dist"; "--exclude-dir"; "dist";
        "--exclude"; "coverage"; "--exclude-dir"; "coverage";
        "-e"; pattern; relativePath];
     exec_maxBuffer := 1024 * 1024;
     exec_cwd := "/ws" |}.

(** What [grep] leaves behind on a malformed pattern. *)
Definition usage_error : exec_error :=
  {| err_code := JNum 2;
     err_stderr := Some "grep: Unmatched ( or \(";
     err_message := "Command failed: grep -rIn -i -E -e ( ." |}.



(** ** Further examples *)

Definition shallow_params : list_files_params :=
  {| lf_path := None; lf_recursive := JBool false; lf_ignore := None |}.

(** ** Roots and paths in normal form *)

(** [root] is the absolute path of the directory reached through the
    names [rs] from the top of the file system. *)
Definition normal_root (root : string) (rs : list string) : Prop :=
  Forall (fun n => valid_name n = true) rs /\ root = "/" ++ Str.join "/" rs.

(** [p] is ["."] (no name), or the names [ps] joined by slashes. *)
Definition names_path (p : string) (ps : list string) : Prop :=
  Forall (fun n => valid_name n = true) ps
  /\ ((ps = [] /\ p = ".") \/ (ps <> [] /\ p = Str.join "/" ps)).

(** [p] is a relative path that only climbs: its segments are [..], [.]
    or empty, with one [..] at least ([..], [../], [../..], ...). *)
Definition climbs (p : string) : Prop :=
  Path.is_absolute p = false
  /\ Forall (fun s => s = ".." \/ s = "." \/ s = "") (Str.split "/" p)
  /\ In ".." (Str.split "/" p).

(** ** Counting separators *)

Fixpoint count_char (c : ascii) (s : string) : nat :=
  match s with
  | EmptyString => 0
  | String d s' => (if Ascii.eqb d c then 1 else 0) + count_char c s'
  end.

(** Two stars in a row somewhere in the pattern. *)
Fixpoint has_double_star (pattern : string) : bool :=
  match pattern with
  | EmptyString => false
  | String c rest =>
      match rest with
      | EmptyString => false
      | String d _ =>
          (Ascii.eqb c "*" && Ascii.eqb d "*") || has_double_star rest
      end
  end.

(** ** What a pattern is tested against *)

(** [hasSlash] of [matchesPattern], as a function of the pattern. *)
Definition has_interior_slash (pattern : string) : bool :=
  Str.includes pattern "/" && negb (Str.endsWith pattern "/").

(** [passes ignore above names]: none of the entries [names], met one
    below the other under the directory whose root-relative path is made
    of the names [above], is matched by a pattern of [ignore], where a
    pattern with an interior slash is tested against the root-relative
    path of the entry and any other pattern against its name. *)
Fixpoint passes (ignore : list string) (above names : list string) : Prop :=
  match names with
  | [] => True
  | name :: rest =>
      (forall pattern,
          In pattern ignore ->
          Regex.test (compiled pattern)
                     (if has_interior_slash pattern
                      then Str.join "/" (above ++ [name])
                      else name) = false)
      /\ passes ignore (above ++ [name])%list rest
  end.

(** ** The text of a listing that is not cut *)

Definition whole_text (files : list string) : string :=
  match files with
  | [] => "(empty directory)"
  | _ => Str.join nl files
  end.

(** ** The names of a path *)

(** The segments to which [path.normalize] reduces [p]. *)
Definition normal_segments (p : string) : list string :=
  Path.normalize_segments (negb (Path.is_absolute p)) p.

(** The stacks [normalizeString] goes through: names, above which there
    are only [..] segments, and none of these under an absolute path. *)
Definition good_stack (b : bool) (stack : list string) : Prop :=
  exists regular k,
    stack = (regular ++ repeat ".." k)%list
    /\ Forall (fun n => valid_name n = true) regular
    /\ (k = 0 \/ b = true).

(** The leading separator of an absolute path. *)
Definition abs_prefix (p : string) : string :=
  if Path.is_absolute p then "/" else "".

(** * [pruneMapToMaxSize] ([map-size.ts]) *)

(** A JavaScript number: a finite value (every finite double is a
    rational), an infinity, or [NaN]. *)
Inductive number :=
| NaN
| PosInfinity
| NegInfinity
| Finite (q : Q).

(** The numbers the function computes with after [Math.floor]: integers,
    the infinities and [NaN].  Sizes and limits below 2^53 are exact. *)
Inductive integral :=
| INaN
| IPosInfinity
| INegInfinity
| Int (z : Z).

(** [Math.floor(x)] *)
Definition Math_floor (x : number) : integral :=
  match x with
  | NaN => INaN
  | PosInfinity => IPosInfinity
  | NegInfinity => INegInfinity
  | Finite q => Int (Qfloor q)
  end.

(** [Math.max(a, b)] *)
Definition Math_max (a b : integral) : integral :=
  match a, b with
  | INaN, _ | _, INaN => INaN
  | IPosInfinity, _ | _, IPosInfinity => IPosInfinity
  | INegInfinity, x | x, INegInfinity => x
  | Int x, Int y => Int (Z.max x y)
  end.

(** [a <= b] *)
Definition num_le (a b : integral) : bool :=
  match a, b with
  | INaN, _ | _, INaN => false
  | INegInfinity, _ => true
  | _, IPosInfinity => true
  | IPosInfinity, _ => false
  | _, INegInfinity => false
  | Int x, Int y => Z.leb x y
  end.

(** [a < b] *)
Definition num_lt (a b : integral) : bool :=
  match a, b with
  | INaN, _ | _, INaN => false
  | IPosInfinity, _ => false
  | _, INegInfinity => false
  | INegInfinity, _ => true
  | _, IPosInfinity => true
  | Int x, Int y => Z.ltb x y
  end.

(** [a - b] *)
Definition num_sub (a b : integral) : integral :=
  match a, b with
  | INaN, _ | _, INaN => INaN
  | IPosInfinity, IPosInfinity => INaN
  | INegInfinity, INegInfinity => INaN
  | IPosInfinity, _ => IPosInfinity
  | INegInfinity, _ => INegInfinity
  | _, IPosInfinity => INegInfinity
  | _, INegInfinity => IPosInfinity
  | Int x, Int y => Int (x - y)
  end.

Section MapSize.

(** Keys are compared by a decidable equality. *)
Variables K V : Type.
Variable key_eq_dec : forall a b : K, {a = b} + {a <> b}.

(** A [Map<K, V>]: its entries in insertion order. *)
Definition Map : Type := list (K * V).

(** [map.size] *)
Definition map_size (map : Map) : integral := Int (Z.of_nat (List.length map)).

(** [map.delete(key)] *)
Definition map_delete (map : Map) (key : K) : Map :=
  filter (fun entry => if key_eq_dec (fst entry) key then false else true) map.

(** [map.keys()]: the keys still to be visited, in insertion order. *)
Definition map_keys (map : Map) : list K := List.map fst map.

(** The [for] loop: [i] counts the deletions made, [keys] is what the
    iterator has left. *)
Fixpoint prune_loop (toRemove : integral) (i : nat) (keys : list K)
         (map : Map) : Map :=
  if num_lt (Int (Z.of_nat i)) toRemove then
    match keys with
    | [] => map
    | key :: keys' => prune_loop toRemove (S i) keys' (map_delete map key)
    end
  else map.

(** [pruneMapToMaxSize(map, maxSize)]: the map as the call leaves it. *)
Definition pruneMapToMaxSize (map : Map) (maxSize : number) : Map :=
  let limit := Math_max (Int 0) (Math_floor maxSize) in
  if num_le limit (Int 0) then []
  else
    let toRemove := num_sub (map_size map) limit in
    if num_le toRemove (Int 0) then map
    else prune_loop toRemove 0 (map_keys map) map.

End MapSize.

Arguments map_delete {K V} key_eq_dec map key.
Arguments prune_loop {K V} key_eq_dec toRemove i keys map.
Arguments pruneMapToMaxSize {K V} key_eq_dec map maxSize.

(** The map of the test suite: [k0] to [k9], inserted in that order. *)
Definition ten_entries : list (string * nat) :=
  [("k0", 0); ("k1", 1); ("k2", 2); ("k3", 3); ("k4", 4);
   ("k5", 5); ("k6", 6); ("k7", 7); ("k8", 8); ("k9", 9)].

(** * Facts *)

(** ** Strings *)

Lemma append_assoc (a b c : string) : (a ++ b) ++ c = a ++ (b ++ c).
Proof. induction a as [|x a IH]; simpl; [reflexivity | now rewrite IH]. Qed.

Lemma append_empty_r (a : string) : a ++ "" = a.
Proof. induction a as [|x a IH]; simpl; [reflexivity | now rewrite IH]. Qed.

Lemma string_ind2 (P : string -> Prop) :
  P "" ->
  (forall c, P (String c "")) ->
  (forall c d s, P s -> P (String d s) -> P (String c (String d s))) ->
  forall s, P s.
Proof.
  intros H0 H1 H2 s.
  assert (H : P s /\ forall c, P (String c s)).
  { induction s as [|d s [IHa IHb]].
    - split; [exact H0 | exact H1].
    - split; [apply IHb | intro c; apply H2; [exact IHa | apply IHb]]. }
  apply H.
Qed.

Lemma replace_chars_app cls f (a b : string) :
  Str.replace_chars cls f (a ++ b)
  = Str.replace_chars cls f a ++ Str.replace_chars cls f b.
Proof.
  induction a as [|x a IH]; simpl; [reflexivity|].
  destruct (cls x); rewrite IH; [now rewrite append_assoc | reflexivity].
Qed.

Lemma replace_chars_skip cls f c (s : string) :
  cls c = false ->
  Str.replace_chars cls f (String c s) = String c (Str.replace_chars cls f s).
Proof. intros H. simpl. now rewrite H. Qed.

Lemma replace_pair_other c r d (s : string) :
  Ascii.eqb d c = false ->
  Str.replace_pair c r (String d s) = String d (Str.replace_pair c r s).
Proof.
  intros Hd. destruct s as [|e s]; simpl; [reflexivity|].
  now rewrite Hd.
Qed.

Lemma replace_pair_single c r e (s : string) :
  Ascii.eqb e c = false ->
  Str.replace_pair c r (String c (String e s))
  = String c (Str.replace_pair c r (String e s)).
Proof.
  intros He. cbn [Str.replace_pair]. rewrite He, andb_false_r. reflexivity.
Qed.

(** ** The glob-to-regex conversion, one pattern character at a time *)


Lemma glob_to_regex_stages (pattern : string) :
  glob_to_regex pattern
  = Str.replace_chars (is_char "?") (fun _ => ".")
      (Str.replace_chars (is_char "*") (fun _ => "[^/]*")
         (Str.replace_pair "*" ".*" (escape pattern))).
Proof. reflexivity. Qed.

Lemma escape_head (d : ascii) (s : string) :
  Ascii.eqb d "*" = false ->
  exists e x, escape (String d s) = String e x /\ Ascii.eqb e "*" = false.
Proof.
  intros Hd. unfold escape. cbn [Str.replace_chars].
  destruct (is_escaped_char d).
  - eexists _, _. split; [reflexivity | reflexivity].
  - eexists _, _. split; [reflexivity | exact Hd].
Qed.

Lemma glob_to_regex_nil : glob_to_regex "" = "".
Proof. reflexivity. Qed.

Lemma glob_to_regex_star_star (s : string) :
  glob_to_regex (String "*" (String "*" s)) = ".[^/]*" ++ glob_to_regex s.
Proof.
  rewrite !glob_to_regex_stages. unfold escape.
  cbn [Str.replace_chars is_escaped_char escaped_chars existsb Ascii.eqb
       Bool.eqb orb].
  cbn [Str.replace_pair Ascii.eqb Bool.eqb andb].
  rewrite !replace_chars_app. reflexivity.
Qed.

Lemma glob_to_regex_star_end : glob_to_regex "*" = "[^/]*".
Proof. reflexivity. Qed.

Lemma glob_to_regex_star (d : ascii) (s : string) :
  Ascii.eqb d "*" = false ->
  glob_to_regex (String "*" (String d s))
  = "[^/]*" ++ glob_to_regex (String d s).
Proof.
  intros Hd. rewrite !glob_to_regex_stages.
  destruct (escape_head d s Hd) as (e & x & Hx & He).
  assert (Hs : escape (String "*" (String d s))
               = String "*" (escape (String d s))) by reflexivity.
  rewrite Hs, Hx, (replace_pair_single "*" ".*" e x He).
  reflexivity.
Qed.

Lemma glob_to_regex_question (s : string) :
  glob_to_regex (String "?" s) = "." ++ glob_to_regex s.
Proof.
  rewrite !glob_to_regex_stages.
  assert (Hs : escape (String "?" s) = String "?" (escape s)) by reflexivity.
  rewrite Hs, replace_pair_other by reflexivity.
  reflexivity.
Qed.

Lemma is_escaped_char_not_wild (c : ascii) :
  is_escaped_char c = true ->
  Ascii.eqb c "*" = false /\ Ascii.eqb c "?" = false.
Proof.
  unfold is_escaped_char, escaped_chars. cbn [existsb].
  rewrite !orb_true_iff.
  intros H.
  repeat (destruct H as [H | H];
          [apply Ascii.eqb_eq in H; subst c; split; reflexivity|]).
  discriminate H.
Qed.

Lemma glob_to_regex_escaped (c : ascii) (s : string) :
  is_escaped_char c = true ->
  glob_to_regex (String c s) = String "\" (String c (glob_to_regex s)).
Proof.
  intros Hc. destruct (is_escaped_char_not_wild c Hc) as [Hs Hq].
  rewrite !glob_to_regex_stages.
  assert (He : escape (String c s) = String "\" (String c (escape s))).
  { unfold escape. cbn [Str.replace_chars]. rewrite Hc. reflexivity. }
  rewrite He, replace_pair_other by reflexivity.
  rewrite replace_pair_other by exact Hs.
  rewrite !replace_chars_skip by (unfold is_char; assumption || reflexivity).
  reflexivity.
Qed.

Lemma glob_to_regex_plain (c : ascii) (s : string) :
  is_escaped_char c = false ->
  Ascii.eqb c "*" = false ->
  Ascii.eqb c "?" = false ->
  glob_to_regex (String c s) = String c (glob_to_regex s).
Proof.
  intros Hc Hs Hq. rewrite !glob_to_regex_stages.
  assert (He : escape (String c s) = String c (escape s)).
  { unfold escape. cbn [Str.replace_chars]. rewrite Hc. reflexivity. }
  rewrite He, replace_pair_other by exact Hs.
  rewrite !replace_chars_skip by (unfold is_char; assumption).
  reflexivity.
Qed.


(** Induction along the way [glob_terms] reads a pattern. *)
Lemma glob_ind (P : string -> Prop) :
  P "" ->
  (forall s, P s -> P (String "*" (String "*" s))) ->
  (forall s, no_leading_star s -> P s -> P (String "*" s)) ->
  (forall c s, Ascii.eqb c "*" = false -> P s -> P (String c s)) ->
  forall s, P s.
Proof.
  intros H0 H2 H1 Hc.
  apply string_ind2.
  - exact H0.
  - intros c. destruct (Ascii.eqb c "*") eqn:E.
    + apply Ascii.eqb_eq in E. subst c. apply H1; [exact I | exact H0].
    + apply Hc; [exact E | exact H0].
  - intros c d s IHs IHd.
    destruct (Ascii.eqb c "*") eqn:E.
    + apply Ascii.eqb_eq in E. subst c.
      destruct (Ascii.eqb d "*") eqn:F.
      * apply Ascii.eqb_eq in F. subst d. apply H2, IHs.
      * apply H1; [exact F | exact IHd].
    + apply Hc; [exact E | exact IHd].
Qed.

Lemma glob_terms_star_star (s : string) :
  glob_terms (String "*" (String "*" s))
  = Regex.Once Regex.AnyChar
      :: Regex.Star (Regex.NoneOf ["/"%char]) :: glob_terms s.
Proof. reflexivity. Qed.

Lemma glob_terms_star (s : string) :
  no_leading_star s ->
  glob_terms (String "*" s)
  = Regex.Star (Regex.NoneOf ["/"%char]) :: glob_terms s.
Proof.
  destruct s as [|d s]; intros H; [reflexivity|].
  simpl in H. cbn [glob_terms]. cbn [Ascii.eqb Bool.eqb]. rewrite H.
  reflexivity.
Qed.

Lemma glob_terms_other (c : ascii) (s : string) :
  Ascii.eqb c "*" = false ->
  glob_terms (String c s)
  = Regex.Once (if Ascii.eqb c "?" then Regex.AnyChar else Regex.Lit c)
      :: glob_terms s.
Proof.
  intros H. cbn [glob_terms]. rewrite H.
  destruct (Ascii.eqb c "?"); reflexivity.
Qed.

Lemma glob_to_regex_star' (s : string) :
  no_leading_star s ->
  glob_to_regex (String "*" s) = "[^/]*" ++ glob_to_regex s.
Proof.
  destruct s as [|d s]; intros H; [reflexivity|].
  now apply glob_to_regex_star.
Qed.

(** ** Every glob pattern compiles, to the terms read off the pattern *)


Lemma is_escaped_is_syntax (c : ascii) :
  is_escaped_char c = true -> Regex.is_syntax_char c = true.
Proof.
  unfold is_escaped_char, escaped_chars. cbn [existsb].
  rewrite !orb_true_iff. intros H.
  repeat (destruct H as [H | H];
          [apply Ascii.eqb_eq in H; subst c; reflexivity|]).
  discriminate H.
Qed.

Lemma plain_char_lex (c : ascii) (s : string) :
  is_escaped_char c = false ->
  Ascii.eqb c "*" = false ->
  Ascii.eqb c "?" = false ->
  Regex.lex (String c s)
  = option_map (cons (Regex.TokAtom (Regex.Lit c))) (Regex.lex s).
Proof.
  unfold is_escaped_char, escaped_chars. cbn [existsb].
  rewrite !orb_false_iff.
  intros (Hdot & Hplus & Hcaret & Hdollar & Hlb & Hrb & Hlp & Hrp & Hbar
          & Hlk & Hrk & Hbs & _) Hs Hq.
  cbn [Regex.lex].
  rewrite Hcaret, Hdollar, Hs, Hdot, Hbs, Hlk.
  unfold Regex.is_syntax_char, Regex.syntax_chars. cbn [existsb].
  rewrite Hcaret, Hdollar, Hs, Hdot, Hbs, Hlk, Hplus, Hq, Hlp, Hrp, Hrk,
    Hlb, Hrb, Hbar.
  reflexivity.
Qed.

Lemma escaped_char_lex (c : ascii) (s : string) :
  is_escaped_char c = true ->
  Regex.lex (String "\" (String c s))
  = option_map (cons (Regex.TokAtom (Regex.Lit c))) (Regex.lex s).
Proof.
  intros H. apply is_escaped_is_syntax in H.
  cbn [Regex.lex Ascii.eqb Bool.eqb]. rewrite H. reflexivity.
Qed.

Lemma group_atom (a : Regex.atom) (ts : list Regex.token) (r : Regex.regex) :
  no_leading_TokStar ts ->
  Regex.group ts = Some r ->
  Regex.group (Regex.TokAtom a :: ts) = Some (Regex.Once a :: r).
Proof.
  intros Hn Hg.
  assert (H : Regex.group (Regex.TokAtom a :: ts)
              = option_map (cons (Regex.Once a)) (Regex.group ts)).
  { destruct ts as [|[] ts]; try reflexivity. contradiction. }
  rewrite H, Hg. reflexivity.
Qed.

Lemma glob_compiles (pattern tail : string) (ts : list Regex.token)
      (r : Regex.regex) :
  Regex.lex tail = Some ts ->
  Regex.group ts = Some r ->
  no_leading_TokStar ts ->
  exists ts',
    Regex.lex (glob_to_regex pattern ++ tail) = Some ts'
    /\ Regex.group ts' = Some (glob_terms pattern ++ r)%list
    /\ no_leading_TokStar ts'.
Proof.
  intros Hlex Hgroup Hts. revert pattern.
  apply glob_ind.
  - exists ts. auto.
  - intros s (ts' & Hl & Hg & Hn).
    rewrite glob_to_regex_star_star, glob_terms_star_star, append_assoc.
    exists (Regex.TokAtom Regex.AnyChar
              :: Regex.TokAtom (Regex.NoneOf ["/"%char])
              :: Regex.TokStar :: ts').
    split; [|split; [|exact I]].
    + simpl. simpl in Hl. rewrite Hl. reflexivity.
    + simpl. rewrite Hg. reflexivity.
  - intros s Hs (ts' & Hl & Hg & Hn).
    rewrite (glob_to_regex_star' s Hs), (glob_terms_star s Hs), append_assoc.
    exists (Regex.TokAtom (Regex.NoneOf ["/"%char]) :: Regex.TokStar :: ts').
    split; [|split; [|exact I]].
    + simpl. simpl in Hl. rewrite Hl. reflexivity.
    + simpl. rewrite Hg. reflexivity.
  - intros c s Hc (ts' & Hl & Hg & Hn).
    rewrite (glob_terms_other c s Hc).
    destruct (Ascii.eqb c "?") eqn:Hq.
    + apply Ascii.eqb_eq in Hq. subst c.
      rewrite glob_to_regex_question, append_assoc.
      exists (Regex.TokAtom Regex.AnyChar :: ts').
      split; [|split; [|exact I]].
      * simpl. simpl in Hl. rewrite Hl. reflexivity.
      * now apply group_atom.
    + exists (Regex.TokAtom (Regex.Lit c) :: ts').
      split; [|split; [|exact I]].
      * destruct (is_escaped_char c) eqn:He.
        -- rewrite (glob_to_regex_escaped c s He).
           cbn [append]. rewrite (escaped_char_lex c _ He), Hl. reflexivity.
        -- rewrite (glob_to_regex_plain c s He Hc Hq).
           cbn [append]. rewrite (plain_char_lex c _ He Hc Hq), Hl.
           reflexivity.
      * now apply group_atom.
Qed.

(** [new RegExp(regexString pattern)] never throws: it yields
    [compiled pattern]. *)
Lemma regexString_compiles (pattern : string) :
  Regex.RegExp (regexString pattern) = Some (compiled pattern).
Proof.
  unfold regexString, compiled, Regex.RegExp.
  destruct (Str.endsWith pattern "/").
  - destruct (glob_compiles pattern ".*"
                [Regex.TokAtom Regex.AnyChar; Regex.TokStar]
                [Regex.Star Regex.AnyChar] eq_refl eq_refl I)
      as (ts' & Hl & Hg & Hn).
    cbn [append Regex.lex Ascii.eqb Bool.eqb]. rewrite Hl. cbn [option_map].
    cbn [Regex.group]. rewrite Hg. reflexivity.
  - destruct (glob_compiles pattern "$" [Regex.TokEnd] [Regex.AssertEnd]
                eq_refl eq_refl I) as (ts' & Hl & Hg & Hn).
    cbn [append Regex.lex Ascii.eqb Bool.eqb]. rewrite Hl. cbn [option_map].
    cbn [Regex.group]. rewrite Hg. reflexivity.
Qed.

Lemma matches_one_compiled (normalizedPath basename pattern : string) :
  matches_one normalizedPath basename pattern
  = Regex.test (compiled pattern)
      (if Str.includes pattern "/" && negb (Str.endsWith pattern "/")
       then normalizedPath else basename).
Proof.
  unfold matches_one. rewrite regexString_compiles. reflexivity.
Qed.

(** ** Matching against compiled patterns *)

Lemma match_here_star (a : Regex.atom) (r : Regex.regex) (b : bool)
      (s : string) :
  Regex.match_here (Regex.Star a :: r) b s
  = Regex.match_here r b s
    || match s with
       | EmptyString => false
       | String c s' =>
           Regex.atom_matches a c
           && Regex.match_here (Regex.Star a :: r) false s'
       end.
Proof. destruct s; reflexivity. Qed.

Lemma search_anchored_later (r : Regex.regex) (s : string) :
  Regex.search (Regex.AssertStart :: r) false s = false.
Proof. induction s as [|c s IH]; simpl; [reflexivity | exact IH]. Qed.

(** A pattern that starts with [^] can only match at the start. *)
Lemma test_anchored (r : Regex.regex) (s : string) :
  Regex.test (Regex.AssertStart :: r) s = Regex.match_here r true s.
Proof.
  unfold Regex.test. destruct s as [|c s].
  - simpl. now rewrite orb_false_r.
  - cbn [Regex.search]. rewrite search_anchored_later, orb_false_r.
    reflexivity.
Qed.

Lemma test_compiled (pattern target : string) :
  Regex.test (compiled pattern) target
  = Regex.match_here
      (glob_terms pattern
         ++ [if Str.endsWith pattern "/" then Regex.Star Regex.AnyChar
             else Regex.AssertEnd])%list true target.
Proof. unfold compiled. apply test_anchored. Qed.

(** Every pattern matches the string that spells it. *)
Lemma glob_terms_match_self (pattern : string) (b : bool) :
  Regex.match_here (glob_terms pattern ++ [Regex.AssertEnd])%list b pattern
  = true.
Proof.
  revert b. revert pattern.
  apply (glob_ind (fun p => forall b,
    Regex.match_here (glob_terms p ++ [Regex.AssertEnd])%list b p = true)).
  - reflexivity.
  - intros s IH b. rewrite glob_terms_star_star.
    cbn [app Regex.match_here]. cbn [Regex.atom_matches]. cbn [andb].
    change (Regex.match_here
              (Regex.Star (Regex.NoneOf ["/"%char])
                 :: (glob_terms s ++ [Regex.AssertEnd])%list)
              false (String "*" s) = true).
    rewrite match_here_star.
    apply orb_true_iff. right.
    change (Regex.atom_matches (Regex.NoneOf ["/"%char]) "*") with true.
    cbn [andb]. rewrite match_here_star, IH. reflexivity.
  - intros s Hs IH b. rewrite (glob_terms_star s Hs).
    cbn [app]. rewrite match_here_star.
    apply orb_true_iff. right.
    change (Regex.atom_matches (Regex.NoneOf ["/"%char]) "*") with true.
    cbn [andb]. rewrite match_here_star, IH. reflexivity.
  - intros c s Hc IH b. rewrite (glob_terms_other c s Hc).
    cbn [app Regex.match_here]. rewrite IH, andb_true_r.
    destruct (Ascii.eqb c "?") eqn:Hq.
    + apply Ascii.eqb_eq in Hq. subst c. reflexivity.
    + cbn [Regex.atom_matches]. apply Ascii.eqb_refl.
Qed.

(** A literal character of the regular expression has to be met in the
    subject. *)
Lemma match_here_needs_literal (c : ascii) (r : Regex.regex) :
  In (Regex.Once (Regex.Lit c)) r ->
  forall b s, Regex.match_here r b s = true -> Str.includes s c = true.
Proof.
  induction r as [|t r IH]; intros Hin b s Hm; [destruct Hin|].
  destruct t as [| |a|a].
  - destruct Hin as [Hin|Hin]; [discriminate|].
    cbn [Regex.match_here] in Hm. apply andb_true_iff in Hm.
    destruct Hm as [_ Hm]. eapply IH; eauto.
  - destruct Hin as [Hin|Hin]; [discriminate|].
    cbn [Regex.match_here] in Hm. destruct s; [|discriminate].
    eapply IH; eauto.
  - cbn [Regex.match_here] in Hm. destruct s as [|d s]; [discriminate|].
    apply andb_true_iff in Hm. destruct Hm as [Ha Hm].
    cbn [Str.includes]. apply orb_true_iff.
    destruct Hin as [Hin|Hin].
    + injection Hin as ->. left. exact Ha.
    + right. eapply IH; eauto.
  - destruct Hin as [Hin|Hin]; [discriminate|].
    revert b Hm. induction s as [|d s IHs]; intros b Hm;
      rewrite match_here_star in Hm; apply orb_true_iff in Hm.
    + destruct Hm as [Hm|Hm]; [|discriminate]. eapply IH; eauto.
    + destruct Hm as [Hm|Hm]; [eapply IH; eauto|].
      apply andb_true_iff in Hm. destruct Hm as [_ Hm].
      cbn [Str.includes]. apply orb_true_iff. right. eapply IHs; eauto.
Qed.

Lemma glob_terms_keeps_literal (c : ascii) :
  Ascii.eqb c "*" = false ->
  Ascii.eqb c "?" = false ->
  forall pattern,
    Str.includes pattern c = true ->
    In (Regex.Once (Regex.Lit c)) (glob_terms pattern).
Proof.
  intros Hs Hq. apply (glob_ind (fun pattern =>
    Str.includes pattern c = true ->
    In (Regex.Once (Regex.Lit c)) (glob_terms pattern))).
  - discriminate.
  - intros s IH H. rewrite glob_terms_star_star.
    cbn [Str.includes] in H.
    rewrite (Ascii.eqb_sym "*" c), Hs in H. cbn [orb] in H.
    right. right. exact (IH H).
  - intros s Hn IH H. rewrite (glob_terms_star s Hn).
    cbn [Str.includes] in H.
    rewrite (Ascii.eqb_sym "*" c), Hs in H. cbn [orb] in H.
    right. exact (IH H).
  - intros d s Hd IH H. rewrite (glob_terms_other d s Hd).
    cbn [Str.includes] in H. apply orb_true_iff in H.
    destruct H as [H|H].
    + apply Ascii.eqb_eq in H. subst d. rewrite Hq. left. reflexivity.
    + right. exact (IH H).
Qed.

Lemma endsWith_includes (s : string) (c : ascii) :
  Str.endsWith s c = true -> Str.includes s c = true.
Proof.
  induction s as [|d s IH]; [discriminate|].
  cbn [Str.endsWith Str.includes]. destruct s as [|e s].
  - intros ->. reflexivity.
  - intros H. rewrite (IH H). apply orb_true_r.
Qed.

(** A pattern with a slash in it matches no slash-free subject. *)
Lemma slash_pattern_needs_slash (pattern target : string) :
  Str.includes pattern "/" = true ->
  Regex.test (compiled pattern) target = true ->
  Str.includes target "/" = true.
Proof.
  intros Hp Ht. rewrite test_compiled in Ht.
  eapply match_here_needs_literal; [|exact Ht].
  apply in_or_app. left.
  now apply glob_terms_keeps_literal.
Qed.

(** The trailing-slash form is tested against the base name, so it
    matches no entry at all. *)
Lemma trailing_slash_never_matches (filePath basename pattern : string) :
  Str.endsWith pattern "/" = true ->
  Str.includes basename "/" = false ->
  matchesPattern filePath basename [pattern] = false.
Proof.
  intros He Hb. unfold matchesPattern. cbn [existsb]. rewrite orb_false_r.
  rewrite matches_one_compiled, He, andb_false_r.
  destruct (Regex.test (compiled pattern) basename) eqn:Ht; [|reflexivity].
  apply slash_pattern_needs_slash in Ht; [congruence|].
  now apply endsWith_includes.
Qed.


(** A pattern without wildcard matches its own spelling only. *)
Lemma literal_terms_match (pattern : string) :
  is_literal pattern = true ->
  forall b s,
    Regex.match_here (glob_terms pattern ++ [Regex.AssertEnd])%list b s
    = String.eqb s pattern.
Proof.
  unfold is_literal.
  induction pattern as [|c p IH]; intros Hl b s.
  - destruct s; reflexivity.
  - cbn [Str.includes] in Hl. rewrite !negb_orb in Hl.
    apply andb_true_iff in Hl. destruct Hl as [Hl1 Hl2].
    apply andb_true_iff in Hl1. destruct Hl1 as [Hc1 Hp1].
    apply andb_true_iff in Hl2. destruct Hl2 as [Hc2 Hp2].
    apply negb_true_iff in Hc1, Hc2.
    rewrite glob_terms_other by exact Hc1. rewrite Hc2.
    cbn [app Regex.match_here]. destruct s as [|d s]; [reflexivity|].
    cbn [Regex.atom_matches String.eqb].
    rewrite IH by (now rewrite Hp1, Hp2).
    destruct (Ascii.eqb d c); reflexivity.
Qed.

(** Without a trailing slash, a slash-free pattern in the list makes
    [matchesPattern] accept every entry that bears the pattern as its
    name, whatever its path. *)
Lemma matchesPattern_own_name (filePath X : string) (patterns : list string) :
  In X patterns ->
  Str.includes X "/" = false ->
  matchesPattern filePath X patterns = true.
Proof.
  intros Hin Hs. unfold matchesPattern.
  destruct patterns as [|p ps]; [destruct Hin|].
  apply existsb_exists. exists X. split; [exact Hin|].
  rewrite matches_one_compiled, Hs. cbn [andb].
  rewrite test_compiled.
  destruct (Str.endsWith X "/") eqn:He.
  - apply endsWith_includes in He. congruence.
  - apply glob_terms_match_self.
Qed.

(** ** Splitting and joining *)

Lemma join_cons2 (sep x y : string) (l : list string) :
  Str.join sep (x :: y :: l) = x ++ sep ++ Str.join sep (y :: l).
Proof. reflexivity. Qed.

Lemma split_no_sep (c : ascii) (s : string) :
  Str.includes s c = false -> Str.split c s = [s].
Proof.
  induction s as [|d s IH]; [reflexivity|].
  cbn [Str.includes Str.split]. intros H. apply orb_false_iff in H.
  destruct H as [Hd Hs]. rewrite Hd, (IH Hs). reflexivity.
Qed.

Lemma split_app_sep (c : ascii) (x rest : string) :
  Str.includes x c = false ->
  Str.split c (x ++ String c rest) = x :: Str.split c rest.
Proof.
  induction x as [|d x IH]; intros H.
  - cbn [append Str.split]. now rewrite Ascii.eqb_refl.
  - cbn [Str.includes] in H. apply orb_false_iff in H. destruct H as [Hd Hx].
    cbn [append Str.split]. rewrite Hd, (IH Hx). reflexivity.
Qed.

Lemma split_join (c : ascii) (l : list string) :
  l <> [] ->
  Forall (fun s => Str.includes s c = false) l ->
  Str.split c (Str.join (String c "") l) = l.
Proof.
  induction l as [|x l IH]; intros Hne Hall; [contradiction|].
  inversion Hall as [|? ? Hx Hl]; subst.
  destruct l as [|y l].
  - now apply split_no_sep.
  - rewrite join_cons2. cbn [append].
    rewrite (split_app_sep c x _ Hx), IH; [reflexivity | discriminate | exact Hl].
Qed.

Lemma split_not_nil (c : ascii) (s : string) : Str.split c s <> [].
Proof.
  induction s as [|d s IH]; cbn [Str.split]; [discriminate|].
  destruct (Ascii.eqb d c); [discriminate|].
  destruct (Str.split c s); [contradiction | discriminate].
Qed.

Lemma join_split (c : ascii) (s : string) :
  Str.join (String c "") (Str.split c s) = s.
Proof.
  induction s as [|d s IH]; [reflexivity|].
  cbn [Str.split]. destruct (Ascii.eqb d c) eqn:E.
  - apply Ascii.eqb_eq in E. subst d.
    pose proof (split_not_nil c s) as Hne.
    destruct (Str.split c s) as [|w ws]; [contradiction|].
    rewrite join_cons2, IH. reflexivity.
  - pose proof (split_not_nil c s) as Hne.
    destruct (Str.split c s) as [|w ws]; [contradiction|].
    destruct ws as [|w' ws].
    + cbn in IH |- *. now rewrite IH.
    + rewrite join_cons2 in IH |- *. cbn [append] in IH |- *. now rewrite IH.
Qed.

Lemma join_app (sep : string) (l1 l2 : list string) :
  l1 <> [] -> l2 <> [] ->
  Str.join sep (l1 ++ l2) = Str.join sep l1 ++ sep ++ Str.join sep l2.
Proof.
  induction l1 as [|x l1 IH]; intros H1 H2; [contradiction|].
  destruct l1 as [|y l1].
  - destruct l2 as [|z l2]; [contradiction | reflexivity].
  - change ((x :: y :: l1) ++ l2)%list with (x :: y :: (l1 ++ l2))%list.
    rewrite !join_cons2.
    change (y :: (l1 ++ l2))%list with ((y :: l1) ++ l2)%list.
    rewrite IH by (discriminate || assumption).
    now rewrite !append_assoc.
Qed.

(** The path handed to the matcher is the path itself on a POSIX host. *)
Lemma normalizedPath_id (filePath : string) :
  Str.join "/" (Str.split path_sep filePath) = filePath.
Proof. apply join_split. Qed.

(** ** [path.join] on entry names *)

Lemma valid_name_spec (name : string) :
  valid_name name = true ->
  Str.truthy name = true /\ Str.includes name "/" = false
  /\ String.eqb name "." = false /\ String.eqb name ".." = false.
Proof.
  unfold valid_name. rewrite !andb_true_iff, !negb_true_iff. tauto.
Qed.

Lemma valid_names_no_slash (names : list string) :
  Forall (fun n => valid_name n = true) names ->
  Forall (fun s => Str.includes s "/" = false) names.
Proof.
  apply Forall_impl. intros n H. now apply valid_name_spec in H.
Qed.

Lemma push_segment_valid (b : bool) (stack : list string) (name : string) :
  valid_name name = true ->
  Path.push_segment b stack name = name :: stack.
Proof.
  intros H. apply valid_name_spec in H.
  destruct H as (Ht & _ & Hdot & Hdots).
  unfold Path.push_segment. rewrite Hdot, Hdots.
  destruct name; [discriminate Ht | reflexivity].
Qed.

Lemma fold_push_valid (b : bool) (names stack : list string) :
  Forall (fun n => valid_name n = true) names ->
  fold_left (Path.push_segment b) names stack = (rev names ++ stack)%list.
Proof.
  revert stack. induction names as [|n names IH]; intros stack H;
    [reflexivity|].
  inversion H; subst. cbn [fold_left rev].
  rewrite push_segment_valid, IH by assumption.
  now rewrite <- app_assoc.
Qed.

Lemma normalize_segments_valid (b : bool) (names : list string) :
  Forall (fun n => valid_name n = true) names ->
  Path.normalize_segments b (Str.join "/" names) = names.
Proof.
  intros H. unfold Path.normalize_segments.
  destruct names as [|n names]; [reflexivity|].
  rewrite split_join;
    [| discriminate | now apply valid_names_no_slash].
  rewrite fold_push_valid by exact H.
  now rewrite app_nil_r, rev_involutive.
Qed.

Lemma endsWith_append (a b : string) (c : ascii) :
  b <> "" -> Str.endsWith (a ++ b) c = Str.endsWith b c.
Proof.
  intros Hb. induction a as [|d a IH]; [reflexivity|].
  cbn [append Str.endsWith]. rewrite IH.
  destruct (a ++ b) eqn:E; [|reflexivity].
  destruct a; [cbn in E; contradiction | discriminate E].
Qed.

Lemma endsWith_no_sep (s : string) (c : ascii) :
  Str.includes s c = false -> Str.endsWith s c = false.
Proof.
  intros H. destruct (Str.endsWith s c) eqn:E; [|reflexivity].
  apply endsWith_includes in E. congruence.
Qed.

Lemma join_valid_shape (n : string) (names : list string) :
  Forall (fun n => valid_name n = true) (n :: names) ->
  exists c s, Str.join "/" (n :: names) = String c s
              /\ Ascii.eqb c "/" = false
              /\ Str.endsWith (String c s) "/" = false.
Proof.
  revert n. induction names as [|m names IH]; intros n H.
  - inversion H as [|? ? Hn _]; subst. apply valid_name_spec in Hn.
    destruct Hn as (Ht & Hs & _).
    destruct n as [|c s]; [discriminate Ht|].
    exists c, s. split; [reflexivity|]. split.
    + cbn [Str.includes] in Hs. now apply orb_false_iff in Hs.
    + now apply endsWith_no_sep.
  - inversion H as [|? ? Hn Hrest]; subst.
    destruct (IH m Hrest) as (c' & s' & Hj & _ & He).
    apply valid_name_spec in Hn. destruct Hn as (Ht & Hs & _).
    destruct n as [|c s]; [discriminate Ht|].
    rewrite join_cons2. cbn [append].
    eexists c, _. split; [reflexivity|]. split.
    + cbn [Str.includes] in Hs. now apply orb_false_iff in Hs.
    + rewrite Hj.
      change (String c (s ++ String "/" (String c' s')))
        with (String c s ++ (String "/" (String c' s'))).
      rewrite endsWith_append by discriminate.
      exact He.
Qed.

(** A path made of entry names is in normal form. *)
Lemma normalize_valid (names : list string) :
  names <> [] ->
  Forall (fun n => valid_name n = true) names ->
  Path.normalize (Str.join "/" names) = Str.join "/" names.
Proof.
  intros Hne H. destruct names as [|n names]; [contradiction|].
  destruct (join_valid_shape n names H) as (c & s & Hj & Hc & He).
  unfold Path.normalize, Path.normalizeString.
  rewrite (normalize_segments_valid _ _ H).
  rewrite Hj. cbn [Path.is_absolute]. rewrite Hc, He. reflexivity.
Qed.

Lemma path_join_valid (names : list string) (name : string) :
  Forall (fun n => valid_name n = true) names ->
  valid_name name = true ->
  Path.join (Str.join "/" names) name = Str.join "/" (names ++ [name]).
Proof.
  intros H Hn.
  assert (Hall : Forall (fun n => valid_name n = true) (names ++ [name])).
  { apply Forall_app. split; [exact H | constructor; [exact Hn | constructor]]. }
  pose proof (valid_name_spec name Hn) as (Ht & _).
  destruct name as [|c s]; [discriminate Ht|].
  destruct names as [|m names].
  - cbn [Str.join String.concat Path.join app].
    apply (normalize_valid [String c s]); [discriminate | exact Hall].
  - destruct (join_valid_shape m names H) as (c' & s' & Hj & _).
    transitivity (Path.normalize (Str.join "/" ((m :: names) ++ [String c s]))).
    + rewrite join_app by discriminate.
      unfold Path.join. rewrite Hj. reflexivity.
    + apply normalize_valid; [discriminate | exact Hall].
Qed.

Lemma entry_path_valid (names more : list string) :
  Forall (fun n => valid_name n = true) names ->
  Forall (fun n => valid_name n = true) more ->
  entry_path (Str.join "/" names) more = Str.join "/" (names ++ more).
Proof.
  unfold entry_path. revert names.
  induction more as [|n more IH]; intros names H Hm.
  - now rewrite app_nil_r.
  - inversion Hm; subst. cbn [fold_left].
    rewrite path_join_valid by assumption.
    rewrite IH; [now rewrite <- app_assoc | | assumption].
    apply Forall_app. split; [assumption | constructor; [assumption | constructor]].
Qed.

Lemma filter_truthy_valid (names : list string) :
  Forall (fun n => valid_name n = true) names ->
  filter Str.truthy names = names.
Proof.
  induction 1 as [|n names Hn _ IH]; [reflexivity|].
  cbn [filter]. apply valid_name_spec in Hn. destruct Hn as (-> & _).
  now rewrite IH.
Qed.

Lemma path_segments_join (names : list string) :
  Forall (fun n => valid_name n = true) names ->
  path_segments (Str.join "/" names) = names.
Proof.
  intros H. unfold path_segments. destruct names as [|n names];
    [reflexivity|].
  rewrite split_join; [| discriminate | now apply valid_names_no_slash].
  now apply filter_truthy_valid.
Qed.

Lemma path_segments_join_slash (names : list string) :
  Forall (fun n => valid_name n = true) names ->
  path_segments (Str.join "/" names ++ "/") = names.
Proof.
  intros H. unfold path_segments. destruct names as [|n names];
    [reflexivity|].
  assert (E : Str.join "/" (n :: names) ++ "/"
              = Str.join "/" ((n :: names) ++ [""])).
  { rewrite join_app by discriminate. reflexivity. }
  rewrite E, split_join.
  - rewrite filter_app, filter_truthy_valid by exact H.
    cbn [filter Str.truthy]. now rewrite app_nil_r.
  - discriminate.
  - apply Forall_app. split.
    + now apply valid_names_no_slash.
    + constructor; [reflexivity | constructor].
Qed.

(** ** The walk *)

Lemma node_ind' (P : node -> Prop) :
  P File ->
  (forall entries, Forall (fun e => P (snd e)) entries -> P (Dir entries)) ->
  forall n, P n.
Proof.
  intros HF HD. fix IH 1. intros [|entries].
  - exact HF.
  - apply HD. induction entries as [|[name child] rest IHr].
    + constructor.
    + constructor; [apply IH | exact IHr].
Qed.

Lemma walk_cons (recursive : bool) (ignore : list string) (name : string)
      (child : node) (rest : list (string * node)) (rel : string) :
  walk recursive ignore (Dir ((name, child) :: rest)) rel
  = ((if matchesPattern (Path.join rel name) name ignore then []
      else if is_directory child then
             if recursive
             then walk recursive ignore child (Path.join rel name)
             else [(Path.join rel name ++ "/")%string]
           else [Path.join rel name])
     ++ walk recursive ignore (Dir rest) rel)%list.
Proof. reflexivity. Qed.

Lemma descends_later (name : string) (child : node)
      (rest : list (string * node)) (names : list string) (target : node) :
  names <> [] ->
  descends (Dir rest) names target ->
  descends (Dir ((name, child) :: rest)) names target.
Proof.
  destruct names as [|n names]; [contradiction|].
  intros _ (c & Hin & Hd). exists c. split; [now right | exact Hd].
Qed.

(** Every string the walk pushes is the path of an entry it reached
    through entries that [ignore] does not match. *)
Lemma walk_sound (recursive : bool) (ignore : list string) (dir : node) :
  forall rel f,
    In f (walk recursive ignore dir rel) ->
    exists names target,
      names <> []
      /\ descends dir names target
      /\ kept ignore rel names
      /\ ((f = entry_path rel names /\ is_directory target = false)
          \/ (f = (entry_path rel names ++ "/")%string
              /\ is_directory target = true /\ recursive = false)).
Proof.
  induction dir as [|entries IH] using node_ind'; intros rel f Hin.
  - destruct Hin.
  - induction entries as [|[name child] rest IHrest].
    + destruct Hin.
    + inversion IH as [|? ? IHchild IHtail]; subst. cbn [snd] in IHchild.
      rewrite walk_cons in Hin. apply in_app_or in Hin.
      destruct Hin as [Hin|Hin].
      * destruct (matchesPattern (Path.join rel name) name ignore) eqn:Hm;
          [destruct Hin|].
        destruct (is_directory child) eqn:Hd.
        -- destruct recursive eqn:Hr.
           ++ destruct (IHchild _ _ Hin) as (names & target & Hne & Hdesc & Hk & Hf).
              exists (name :: names), target.
              split; [discriminate|]. split.
              { exists child. split; [now left | exact Hdesc]. }
              split; [split; assumption|].
              destruct Hf as [[-> Ht]|(-> & Ht & Hfalse)];
                [left; split; [reflexivity | exact Ht] | discriminate].
           ++ destruct Hin as [<-|[]].
              exists [name], child. split; [discriminate|]. split.
              { exists child. split; [now left | reflexivity]. }
              split; [split; [exact Hm | exact I]|].
              right. split; [reflexivity | split; [exact Hd | reflexivity]].
        -- destruct Hin as [<-|[]].
           exists [name], child. split; [discriminate|]. split.
           { exists child. split; [now left | reflexivity]. }
           split; [split; [exact Hm | exact I]|].
           left. split; [reflexivity | exact Hd].
      * destruct (IHrest IHtail Hin) as (names & target & Hne & Hdesc & Hk & Hf).
        exists names, target. split; [exact Hne|]. split.
        { now apply descends_later. }
        split; assumption.
Qed.

Lemma kept_excludes_name (ignore : list string) (X : string) :
  In X ignore ->
  Str.includes X "/" = false ->
  forall names rel, kept ignore rel names -> ~ In X names.
Proof.
  intros Hin Hs. induction names as [|n names IH]; intros rel Hk Hx;
    [destruct Hx|].
  destruct Hk as [Hm Hk]. destruct Hx as [->|Hx].
  - rewrite (matchesPattern_own_name _ X ignore Hin Hs) in Hm. discriminate.
  - exact (IH _ Hk Hx).
Qed.

Lemma kept_no_match (ignore : list string) (X : string) :
  In X ignore ->
  Str.includes X "/" = false ->
  forall names rel,
    kept ignore rel names ->
    Forall (fun name => Regex.test (compiled X) name = false) names.
Proof.
  intros Hin Hs. induction names as [|n names IH]; intros rel Hk;
    [constructor|].
  destruct Hk as [Hm Hk]. constructor; [|exact (IH _ Hk)].
  destruct (Regex.test (compiled X) n) eqn:Ht; [|reflexivity].
  unfold matchesPattern in Hm. destruct ignore as [|p ps]; [destruct Hin|].
  assert (Hex : existsb (matches_one
                           (Str.join "/" (Str.split path_sep (Path.join rel n)))
                           n) (p :: ps) = true).
  { apply existsb_exists. exists X. split; [exact Hin|].
    now rewrite matches_one_compiled, Hs. }
  congruence.
Qed.

Lemma valid_names_child (name : string) (child : node)
      (entries : list (string * node)) :
  valid_names (Dir entries) ->
  In (name, child) entries ->
  valid_name name = true /\ valid_names child.
Proof.
  induction entries as [|[n c] rest IH]; intros Hv Hin; [destruct Hin|].
  destruct Hv as (Hn & Hc & Hrest).
  destruct Hin as [E|Hin].
  - injection E as -> ->. split; assumption.
  - apply IH; assumption.
Qed.

Lemma descends_valid (names : list string) :
  forall dir target,
    valid_names dir ->
    descends dir names target ->
    Forall (fun n => valid_name n = true) names /\ valid_names target.
Proof.
  induction names as [|n names IH]; intros dir target Hv Hd.
  - cbn in Hd. subst. split; [constructor | exact Hv].
  - destruct dir as [|entries]; [destruct Hd|].
    destruct Hd as (child & Hin & Hd).
    destruct (valid_names_child _ _ _ Hv Hin) as [Hn Hc].
    destruct (IH _ _ Hc Hd) as [Hns Ht].
    split; [constructor; assumption | exact Ht].
Qed.

Lemma find_entry_In (name : string) (entries : list (string * node))
      (child : node) :
  find_entry name entries = Some child -> In (name, child) entries.
Proof.
  unfold find_entry. destruct (find _ entries) as [[n c]|] eqn:E;
    [|discriminate].
  cbn. intros [= ->]. apply find_some in E. destruct E as [Hin Heq].
  cbn in Heq. apply String.eqb_eq in Heq. now subst.
Qed.

Lemma lookup_descends (segments : list string) :
  forall fs n, lookup fs segments = Stat n -> descends fs segments n.
Proof.
  induction segments as [|s segments IH]; intros fs n H.
  - cbn in H. now injection H.
  - cbn [lookup] in H. destruct fs as [|entries]; [discriminate|].
    destruct (find_entry s entries) as [child|] eqn:E; [|discriminate].
    exists child. split; [now apply find_entry_In | now apply IH].
Qed.

(** ** Sorting *)

Lemma ascii_compare_lt_trans (a b c : ascii) :
  Ascii.compare a b = Lt -> Ascii.compare b c = Lt -> Ascii.compare a c = Lt.
Proof.
  unfold Ascii.compare. rewrite !N.compare_lt_iff. apply N.lt_trans.
Qed.

Lemma ascii_compare_refl (a : ascii) : Ascii.compare a a = Eq.
Proof. unfold Ascii.compare. apply N.compare_refl. Qed.

Lemma string_compare_lt_trans (s1 : string) :
  forall s2 s3,
    String.compare s1 s2 = Lt -> String.compare s2 s3 = Lt ->
    String.compare s1 s3 = Lt.
Proof.
  induction s1 as [|a s1 IH]; intros [|b s2] [|c s3]; cbn; try congruence.
  destruct (Ascii.compare a b) eqn:Eab; try discriminate;
    destruct (Ascii.compare b c) eqn:Ebc; try discriminate; intros H1 H2.
  - apply Ascii.compare_eq_iff in Eab, Ebc. subst.
    rewrite ascii_compare_refl. eauto.
  - apply Ascii.compare_eq_iff in Eab. subst. now rewrite Ebc.
  - apply Ascii.compare_eq_iff in Ebc. subst. now rewrite Eab.
  - now rewrite (ascii_compare_lt_trans _ _ _ Eab Ebc).
Qed.

Lemma string_compare_refl (s : string) : String.compare s s = Eq.
Proof.
  induction s as [|a s IH]; [reflexivity|].
  cbn. now rewrite ascii_compare_refl.
Qed.

Lemma leb_trans (s1 s2 s3 : string) :
  String.leb s1 s2 = true -> String.leb s2 s3 = true ->
  String.leb s1 s3 = true.
Proof.
  unfold String.leb.
  destruct (String.compare s1 s2) eqn:E12; try discriminate;
    destruct (String.compare s2 s3) eqn:E23; try discriminate; intros _ _.
  - apply String.compare_eq_iff in E12, E23. subst.
    now rewrite string_compare_refl.
  - apply String.compare_eq_iff in E12. subst. now rewrite E23.
  - apply String.compare_eq_iff in E23. subst. now rewrite E12.
  - now rewrite (string_compare_lt_trans _ _ _ E12 E23).
Qed.

Lemma insert_sorted_perm (x : string) (l : list string) :
  Permutation (x :: l) (insert_sorted x l).
Proof.
  induction l as [|y l IH]; cbn; [reflexivity|].
  destruct (String.leb x y); [reflexivity|].
  rewrite perm_swap. now apply perm_skip.
Qed.

Lemma sort_perm (l : list string) : Permutation l (sort l).
Proof.
  induction l as [|x l IH]; cbn; [reflexivity|].
  rewrite <- insert_sorted_perm. now apply perm_skip.
Qed.

Lemma insert_sorted_ordered (x : string) (l : list string) :
  ordered l -> ordered (insert_sorted x l).
Proof.
  unfold ordered. induction 1 as [|y l Hl IH Hy]; cbn.
  - constructor; constructor.
  - destruct (String.leb x y) eqn:E.
    + constructor; [now constructor|].
      constructor; [exact E|].
      eapply Forall_impl; [|exact Hy].
      intros z Hz. cbn in Hz. eapply leb_trans; eauto.
    + constructor; [exact IH|].
      apply (Permutation_Forall (insert_sorted_perm x l)).
      constructor; [|exact Hy].
      destruct (String.leb_total x y) as [H|H]; congruence.
Qed.

Lemma sort_ordered (l : list string) : ordered (sort l).
Proof.
  induction l as [|x l IH]; cbn; [constructor|].
  now apply insert_sorted_ordered.
Qed.

Lemma ordered_perm_eq (l1 : list string) :
  forall l2, ordered l1 -> ordered l2 -> Permutation l1 l2 -> l1 = l2.
Proof.
  unfold ordered.
  induction l1 as [|a l1 IH]; intros l2 H1 H2 Hp.
  - apply Permutation_nil in Hp. now subst.
  - destruct l2 as [|b l2].
    + apply Permutation_sym, Permutation_nil in Hp. discriminate.
    + apply StronglySorted_inv in H1, H2.
      destruct H1 as [H1 Ha], H2 as [H2 Hb].
      assert (E : a = b).
      { assert (Hin_a : In a (b :: l2))
          by (eapply Permutation_in; [exact Hp | now left]).
        assert (Hin_b : In b (a :: l1))
          by (eapply Permutation_in;
              [apply Permutation_sym; exact Hp | now left]).
        destruct Hin_a as [->|Hin_a]; [reflexivity|].
        destruct Hin_b as [->|Hin_b]; [reflexivity|].
        rewrite Forall_forall in Ha, Hb.
        apply String.leb_antisym; [now apply Ha | now apply Hb]. }
      subst b. f_equal. apply IH; try assumption.
      now apply Permutation_cons_inv in Hp.
Qed.

(** The sorted array depends on the entries only, not on their order. *)
Lemma sort_perm_eq (l1 l2 : list string) :
  Permutation l1 l2 -> sort l1 = sort l2.
Proof.
  intros Hp. apply ordered_perm_eq; try apply sort_ordered.
  rewrite <- (sort_perm l1), <- (sort_perm l2). exact Hp.
Qed.

(** ** Enumeration order *)

Lemma same_tree_is_directory (t t' : node) :
  same_tree t t' -> is_directory t = is_directory t'.
Proof. destruct 1; reflexivity. Qed.

Lemma walk_same_entries (recursive : bool) (ignore : list string) :
  forall entries entries',
    same_entries entries entries' ->
    forall rel,
      Permutation (walk recursive ignore (Dir entries) rel)
                  (walk recursive ignore (Dir entries') rel).
Proof.
  apply (same_entries_mind
           (fun t t' =>
              same_tree t t' /\
              forall rel, Permutation (walk recursive ignore t rel)
                                      (walk recursive ignore t' rel))
           (fun es es' =>
              same_entries es es' /\
              forall rel, Permutation (walk recursive ignore (Dir es) rel)
                                      (walk recursive ignore (Dir es') rel))).
  - split; [constructor | reflexivity].
  - intros es es' _ [Hs IH]. split; [now constructor | exact IH].
  - split; [constructor | reflexivity].
  - intros name c c' rest rest' _ [Hc IHc] _ [Hr IHr].
    split; [now constructor|]. intros rel. rewrite !walk_cons.
    apply Permutation_app; [|apply IHr].
    rewrite (same_tree_is_directory _ _ Hc).
    destruct (matchesPattern _ _ _); [reflexivity|].
    destruct (is_directory c'); [|reflexivity].
    destruct recursive; [apply IHc | reflexivity].
  - intros n1 c1 c1' n2 c2 c2' rest rest' _ [H1 IH1] _ [H2 IH2] _ [Hr IHr].
    split; [now constructor|]. intros rel. rewrite !walk_cons.
    rewrite (same_tree_is_directory _ _ H1), (same_tree_is_directory _ _ H2).
    rewrite !app_assoc. apply Permutation_app; [|apply IHr].
    rewrite Permutation_app_comm. apply Permutation_app.
    + destruct (matchesPattern _ n2 _); [reflexivity|].
      destruct (is_directory c2'); [|reflexivity].
      destruct recursive; [apply IH2 | reflexivity].
    + destruct (matchesPattern _ n1 _); [reflexivity|].
      destruct (is_directory c1'); [|reflexivity].
      destruct recursive; [apply IH1 | reflexivity].
  - intros es1 es2 es3 _ [H12 IH12] _ [H23 IH23].
    split; [eapply same_trans; eauto|].
    intros rel. eapply perm_trans; [apply IH12 | apply IH23].
Qed.

Lemma walk_same_tree (recursive : bool) (ignore : list string)
      (t t' : node) (rel : string) :
  same_tree t t' ->
  Permutation (walk recursive ignore t rel) (walk recursive ignore t' rel).
Proof.
  destruct 1 as [|es es' H]; [reflexivity|].
  now apply walk_same_entries.
Qed.

Lemma same_entries_names (entries entries' : list (string * node)) :
  same_entries entries entries' ->
  Permutation (map fst entries) (map fst entries').
Proof.
  revert entries entries'.
  apply (same_entries_mind
           (fun _ _ => True)
           (fun es es' => Permutation (map fst es) (map fst es')));
    cbn; intros; trivial.
  - now apply perm_skip.
  - eapply perm_trans; [apply perm_swap | now do 2 apply perm_skip].
  - eapply perm_trans; eassumption.
Qed.

Lemma find_entry_cons (name n : string) (c : node)
      (rest : list (string * node)) :
  find_entry name ((n, c) :: rest)
  = if String.eqb n name then Some c else find_entry name rest.
Proof. unfold find_entry. cbn. destruct (String.eqb n name); reflexivity. Qed.

Lemma find_entry_none_iff (name : string) (entries : list (string * node)) :
  find_entry name entries = None <-> ~ In name (map fst entries).
Proof.
  induction entries as [|[n c] rest IH].
  - cbn. tauto.
  - rewrite find_entry_cons. cbn [map fst In].
    destruct (String.eqb n name) eqn:E.
    + apply String.eqb_eq in E. split; [discriminate | tauto].
    + apply String.eqb_neq in E. rewrite IH. tauto.
Qed.

(** With unique names, the entry found under a name does not depend on
    the enumeration order. *)
Lemma find_entry_same (name : string) :
  forall entries entries',
    same_entries entries entries' ->
    NoDup (map fst entries) ->
    match find_entry name entries with
    | Some c => exists c', find_entry name entries' = Some c' /\ same_tree c c'
    | None => find_entry name entries' = None
    end.
Proof.
  apply (same_entries_mind
           (fun t t' => same_tree t t')
           (fun es es' =>
              same_entries es es' /\
              (NoDup (map fst es) ->
               match find_entry name es with
               | Some c => exists c', find_entry name es' = Some c'
                                      /\ same_tree c c'
               | None => find_entry name es' = None
               end))).
  - constructor.
  - intros es es' _ [H _]. now constructor.
  - split; [constructor | reflexivity].
  - intros n c c' rest rest' _ Hc _ [Hr IH].
    split; [now constructor|]. intros Hnd. inversion Hnd; subst.
    rewrite !find_entry_cons. destruct (String.eqb n name).
    + exists c'. split; [reflexivity | exact Hc].
    + now apply IH.
  - intros n1 c1 c1' n2 c2 c2' rest rest' _ H1 _ H2 _ [Hr IH].
    split; [now constructor|]. intros Hnd.
    inversion Hnd as [|? ? Hn1 Hnd']; subst.
    inversion Hnd' as [|? ? Hn2 Hnd'']; subst.
    rewrite !find_entry_cons.
    destruct (String.eqb n1 name) eqn:E1, (String.eqb n2 name) eqn:E2.
    + apply String.eqb_eq in E1, E2. subst. exfalso. apply Hn1. now left.
    + exists c1'. split; [reflexivity | exact H1].
    + exists c2'. split; [reflexivity | exact H2].
    + now apply IH.
  - intros es1 es2 es3 _ [H12 IH12] _ [H23 IH23].
    split; [eapply same_trans; eauto|]. intros Hnd.
    assert (Hnd2 : NoDup (map fst es2)).
    { eapply Permutation_NoDup; [|exact Hnd]. now apply same_entries_names. }
    specialize (IH12 Hnd). specialize (IH23 Hnd2).
    destruct (find_entry name es1) as [c|].
    + destruct IH12 as (c2 & E2 & S2). rewrite E2 in IH23.
      destruct IH23 as (c3 & E3 & S3).
      exists c3. split; [exact E3|].
      (* same_tree is transitive through the middle tree *)
      clear -S2 S3. destruct S2 as [|a b Hab]; [exact S3|].
      inversion S3; subst. constructor. eapply same_trans; eauto.
    + rewrite IH12 in IH23. exact IH23.
Qed.

Lemma unique_names_child (name : string) (child : node)
      (entries : list (string * node)) :
  unique_names (Dir entries) ->
  In (name, child) entries ->
  unique_names child.
Proof.
  intros [_ H]. induction entries as [|[n c] rest IH]; intros Hin;
    [destruct Hin|].
  destruct H as [Hc Hrest]. destruct Hin as [E|Hin].
  - injection E as -> ->. exact Hc.
  - now apply IH.
Qed.

Lemma lookup_same (segments : list string) :
  forall fs fs',
    same_tree fs fs' ->
    unique_names fs ->
    match lookup fs segments with
    | Stat n => exists n', lookup fs' segments = Stat n'
                           /\ same_tree n n' /\ unique_names n
    | StatError code => lookup fs' segments = StatError code
    end.
Proof.
  induction segments as [|s segments IH]; intros fs fs' Hs Hu.
  - cbn. exists fs'. auto.
  - destruct Hs as [|es es' Hes]; [reflexivity|].
    cbn [lookup].
    pose proof (find_entry_same s es es' Hes (proj1 Hu)) as Hf.
    destruct (find_entry s es) as [c|] eqn:E.
    + destruct Hf as (c' & -> & Hc).
      apply IH; [exact Hc|].
      apply (unique_names_child s c es Hu). apply find_entry_In. exact E.
    + now rewrite Hf.
Qed.

Lemma same_tree_refl (t : node) : same_tree t t.
Proof.
  induction t as [|entries IH] using node_ind'; constructor.
  induction entries as [|[name child] rest IHrest]; [constructor|].
  inversion IH; subst. constructor; [assumption | now apply IHrest].
Qed.

(** ** The two tools *)

Lemma list_files_entries_inr (process_cwd : string)
      (options_cwd : option string) (fs : node) (params : list_files_params)
      (files : list string) :
  list_files_entries process_cwd options_cwd fs params = inr files ->
  exists stats,
    stat fs (Path.resolve process_cwd (root process_cwd options_cwd)
                          (or_default (lf_path params) ".")) = Stat stats
    /\ is_directory stats = true
    /\ files = sort (walk (strict_neq_false (lf_recursive params))
                          (or_default (lf_ignore params) default_ignore)
                          stats
                          (if String.eqb (or_default (lf_path params) ".") "."
                           then "" else or_default (lf_path params) ".")).
Proof.
  unfold list_files_entries.
  destruct (negb (Str.startsWith _ _)); [discriminate|].
  destruct (stat fs _) as [stats|code].
  - destruct (is_directory stats) eqn:Hd; cbn [negb]; [|discriminate].
    intros [= <-]. exists stats. auto.
  - destruct (String.eqb code "ENOENT"); discriminate.
Qed.

Lemma in_sort (f : string) (l : list string) : In f (sort l) <-> In f l.
Proof.
  split; apply Permutation_in;
    [apply Permutation_sym|]; apply sort_perm.
Qed.

(** The guard as it is written: a resolved path of which [root] is not a
    string prefix stops both tools before they look at the file system or
    run a process. *)
Lemma guard_rejects_non_prefix (process_cwd : string)
      (options_cwd : option string) (relativePath : option string) :
  Str.startsWith
    (Path.resolve process_cwd (root process_cwd options_cwd)
                  (or_default relativePath "."))
    (root process_cwd options_cwd) = false ->
  (forall fs recursive ignore,
      list_files process_cwd options_cwd fs
                 {| lf_path := relativePath; lf_recursive := recursive;
                    lf_ignore := ignore |}
      = Throw (ToolInputError
                 ("Access denied: " ++ or_default relativePath "."
                                    ++ " is outside workspace root.")))
  /\ (forall execFile pattern include exclude caseSensitive,
         search process_cwd options_cwd execFile
                {| sp_pattern := pattern; sp_path := relativePath;
                   sp_include := include; sp_exclude := exclude;
                   sp_caseSensitive := caseSensitive |}
         = Throw (ToolInputError
                    ("Access denied: " ++ or_default relativePath "."
                                       ++ " is outside workspace root."))).
Proof.
  intros H. split; intros.
  - unfold list_files, list_files_entries. cbn [lf_path]. rewrite H.
    reflexivity.
  - unfold search, search_prepare. cbn [sp_path]. rewrite H. reflexivity.
Qed.

Lemma fold_push (f : string -> list string) (l init : list string) :
  fold_left (fun args x => push args (f x)) l init
  = (init ++ flat_map f l)%list.
Proof.
  revert init. induction l as [|x l IH]; intros init; cbn [fold_left flat_map].
  - now rewrite app_nil_r.
  - rewrite IH. unfold push. now rewrite app_assoc.
Qed.

(** The vector built by the successive [push] calls. *)
Lemma grepArgs_shape (pattern relativePath : string)
      (include : option (list string)) (exclude : list string)
      (caseSensitive : bool) :
  grepArgs pattern relativePath include exclude caseSensitive
  = (["-rIn"] ++ (if caseSensitive then [] else ["-i"]) ++ ["-E"]
       ++ include_args (or_default include [])
       ++ exclude_args exclude
       ++ ["-e"; pattern; relativePath])%list.
Proof.
  unfold grepArgs, include_args, exclude_args.
  assert (E : forall init,
             fold_left (fun args exc =>
                          push (push args ["--exclude"; exc])
                               ["--exclude-dir"; exc]) exclude init
             = fold_left (fun args exc =>
                            push args ["--exclude"; exc; "--exclude-dir"; exc])
                         exclude init).
  { induction exclude as [|x l IH]; intros init; [reflexivity|].
    cbn [fold_left]. rewrite IH. unfold push.
    now rewrite <- app_assoc. }
  rewrite E, fold_push.
  destruct include as [include|]; cbn [or_default].
  - rewrite fold_push. unfold push.
    destruct caseSensitive; cbn [negb app flat_map];
      rewrite <- ?app_assoc; reflexivity.
  - unfold push.
    destruct caseSensitive; cbn [negb app flat_map];
      rewrite <- ?app_assoc; reflexivity.
Qed.

Lemma search_prepare_run (process_cwd : string) (options_cwd : option string)
      (params : search_params) (request : exec_request) :
  search_prepare process_cwd options_cwd params = Run request ->
  request
  = {| exec_file := "grep";
       exec_args := grepArgs (sp_pattern params)
                             (or_default (sp_path params) ".")
                             (sp_include params)
                             (or_default (sp_exclude params) default_ignore)
                             (strict_eq_true (sp_caseSensitive params));
       exec_maxBuffer := 1024 * 1024;
       exec_cwd := root process_cwd options_cwd |}.
Proof.
  unfold search_prepare.
  destruct (negb (Str.startsWith _ _)); [discriminate|].
  now intros [= <-].
Qed.

(** ** The expectations of [search-tools.test.ts], on the model *)

Example lists_files_recursively_by_default :
  list_files "/" (Some "/ws") test_fs (list_params (Some ".") None)
  = Content (Str.join nl ["README.md";
                          "src/index.ts";
                          "src/nested_modules/nested.js";
                          "src/utils.ts";
                          "test/index.test.ts"]).
Proof. vm_compute. reflexivity. Qed.

Example respects_ignore_patterns :
  list_files "/" (Some "/ws") test_fs
             (list_params (Some ".") (Some ["node_modules"; "test"]))
  = Content (Str.join nl ["README.md";
                          "src/index.ts";
                          "src/nested_modules/nested.js";
                          "src/utils.ts"]).
Proof. vm_compute. reflexivity. Qed.

Example respects_nested_ignore_patterns :
  list_files "/" (Some "/ws") test_fs
             (list_params (Some ".") (Some ["nested_modules"]))
  = Content (Str.join nl ["README.md";
                          "node_modules/foo.js";
                          "src/index.ts";
                          "src/utils.ts";
                          "test/index.test.ts"]).
Proof. vm_compute. reflexivity. Qed.

Example lists_specific_directory :
  list_files "/" (Some "/ws") test_fs (list_params (Some "src") None)
  = Content (Str.join nl ["src/index.ts";
                          "src/nested_modules/nested.js";
                          "src/utils.ts"]).
Proof. vm_compute. reflexivity. Qed.

Example prevents_listing_outside_root :
  list_files "/" (Some "/ws") test_fs (list_params (Some "../") None)
  = Throw (ToolInputError "Access denied: ../ is outside workspace root.").
Proof. vm_compute. reflexivity. Qed.

Example searches_with_injection_attempt :
  search "/" (Some "/ws")
         (fun _ => Rejected {| err_code := JNum 1; err_stderr := Some "";
                               err_message := "Command failed: grep" |})
         (search_for "-v" None JUndefined)
  = Content "No matches found.".
Proof. vm_compute. reflexivity. Qed.

Example non_recursive_listing_marks_directories :
  list_files "/" (Some "/ws") test_fs
             {| lf_path := None; lf_recursive := JBool false;
                lf_ignore := Some [] |}
  = Content (Str.join nl ["README.md"; "node_modules/"; "src/"; "test/"]).
Proof. vm_compute. reflexivity. Qed.

(** * The claims of the specification *)

(** ** PathGuard *)

(** C1.  The claim says that every relative path whose resolution escapes
    the workspace root is refused by both tools.  The guard compares
    strings, not directories: with the root [/ws], the path
    [../ws-other] resolves to [/ws-other], a sibling directory outside
    the root of which [/ws] is still a string prefix.  [list_files] then
    lists the sibling directory and [search] runs [grep] on it. *)
Theorem C1_sibling_directory_passes_guard :
  Path.resolve "/" "/ws" "../ws-other" = "/ws-other"
  /\ within "/ws" "/ws-other" = false
  /\ list_files "/" (Some "/ws") test_fs (list_params (Some "../ws-other") None)
     = Content "../ws-other/secret.txt"
  /\ search_prepare "/" (Some "/ws")
                    (search_for "key" (Some "../ws-other") JUndefined)
     = Run (default_request "key" "../ws-other").
Proof. repeat split; vm_compute; reflexivity. Qed.

(** ** GlobMatcher *)

(** C2.  The claim says that the ignore pattern [X/] excludes [X] and all
    beneath it.  A pattern with a trailing slash is tested against the
    base name of each entry, and its regular expression requires a
    slash, so it matches nothing ([trailing_slash_never_matches]):
    with [ignore = ["node_modules/"]] the listing of the test workspace
    still holds [node_modules/foo.js]. *)
Theorem C2_trailing_slash_pattern_excludes_nothing :
  regexString "node_modules/" = "^node_modules/.*"
  /\ matchesPattern "node_modules" "node_modules" ["node_modules/"] = false
  /\ list_files "/" (Some "/ws") test_fs
                (list_params None (Some ["node_modules/"]))
     = Content (Str.join nl ["README.md";
                             "node_modules/foo.js";
                             "src/index.ts";
                             "src/nested_modules/nested.js";
                             "src/utils.ts";
                             "test/index.test.ts"]).
Proof. repeat split; vm_compute; reflexivity. Qed.

(** The other half of C2 holds: a literal pattern with an interior slash
    matches the entry whose relative path spells the pattern, and no
    other. *)
Lemma exact_path_pattern (filePath basename pattern : string) :
  is_literal pattern = true ->
  Str.includes pattern "/" = true ->
  Str.endsWith pattern "/" = false ->
  matchesPattern filePath basename [pattern] = String.eqb filePath pattern.
Proof.
  intros Hl Hs He. unfold matchesPattern. cbn [existsb].
  rewrite orb_false_r, matches_one_compiled, Hs, He. cbn [negb andb].
  rewrite normalizedPath_id, test_compiled, He.
  now apply literal_terms_match.
Qed.

(** C3.  The claim says that [**] becomes a fragment matching any
    sequence of characters, separators included, as the comment in the
    source has it.  The replacement of the single star runs on the output
    of the replacement of the doubled star, so [**] ends up as [.[^/]*]:
    one arbitrary character and then no separator.  The pattern [a/**]
    matches [a/b] but not [a/b/c]. *)
Theorem C3_double_star_stops_at_separator :
  glob_to_regex "**" = ".[^/]*"
  /\ regexString "a/**" = "^a/.[^/]*$"
  /\ matchesPattern "a/b" "b" ["a/**"] = true
  /\ matchesPattern "a/b/c" "c" ["a/**"] = false.
Proof. repeat split; vm_compute; reflexivity. Qed.

(** The single star and the question mark do become what the claim
    says. *)
Lemma star_and_question_fragments :
  glob_to_regex "*" = "[^/]*" /\ glob_to_regex "?" = ".".
Proof. split; reflexivity. Qed.

(** ** DirectoryWalker *)

Lemma lookup_valid (segments : list string) (fs n : node) :
  valid_names fs -> lookup fs segments = Stat n -> valid_names n.
Proof.
  intros Hv Hl. apply lookup_descends in Hl.
  now destruct (descends_valid _ _ _ Hv Hl).
Qed.


(** ** ExternalSearchInvoker *)

Lemma contains_suffix (before text : string) :
  contains (before ++ text) text.
Proof. exists before, "". now rewrite append_empty_r. Qed.

(** C5.  When the child process is rejected, [search] goes by the exit
    code: code 1 returns the text ["No matches found."] and throws
    nothing; code 2 throws a caller-input error whose message contains
    the captured standard error; anything else is thrown on as it came. *)
Theorem C5_exit_code_classification
        (process_cwd : string) (options_cwd : option string)
        (execFile : exec_request -> exec_outcome) (params : search_params)
        (request : exec_request) (e : exec_error) :
  search_prepare process_cwd options_cwd params = Run request ->
  execFile request = Rejected e ->
  (err_code e = JNum 1 ->
   search process_cwd options_cwd execFile params
   = Content "No matches found.")
  /\ (err_code e = JNum 2 ->
      exists message,
        search process_cwd options_cwd execFile params
        = Throw (ToolInputError message)
        /\ forall text, err_stderr e = Some text -> contains message text)
  /\ (err_code e <> JNum 1 -> err_code e <> JNum 2 ->
      search process_cwd options_cwd execFile params
      = Throw (ChildProcessError e)).
Proof.
  intros Hrun Hout. unfold search. rewrite Hrun, Hout. cbn [search_settle].
  split; [|split].
  - intros ->. reflexivity.
  - intros ->. cbn [strict_eq_num Nat.eqb].
    eexists. split; [reflexivity|].
    intros text ->. destruct text as [|c text].
    + exists ("Grep error: " ++ err_message e), "".
      now rewrite append_empty_r.
    + cbn [Str.truthy]. apply contains_suffix.
  - intros H1 H2. destruct (err_code e) as [| |b|n|s|items]; try reflexivity.
    cbn [strict_eq_num].
    destruct (Nat.eqb n 1) eqn:E1;
      [apply Nat.eqb_eq in E1; subst; now contradiction H1|].
    destruct (Nat.eqb n 2) eqn:E2;
      [apply Nat.eqb_eq in E2; subst; now contradiction H2|].
    reflexivity.
Qed.

Lemma C5_exit_code_classification_witness :
  search_prepare "/" (Some "/ws") (search_for "(" None JUndefined)
  = Run (default_request "(" ".")
  /\ (fun _ : exec_request => Rejected usage_error) (default_request "(" ".")
     = Rejected usage_error
  /\ err_code usage_error = JNum 2
  /\ exists message,
       search "/" (Some "/ws") (fun _ => Rejected usage_error)
              (search_for "(" None JUndefined)
       = Throw (ToolInputError message)
       /\ forall text,
           err_stderr usage_error = Some text -> contains message text.
Proof.
  split; [reflexivity|]. split; [reflexivity|]. split; [reflexivity|].
  exact (proj1 (proj2 (C5_exit_code_classification
                         "/" (Some "/ws") (fun _ => Rejected usage_error)
                         (search_for "(" None JUndefined)
                         (default_request "(" ".") usage_error
                         eq_refl eq_refl))
               eq_refl).
Defined.

(** ** OutputLimiter *)





(** C9.  Whatever the pattern, also one that begins with a dash, the
    request names the program [grep] and an argument vector (there is no
    command line for a shell to read), and the pattern is one element of
    that vector, the one right after [-e] and right before the path.
    The elements before [-e] do not depend on the pattern: another
    pattern changes that one element and nothing else. *)
Theorem C9_pattern_is_one_argument
        (process_cwd : string) (options_cwd : option string)
        (params : search_params) (request : exec_request) :
  search_prepare process_cwd options_cwd params = Run request ->
  exec_file request = "grep"
  /\ exists options,
      exec_args request
      = (options ++ ["-e"; sp_pattern params;
                     or_default (sp_path params) "."])%list
      /\ forall pattern',
          search_prepare process_cwd options_cwd (with_pattern params pattern')
          = Run {| exec_file := "grep";
                   exec_args :=
                     (options ++ ["-e"; pattern';
                                  or_default (sp_path params) "."])%list;
                   exec_maxBuffer := exec_maxBuffer request;
                   exec_cwd := exec_cwd request |}.
Proof.
  intros Hrun. pose proof Hrun as Hreq.
  apply search_prepare_run in Hreq. subst request.
  split; [reflexivity|].
  exists (["-rIn"]
            ++ (if strict_eq_true (sp_caseSensitive params) then [] else ["-i"])
            ++ ["-E"]
            ++ include_args (or_default (sp_include params) [])
            ++ exclude_args (or_default (sp_exclude params) default_ignore))%list.
  cbn [exec_args exec_maxBuffer exec_cwd]. rewrite grepArgs_shape.
  split; [now rewrite <- !app_assoc|].
  intros pattern'. revert Hrun. unfold search_prepare.
  cbn [with_pattern sp_pattern sp_path sp_include sp_exclude sp_caseSensitive].
  destruct (negb (Str.startsWith _ _)); [discriminate|]. intros _.
  rewrite grepArgs_shape. now rewrite <- !app_assoc.
Qed.

Lemma C9_pattern_is_one_argument_witness :
  search_prepare "/" (Some "/ws") (search_for "-v" None JUndefined)
  = Run (default_request "-v" ".")
  /\ exec_file (default_request "-v" ".") = "grep"
  /\ exists options,
      exec_args (default_request "-v" ".") = (options ++ ["-e"; "-v"; "."])%list
      /\ forall pattern',
          search_prepare "/" (Some "/ws")
                         (with_pattern (search_for "-v" None JUndefined) pattern')
          = Run {| exec_file := "grep";
                   exec_args := (options ++ ["-e"; pattern'; "."])%list;
                   exec_maxBuffer := exec_maxBuffer (default_request "-v" ".");
                   exec_cwd := exec_cwd (default_request "-v" ".") |}.
Proof.
  split; [reflexivity|].
  exact (C9_pattern_is_one_argument
           "/" (Some "/ws") (search_for "-v" None JUndefined)
           (default_request "-v" ".") eq_refl).
Defined.

(** ** Determinism of the listing *)

(** C8.  The array returned by the walk is sorted by code unit before it
    is printed, and the result of [list_files] does not depend on the
    order in which directories are enumerated: on two trees that hold the
    same entries, directory by directory, in different orders, the tool
    returns the same result. *)
Theorem C8_listing_sorted_and_order_independent
        (process_cwd : string) (options_cwd : option string)
        (fs fs' : node) (params : list_files_params) :
  same_tree fs fs' ->
  unique_names fs ->
  (forall files,
      list_files_entries process_cwd options_cwd fs params = inr files ->
      ordered files)
  /\ list_files process_cwd options_cwd fs params
     = list_files process_cwd options_cwd fs' params.
Proof.
  intros Hsame Huniq. split.
  - intros files H.
    destruct (list_files_entries_inr _ _ _ _ _ H) as (stats & _ & _ & ->).
    apply sort_ordered.
  - unfold list_files, list_files_entries.
    destruct (negb (Str.startsWith _ _)); [reflexivity|].
    unfold stat.
    pose proof (lookup_same
                  (path_segments
                     (Path.resolve process_cwd (root process_cwd options_cwd)
                                   (or_default (lf_path params) ".")))
                  fs fs' Hsame Huniq) as Hl.
    destruct (lookup fs _) as [stats|code].
    + destruct Hl as (stats' & -> & Hs & _).
      rewrite <- (same_tree_is_directory _ _ Hs).
      destruct (is_directory stats); cbn [negb]; [|reflexivity].
      rewrite (sort_perm_eq _ _ (walk_same_tree _ _ _ _ _ Hs)).
      reflexivity.
    + rewrite Hl. reflexivity.
Qed.

Lemma C8_listing_sorted_and_order_independent_witness :
  same_tree test_fs test_fs_reordered
  /\ unique_names test_fs
  /\ ordered ["README.md"; "src/index.ts"; "src/nested_modules/nested.js";
              "src/utils.ts"; "test/index.test.ts"]
  /\ list_files "/" (Some "/ws") test_fs (list_params None None)
     = list_files "/" (Some "/ws") test_fs_reordered (list_params None None).
Proof.
  assert (H1 : same_tree test_fs test_fs_reordered).
  { repeat first [ apply same_file | apply same_dir | apply same_nil
                 | apply same_skip | apply same_swap ]. }
  assert (H2 : unique_names test_fs).
  { cbn. repeat split; repeat constructor; cbn; intuition discriminate. }
  split; [exact H1|]. split; [exact H2|].
  split.
  - apply (proj1 (C8_listing_sorted_and_order_independent
                    "/" (Some "/ws") test_fs test_fs_reordered
                    (list_params None None) H1 H2)).
    vm_compute. reflexivity.
  - exact (proj2 (C8_listing_sorted_and_order_independent
                    "/" (Some "/ws") test_fs test_fs_reordered
                    (list_params None None) H1 H2)).
Defined.

(** ** Root-relative results *)

Lemma prefix_append (a b : string) : String.prefix a (a ++ b) = true.
Proof.
  induction a as [|c a IH]; cbn.
  - destruct b; reflexivity.
  - destruct (ascii_dec c c) as [_|N]; [exact IH | now contradiction N].
Qed.

Lemma valid_join_not_dot (segments : list string) :
  Forall (fun n => valid_name n = true) segments ->
  String.eqb (Str.join "/" segments) "." = false.
Proof.
  intros H. apply String.eqb_neq. intros E.
  pose proof (path_segments_join segments H) as Hs. rewrite E in Hs.
  cbn in Hs. subst segments. inversion H as [|? ? Hd _]. discriminate Hd.
Qed.

(** * Further properties of the tools *)

(** ** What the walk returns *)

Lemma walk_entry_included (recursive : bool) (ignore : list string)
      (name : string) (child : node) (entries : list (string * node))
      (rel f : string) :
  In (name, child) entries ->
  matchesPattern (Path.join rel name) name ignore = false ->
  In f (if is_directory child then
          if recursive
          then walk recursive ignore child (Path.join rel name)
          else [(Path.join rel name ++ "/")%string]
        else [Path.join rel name]) ->
  In f (walk recursive ignore (Dir entries) rel).
Proof.
  intros Hin Hm Hf. induction entries as [|[n c] rest IH]; [destruct Hin|].
  rewrite walk_cons. apply in_or_app. destruct Hin as [E|Hin].
  - injection E as -> ->. left. rewrite Hm. exact Hf.
  - right. now apply IH.
Qed.

Lemma descends_directory (names : list string) (dir target : node) :
  names <> [] -> descends dir names target -> is_directory dir = true.
Proof.
  destruct names as [|n names]; [contradiction|].
  intros _ H. destruct dir; [destruct H | reflexivity].
Qed.

(** In a recursive walk, every file reached through entries that
    [ignore] does not match is pushed. *)
Lemma walk_complete (ignore : list string) (names : list string) :
  forall dir rel target,
    names <> [] ->
    descends dir names target ->
    is_directory target = false ->
    kept ignore rel names ->
    In (entry_path rel names) (walk true ignore dir rel).
Proof.
  induction names as [|n names IH]; intros dir rel target Hne Hd Ht Hk;
    [contradiction|].
  destruct dir as [|entries]; [destruct Hd|].
  destruct Hd as (child & Hin & Hd). destruct Hk as [Hm Hk].
  apply (walk_entry_included true ignore n child entries rel _ Hin Hm).
  destruct names as [|m names].
  - cbn in Hd. subst child. rewrite Ht. now left.
  - rewrite (descends_directory (m :: names) child target) by
      (discriminate || assumption).
    apply (IH child (Path.join rel n) target); try assumption. discriminate.
Qed.

Lemma walk_shallow (ignore : list string) (entries : list (string * node))
      (rel f : string) :
  In f (walk false ignore (Dir entries) rel) <->
  exists name child,
    In (name, child) entries
    /\ matchesPattern (Path.join rel name) name ignore = false
    /\ f = if is_directory child then (Path.join rel name ++ "/")%string
           else Path.join rel name.
Proof.
  induction entries as [|[n c] rest IH].
  - split; [intros [] | intros (? & ? & [] & _)].
  - rewrite walk_cons. split.
    + intros H. apply in_app_or in H. destruct H as [H|H].
      * destruct (matchesPattern (Path.join rel n) n ignore) eqn:Hm;
          [destruct H|].
        exists n, c. split; [now left|]. split; [exact Hm|].
        destruct (is_directory c); destruct H as [<-|[]]; reflexivity.
      * apply IH in H. destruct H as (name & child & Hin & Hm & Hf).
        exists name, child. split; [now right | split; assumption].
    + intros (name & child & Hin & Hm & Hf). apply in_or_app.
      destruct Hin as [E|Hin].
      * injection E as -> ->. left. rewrite Hm.
        destruct (is_directory child); left; now symmetry.
      * right. apply IH. exists name, child. split; [exact Hin|].
        split; assumption.
Qed.

Lemma append_not_empty_r (a b : string) : b <> "" -> a ++ b <> "".
Proof.
  intros Hb H. destruct a; cbn in H; [contradiction | discriminate].
Qed.


(** ** No path twice *)

(** The segments of a path pushed by the walk: the names of the start
    path, then the names of the entries gone through, the first of which
    belongs to the directory walked. *)
Lemma walk_segments (recursive : bool) (ignore : list string)
      (entries : list (string * node)) (ps : list string) (f : string) :
  valid_names (Dir entries) ->
  Forall (fun n => valid_name n = true) ps ->
  In f (walk recursive ignore (Dir entries) (Str.join "/" ps)) ->
  exists name names,
    In name (map fst entries)
    /\ path_segments f = (ps ++ name :: names)%list.
Proof.
  intros Hv Hps Hf.
  destruct (walk_sound _ _ _ _ _ Hf)
    as (names & target & Hne & Hd & _ & Hshape).
  destruct (descends_valid _ _ _ Hv Hd) as [Hnames _].
  destruct names as [|n names]; [contradiction|].
  destruct Hd as (child & Hin & _).
  exists n, names. split; [apply (in_map fst) in Hin; exact Hin|].
  assert (Hall : Forall (fun n => valid_name n = true) (ps ++ n :: names))
    by (apply Forall_app; now split).
  rewrite entry_path_valid in Hshape by assumption.
  destruct Hshape as [[-> _]|(-> & _)].
  - now apply path_segments_join.
  - now apply path_segments_join_slash.
Qed.

Lemma walk_single (recursive : bool) (ignore : list string) (name : string)
      (child : node) (rel : string) :
  walk recursive ignore (Dir [(name, child)]) rel
  = (if matchesPattern (Path.join rel name) name ignore then []
     else if is_directory child then
            if recursive
            then walk recursive ignore child (Path.join rel name)
            else [(Path.join rel name ++ "/")%string]
          else [Path.join rel name]).
Proof. rewrite walk_cons. cbn [walk]. apply app_nil_r. Qed.

Lemma walk_NoDup (recursive : bool) (ignore : list string) (dir : node) :
  forall ps,
    valid_names dir ->
    unique_names dir ->
    Forall (fun n => valid_name n = true) ps ->
    NoDup (walk recursive ignore dir (Str.join "/" ps)).
Proof.
  induction dir as [|entries IH] using node_ind'; intros ps Hv Hu Hps.
  - constructor.
  - destruct Hu as [Hnd Hu].
    induction entries as [|[name child] rest IHrest]; [constructor|].
    inversion IH as [|? ? IHchild IHtail]; subst. cbn [snd] in IHchild.
    destruct Hv as (Hn & Hvc & Hvrest). destruct Hu as [Huc Hurest].
    cbn [map fst] in Hnd. inversion Hnd as [|? ? Hnot Hnd']; subst.
    rewrite walk_cons. rewrite <- walk_single.
    apply NoDup_app.
    + rewrite walk_single.
      destruct (matchesPattern _ _ _); [constructor|].
      destruct (is_directory child).
      * destruct recursive.
        -- rewrite path_join_valid by assumption.
           apply IHchild; try assumption.
           apply Forall_app. split; [assumption | now repeat constructor].
        -- repeat constructor. intros [].
      * repeat constructor. intros [].
    + now apply IHrest.
    + intros f Hf Hg.
      assert (Hv1 : valid_names (Dir [(name, child)])) by (cbn; auto).
      destruct (walk_segments _ _ _ ps f Hv1 Hps Hf) as (n1 & l1 & Hin1 & E1).
      destruct (walk_segments _ _ _ ps f Hvrest Hps Hg) as (n2 & l2 & Hin2 & E2).
      rewrite E1 in E2. apply app_inv_head in E2. injection E2 as -> _.
      destruct Hin1 as [<-|[]]. contradiction.
Qed.

(** ** Paths in two parts *)

Lemma descends_app (a b : list string) :
  forall dir target,
    descends dir (a ++ b) target <->
    exists mid, descends dir a mid /\ descends mid b target.
Proof.
  induction a as [|n a IH]; intros dir target.
  - cbn [app descends]. split.
    + intros H. now exists dir.
    + now intros (mid & -> & H).
  - cbn [app descends]. destruct dir as [|entries].
    + split; [intros [] | intros (mid & [] & _)].
    + split.
      * intros (child & Hin & Hd). apply IH in Hd.
        destruct Hd as (mid & Ha & Hb). exists mid. split; [|exact Hb].
        exists child. split; assumption.
      * intros (mid & (child & Hin & Ha) & Hb). exists child.
        split; [exact Hin|]. apply IH. exists mid. split; assumption.
Qed.

Lemma kept_app (ignore : list string) (a b : list string) :
  forall rel,
    kept ignore rel (a ++ b) <->
    kept ignore rel a /\ kept ignore (entry_path rel a) b.
Proof.
  induction a as [|n a IH]; intros rel.
  - cbn [app kept entry_path fold_left]. tauto.
  - cbn [app kept]. rewrite IH. unfold entry_path. cbn [fold_left]. tauto.
Qed.

Lemma matchesPattern_app (filePath basename : string)
      (l1 l2 : list string) :
  matchesPattern filePath basename (l1 ++ l2)
  = matchesPattern filePath basename l1
    || matchesPattern filePath basename l2.
Proof.
  unfold matchesPattern.
  destruct l1 as [|p l1]; [reflexivity|].
  destruct l2 as [|q l2].
  - rewrite app_nil_r, orb_false_r. reflexivity.
  - cbn [app]. change (p :: (l1 ++ q :: l2))%list
      with ((p :: l1) ++ (q :: l2))%list.
    now rewrite existsb_app.
Qed.

Lemma kept_fewer_patterns (l1 l2 : list string) (names : list string) :
  forall rel, kept (l1 ++ l2) rel names -> kept l1 rel names.
Proof.
  induction names as [|n names IH]; intros rel H; [exact I|].
  destruct H as [Hm Hk]. rewrite matchesPattern_app in Hm.
  apply orb_false_iff in Hm. split; [apply Hm | now apply IH].
Qed.


(** ** [path.resolve] under an absolute root *)

Lemma split_app_at_sep (c : ascii) (a b : string) :
  Str.split c (a ++ String c b) = (Str.split c a ++ Str.split c b)%list.
Proof.
  induction a as [|d a IH].
  - cbn [append Str.split]. now rewrite Ascii.eqb_refl.
  - cbn [append Str.split]. rewrite IH.
    destruct (Ascii.eqb d c); [reflexivity|].
    pose proof (split_not_nil c a) as Hne.
    destruct (Str.split c a) as [|w ws]; [contradiction | reflexivity].
Qed.

Lemma push_segment_empty (b : bool) (stack : list string) :
  Path.push_segment b stack "" = stack.
Proof. reflexivity. Qed.

Lemma resolve_under_root (cwd root p : string) :
  Path.is_absolute root = true ->
  Path.is_absolute p = false ->
  p <> "" ->
  Path.resolve cwd root p
  = "/" ++ Str.join "/"
             (rev (fold_left (Path.push_segment false) (Str.split "/" p)
                             (fold_left (Path.push_segment false)
                                        (Str.split "/" root) []))).
Proof.
  intros Hroot Hp Hne. unfold Path.resolve.
  destruct p as [|c p]; [contradiction|].
  destruct root as [|d root]; [discriminate|].
  cbn [Path.resolve_loop]. rewrite Hp, Hroot.
  cbn [negb]. unfold Path.normalizeString, Path.normalize_segments.
  change (String d root ++ "/" ++ String c p ++ "/" ++ "")
    with (String d root ++ String "/" (String c p ++ String "/" "")).
  rewrite !split_app_at_sep, !fold_left_app.
  reflexivity.
Qed.

Lemma root_segments (rs : list string) :
  Forall (fun n => valid_name n = true) rs ->
  fold_left (Path.push_segment false) (Str.split "/" ("/" ++ Str.join "/" rs)) []
  = rev rs.
Proof.
  intros H. cbn [append Str.split Ascii.eqb Bool.eqb fold_left].
  rewrite push_segment_empty.
  pose proof (normalize_segments_valid false rs H) as E.
  unfold Path.normalize_segments in E.
  rewrite <- E at 2. now rewrite rev_involutive.
Qed.

Lemma path_fold (ps stack : list string) :
  ps <> [] ->
  Forall (fun n => valid_name n = true) ps ->
  fold_left (Path.push_segment false) (Str.split "/" (Str.join "/" ps)) stack
  = (rev ps ++ stack)%list.
Proof.
  intros Hne H.
  rewrite split_join; [| exact Hne | now apply valid_names_no_slash].
  now apply fold_push_valid.
Qed.

Lemma valid_join_relative (ps : list string) :
  ps <> [] ->
  Forall (fun n => valid_name n = true) ps ->
  Path.is_absolute (Str.join "/" ps) = false /\ Str.join "/" ps <> "".
Proof.
  intros Hne H. destruct ps as [|n ps]; [contradiction|].
  destruct (join_valid_shape n ps H) as (c & s & -> & Hc & _).
  split; [exact Hc | discriminate].
Qed.

(** A path of plain names resolves to the directory of that name under
    the root. *)
Lemma resolve_plain (cwd : string) (rs ps : list string) :
  Forall (fun n => valid_name n = true) rs ->
  ps <> [] ->
  Forall (fun n => valid_name n = true) ps ->
  Path.resolve cwd ("/" ++ Str.join "/" rs) (Str.join "/" ps)
  = "/" ++ Str.join "/" (rs ++ ps).
Proof.
  intros Hrs Hne Hps.
  destruct (valid_join_relative ps Hne Hps) as [Hrel Hnonempty].
  rewrite resolve_under_root by (reflexivity || assumption).
  rewrite (root_segments rs Hrs), (path_fold ps _ Hne Hps).
  now rewrite rev_app_distr, !rev_involutive.
Qed.

Lemma resolve_dot (cwd : string) (rs : list string) :
  Forall (fun n => valid_name n = true) rs ->
  Path.resolve cwd ("/" ++ Str.join "/" rs) "." = "/" ++ Str.join "/" rs.
Proof.
  intros Hrs.
  rewrite resolve_under_root by (reflexivity || discriminate).
  rewrite (root_segments rs Hrs). cbn. now rewrite rev_involutive.
Qed.

Lemma prefix_refl (a : string) : String.prefix a a = true.
Proof.
  rewrite <- (append_empty_r a) at 2. apply prefix_append.
Qed.

Lemma root_prefix_of_join (rs ps : list string) :
  String.prefix ("/" ++ Str.join "/" rs) ("/" ++ Str.join "/" (rs ++ ps))
  = true.
Proof.
  destruct ps as [|p ps]; [rewrite app_nil_r; apply prefix_refl|].
  destruct rs as [|r rs].
  - exact (prefix_append "/" (Str.join "/" (p :: ps))).
  - rewrite join_app by discriminate. rewrite <- append_assoc.
    apply prefix_append.
Qed.

Lemma path_segments_root_join (rs : list string) :
  Forall (fun n => valid_name n = true) rs ->
  path_segments ("/" ++ Str.join "/" rs) = rs.
Proof.
  intros H. unfold path_segments.
  cbn [append Str.split Ascii.eqb Bool.eqb filter Str.truthy].
  apply (path_segments_join rs H).
Qed.

Lemma resolve_names (cwd root p : string) (rs ps : list string) :
  normal_root root rs ->
  names_path p ps ->
  Path.resolve cwd root p = "/" ++ Str.join "/" (rs ++ ps).
Proof.
  intros [Hrs ->] [Hps [[-> ->]|[Hne ->]]].
  - rewrite app_nil_r. now apply resolve_dot.
  - now apply resolve_plain.
Qed.

Lemma names_path_start (p : string) (ps : list string) :
  names_path p ps ->
  (if String.eqb p "." then "" else p) = Str.join "/" ps.
Proof.
  intros [Hps [[-> ->]|[Hne ->]]]; [reflexivity|].
  now rewrite valid_join_not_dot.
Qed.

Lemma guard_passes (cwd root p : string) (rs ps : list string) :
  normal_root root rs ->
  names_path p ps ->
  Str.startsWith (Path.resolve cwd root p) root = true.
Proof.
  intros Hroot Hp. rewrite (resolve_names cwd root p rs ps Hroot Hp).
  destruct Hroot as [_ ->]. apply root_prefix_of_join.
Qed.

Lemma stat_names (cwd root p : string) (rs ps : list string) (fs : node) :
  normal_root root rs ->
  names_path p ps ->
  stat fs (Path.resolve cwd root p) = lookup fs (rs ++ ps).
Proof.
  intros Hroot Hp. rewrite (resolve_names cwd root p rs ps Hroot Hp).
  unfold stat. rewrite path_segments_root_join; [reflexivity|].
  apply Forall_app. split; [apply Hroot | apply Hp].
Qed.

(** [list_files] on a root and a path in normal form, by what the tree
    holds under the names of the path. *)
Lemma list_files_entries_plain (cwd top : string) (rs ps : list string)
      (fs : node) (params : list_files_params) :
  normal_root top rs ->
  names_path (or_default (lf_path params) ".") ps ->
  list_files_entries cwd (Some top) fs params
  = match lookup fs (rs ++ ps) with
    | StatError code =>
        if String.eqb code "ENOENT"
        then inl (ToolInputError
                    ("Directory not found: " ++ or_default (lf_path params) "."))
        else inl (ErrnoException code)
    | Stat stats =>
        if negb (is_directory stats)
        then inl (ToolInputError
                    (or_default (lf_path params) "." ++ " is not a directory."))
        else inr (sort (walk (strict_neq_false (lf_recursive params))
                             (or_default (lf_ignore params) default_ignore)
                             stats (Str.join "/" ps)))
    end.
Proof.
  intros Hroot Hp. unfold list_files_entries, root. cbn [or_default].
  rewrite (guard_passes cwd top _ rs ps Hroot Hp). cbn [negb].
  rewrite (stat_names cwd top _ rs ps fs Hroot Hp).
  now rewrite (names_path_start _ ps Hp).
Qed.

(** ** Paths that leave the root upwards *)

Lemma length_append (a b : string) :
  String.length (a ++ b) = String.length a + String.length b.
Proof. induction a as [|c a IH]; cbn; [reflexivity | now rewrite IH]. Qed.

Lemma prefix_length (a b : string) :
  String.prefix a b = true -> String.length a <= String.length b.
Proof.
  revert a. induction b as [|d b IH]; intros [|c a] H; cbn in *;
    try lia; try discriminate.
  destruct (ascii_dec c d); [|discriminate].
  apply IH in H. lia.
Qed.

Lemma valid_name_length (n : string) :
  valid_name n = true -> 1 <= String.length n.
Proof.
  intros H. apply valid_name_spec in H. destruct H as (Ht & _).
  destruct n; [discriminate | cbn; lia].
Qed.

Lemma join_longer (keep extra : list string) :
  extra <> [] ->
  Forall (fun n => valid_name n = true) extra ->
  String.length (Str.join "/" keep)
  < String.length (Str.join "/" (keep ++ extra)).
Proof.
  intros Hne Hv. destruct keep as [|k keep].
  - cbn [app]. destruct extra as [|e extra]; [contradiction|].
    inversion Hv as [|? ? He _]; subst. apply valid_name_length in He.
    destruct extra.
    + cbn. lia.
    + rewrite join_cons2, length_append. cbn [Str.join String.concat String.length].
      lia.
  - rewrite join_app by (discriminate || assumption).
    rewrite !length_append. cbn [String.length]. lia.
Qed.

Lemma climb_fold (segments : list string) :
  Forall (fun s => s = ".." \/ s = "." \/ s = "") segments ->
  forall stack,
    Forall (fun n => valid_name n = true) stack ->
    exists dropped,
      stack = (dropped ++ fold_left (Path.push_segment false) segments stack)%list
      /\ (In ".." segments -> stack <> [] -> dropped <> []).
Proof.
  induction 1 as [|s segments Hs _ IH]; intros stack Hv.
  - exists []. split; [reflexivity | intros []].
  - cbn [fold_left]. destruct Hs as [-> | [-> | ->]].
    + destruct stack as [|top rest].
      * cbn. destruct (IH [] Hv) as (d & E & _).
        exists d. split; [exact E | intros _ H; now contradiction H].
      * inversion Hv as [|? ? Htop Hrest]; subst.
        assert (E : Path.push_segment false (top :: rest) ".." = rest).
        { unfold Path.push_segment. cbn [String.eqb Ascii.eqb Bool.eqb orb].
          apply valid_name_spec in Htop. destruct Htop as (_ & _ & _ & Hdd).
          now rewrite Hdd. }
        rewrite E. destruct (IH rest Hrest) as (d & Ed & _).
        exists (top :: d). split; [cbn; now rewrite <- Ed | discriminate].
    + change (Path.push_segment false stack ".") with stack.
      destruct (IH stack Hv) as (d & E & Hd).
      exists d. split; [exact E|].
      intros [Habs|Hin]; [discriminate | now apply Hd].
    + change (Path.push_segment false stack "") with stack.
      destruct (IH stack Hv) as (d & E & Hd).
      exists d. split; [exact E|].
      intros [Habs|Hin]; [discriminate | now apply Hd].
Qed.

Lemma climbs_not_empty (p : string) : climbs p -> p <> "".
Proof.
  intros (_ & _ & Hin) ->. cbn in Hin. destruct Hin as [H|[]]. discriminate.
Qed.

(** A path that only climbs resolves to a proper ancestor of the root,
    of which the root is no prefix. *)
Lemma climbing_leaves_root (cwd top p : string) (rs : list string) :
  normal_root top rs ->
  rs <> [] ->
  climbs p ->
  Str.startsWith (Path.resolve cwd top p) top = false.
Proof.
  intros [Hrs ->] Hne Hc. pose proof (climbs_not_empty p Hc) as Hp.
  destruct Hc as (Hrel & Hsegs & Hin).
  rewrite resolve_under_root by (reflexivity || assumption).
  rewrite (root_segments rs Hrs).
  assert (Hv : Forall (fun n => valid_name n = true) (rev rs))
    by (now apply Forall_rev).
  destruct (climb_fold _ Hsegs (rev rs) Hv) as (dropped & E & Hd).
  assert (Hdropped : dropped <> []).
  { apply Hd; [exact Hin|]. intros H. apply Hne.
    rewrite <- (rev_involutive rs), H. reflexivity. }
  set (stack := fold_left (Path.push_segment false) (Str.split "/" p) (rev rs))
    in *.
  assert (Ers : rs = (rev stack ++ rev dropped)%list).
  { rewrite <- rev_app_distr, <- E. now rewrite rev_involutive. }
  unfold Str.startsWith.
  destruct (String.prefix _ _) eqn:Hpre; [|reflexivity].
  apply prefix_length in Hpre. exfalso.
  assert (Hlt : String.length (Str.join "/" (rev stack))
                < String.length (Str.join "/" rs)).
  { rewrite Ers at 1. apply join_longer.
    - intros H. apply Hdropped. rewrite <- (rev_involutive dropped), H.
      reflexivity.
    - apply Forall_rev. rewrite E in Hv. now apply Forall_app in Hv. }
  cbn [append String.length] in Hpre. lia.
Qed.

(** ** A root with a slash at its end *)

Lemma trailing_slash_root_dot (cwd : string) (rs : list string) :
  rs <> [] ->
  Forall (fun n => valid_name n = true) rs ->
  Str.startsWith (Path.resolve cwd ("/" ++ Str.join "/" rs ++ "/") ".")
                 ("/" ++ Str.join "/" rs ++ "/") = false.
Proof.
  intros Hne Hrs.
  rewrite resolve_under_root by (reflexivity || discriminate).
  assert (E : fold_left (Path.push_segment false)
                (Str.split "/" ("/" ++ Str.join "/" rs ++ "/")) []
              = rev rs).
  { cbn [append Str.split Ascii.eqb Bool.eqb fold_left].
    rewrite push_segment_empty.
    change (Str.join "/" rs ++ "/") with (Str.join "/" rs ++ String "/" "").
    rewrite split_app_at_sep, fold_left_app.
    rewrite path_fold by assumption. now rewrite app_nil_r. }
  rewrite E. cbn [Str.split fold_left Path.push_segment String.eqb Ascii.eqb
                  Bool.eqb orb].
  rewrite rev_involutive. unfold Str.startsWith.
  destruct (String.prefix _ _) eqn:Hpre; [|reflexivity].
  apply prefix_length in Hpre. exfalso.
  cbn [append String.length] in Hpre. rewrite length_append in Hpre.
  cbn [String.length] in Hpre. lia.
Qed.

(** ** Looking up what a walk has found *)

Lemma lookup_app (a b : list string) :
  forall fs,
    lookup fs (a ++ b)
    = match lookup fs a with
      | Stat n => lookup n b
      | StatError code => StatError code
      end.
Proof.
  induction a as [|s a IH]; intros fs; [reflexivity|].
  cbn [app lookup]. destruct fs as [|entries]; [reflexivity|].
  destruct (find_entry s entries); [apply IH | reflexivity].
Qed.

Lemma find_entry_unique (name : string) (child : node)
      (entries : list (string * node)) :
  NoDup (map fst entries) ->
  In (name, child) entries ->
  find_entry name entries = Some child.
Proof.
  induction entries as [|[n c] rest IH]; intros Hnd Hin; [destruct Hin|].
  cbn [map fst] in Hnd. inversion Hnd as [|? ? Hnot Hnd']; subst.
  rewrite find_entry_cons. destruct Hin as [E|Hin].
  - injection E as -> ->. now rewrite String.eqb_refl.
  - destruct (String.eqb n name) eqn:En.
    + apply String.eqb_eq in En. subst n. exfalso. apply Hnot.
      apply (in_map fst) in Hin. exact Hin.
    + now apply IH.
Qed.

Lemma descends_lookup (names : list string) :
  forall dir target,
    unique_names dir ->
    descends dir names target ->
    lookup dir names = Stat target.
Proof.
  induction names as [|n names IH]; intros dir target Hu Hd.
  - cbn in Hd. now subst.
  - destruct dir as [|entries]; [destruct Hd|].
    destruct Hd as (child & Hin & Hd). cbn [lookup].
    rewrite (find_entry_unique n child entries (proj1 Hu) Hin).
    apply IH; [|exact Hd]. eapply unique_names_child; eauto.
Qed.

Lemma descends_unique (names : list string) :
  forall dir target,
    unique_names dir -> descends dir names target -> unique_names target.
Proof.
  induction names as [|n names IH]; intros dir target Hu Hd.
  - cbn in Hd. now subst.
  - destruct dir as [|entries]; [destruct Hd|].
    destruct Hd as (child & Hin & Hd).
    apply (IH child); [|exact Hd]. eapply unique_names_child; eauto.
Qed.

Lemma resolve_plain_slash (cwd : string) (rs ps : list string) :
  Forall (fun n => valid_name n = true) rs ->
  ps <> [] ->
  Forall (fun n => valid_name n = true) ps ->
  Path.resolve cwd ("/" ++ Str.join "/" rs) (Str.join "/" ps ++ "/")
  = "/" ++ Str.join "/" (rs ++ ps).
Proof.
  intros Hrs Hne Hps.
  destruct (valid_join_relative ps Hne Hps) as [Hrel Hnonempty].
  rewrite resolve_under_root.
  - rewrite (root_segments rs Hrs).
    change (Str.join "/" ps ++ "/") with (Str.join "/" ps ++ String "/" "").
    rewrite split_app_at_sep, fold_left_app, (path_fold ps _ Hne Hps).
    cbn [Str.split fold_left]. rewrite push_segment_empty.
    now rewrite rev_app_distr, !rev_involutive.
  - reflexivity.
  - destruct (Str.join "/" ps); [contradiction | exact Hrel].
  - now apply append_not_empty_r.
Qed.

Lemma path_segments_app_sep (a b : string) :
  path_segments (a ++ String "/" b)
  = (path_segments a ++ path_segments b)%list.
Proof.
  unfold path_segments. now rewrite split_app_at_sep, filter_app.
Qed.

(** ** [path.join] of entry names onto any path *)

Lemma good_stack_nil (b : bool) : good_stack b [].
Proof. exists [], 0. split; [reflexivity|]. split; [constructor | now left]. Qed.

Lemma valid_name_intro (seg : string) :
  Str.includes seg "/" = false ->
  String.eqb seg "" = false ->
  String.eqb seg "." = false ->
  String.eqb seg ".." = false ->
  valid_name seg = true.
Proof.
  intros Hs He Hd Hdd. unfold valid_name. rewrite Hs, Hd, Hdd.
  destruct seg; [discriminate He | reflexivity].
Qed.

Lemma push_segment_good (b : bool) (stack : list string) (seg : string) :
  Str.includes seg "/" = false ->
  good_stack b stack ->
  good_stack b (Path.push_segment b stack seg).
Proof.
  intros Hs (regular & k & -> & Hreg & Hk). unfold Path.push_segment.
  destruct (String.eqb seg "") eqn:He; [now exists regular, k|].
  destruct (String.eqb seg ".") eqn:Hd; [now exists regular, k|].
  cbn [orb].
  destruct (String.eqb seg "..") eqn:Hdd.
  - destruct regular as [|r regular].
    + cbn [app]. destruct k as [|k].
      * cbn [repeat]. destruct b.
        -- exists [], 1. split; [reflexivity|]. split; [constructor | now right].
        -- apply good_stack_nil.
      * cbn [repeat]. cbn [String.eqb Ascii.eqb Bool.eqb andb].
        destruct Hk as [Hk | ->]; [discriminate|].
        exists [], (S (S k)). split; [reflexivity|].
        split; [constructor | now right].
    + inversion Hreg as [|? ? Hr Hreg']; subst. cbn [app].
      apply valid_name_spec in Hr. destruct Hr as (_ & _ & _ & ->).
      now exists regular, k.
  - exists (seg :: regular), k. split; [reflexivity|]. split; [|exact Hk].
    constructor; [now apply valid_name_intro | exact Hreg].
Qed.

Lemma split_no_slash (c : ascii) (s : string) :
  Forall (fun x => Str.includes x c = false) (Str.split c s).
Proof.
  induction s as [|d s IH]; [repeat constructor|].
  cbn [Str.split]. destruct (Ascii.eqb d c) eqn:E.
  - constructor; [reflexivity | exact IH].
  - destruct (Str.split c s) as [|w ws].
    + constructor; [cbn; now rewrite E | constructor].
    + inversion IH as [|? ? Hw Hws]; subst.
      constructor; [cbn; now rewrite E, Hw | exact Hws].
Qed.

Lemma fold_push_good (b : bool) (segs : list string) :
  forall stack,
    Forall (fun x => Str.includes x "/" = false) segs ->
    good_stack b stack ->
    good_stack b (fold_left (Path.push_segment b) segs stack).
Proof.
  induction segs as [|seg segs IH]; intros stack Hs Hg; [exact Hg|].
  inversion Hs; subst. cbn [fold_left].
  apply IH; [assumption | now apply push_segment_good].
Qed.

Lemma fold_push_dots (k : nat) :
  fold_left (Path.push_segment true) (repeat ".." k) [] = repeat ".." k.
Proof.
  assert (H : forall j,
             fold_left (Path.push_segment true) (repeat ".." k)
                       (repeat ".." j)
             = repeat ".." (k + j)).
  { induction k as [|k IH]; intros j; [reflexivity|].
    cbn [repeat fold_left].
    replace (Path.push_segment true (repeat ".." j) "..")
      with (repeat ".." (S j)) by (destruct j; reflexivity).
    rewrite IH. f_equal. lia. }
  specialize (H 0). rewrite Nat.add_0_r in H. exact H.
Qed.

Lemma rev_repeat_dots (k : nat) : rev (repeat ".." k) = repeat ".." k.
Proof.
  induction k as [|k IH]; [reflexivity|].
  cbn [repeat rev]. rewrite IH. symmetry. apply repeat_cons.
Qed.

(** Normalizing what is already normal changes nothing. *)
Lemma fold_push_again (b : bool) (stack : list string) :
  good_stack b stack ->
  fold_left (Path.push_segment b) (rev stack) [] = stack.
Proof.
  intros (regular & k & -> & Hreg & Hk).
  rewrite rev_app_distr, rev_repeat_dots, fold_left_app.
  assert (E : fold_left (Path.push_segment b) (repeat ".." k) []
              = repeat ".." k).
  { destruct Hk as [-> | ->]; [reflexivity | apply fold_push_dots]. }
  rewrite E, fold_push_valid by (now apply Forall_rev).
  now rewrite rev_involutive.
Qed.

Lemma good_stack_segments (b : bool) (stack : list string) :
  good_stack b stack ->
  Forall (fun s => Str.truthy s = true /\ Str.includes s "/" = false) stack.
Proof.
  intros (regular & k & -> & Hreg & _). apply Forall_app. split.
  - eapply Forall_impl; [|exact Hreg]. intros n Hn.
    apply valid_name_spec in Hn. tauto.
  - apply Forall_forall. intros x Hx. apply repeat_spec in Hx. subst x.
    split; reflexivity.
Qed.

Lemma normal_segments_good (p : string) :
  good_stack (negb (Path.is_absolute p)) (rev (normal_segments p)).
Proof.
  unfold normal_segments, Path.normalize_segments. rewrite rev_involutive.
  apply fold_push_good; [apply split_no_slash | apply good_stack_nil].
Qed.

Lemma join_last_shape (l : list string) (n : string) :
  Forall (fun s => Str.truthy s = true /\ Str.includes s "/" = false)
         (l ++ [n]) ->
  exists c s, Str.join "/" (l ++ [n]) = String c s
              /\ Ascii.eqb c "/" = false
              /\ Str.endsWith (String c s) "/" = false.
Proof.
  induction l as [|m l IH]; intros H.
  - inversion H as [|? ? [Ht Hs] _]; subst.
    destruct n as [|c s]; [discriminate Ht|].
    exists c, s. split; [reflexivity|]. split.
    + cbn [Str.includes] in Hs. now apply orb_false_iff in Hs.
    + now apply endsWith_no_sep.
  - inversion H as [|? ? [Ht Hs] Hrest]; subst.
    destruct (IH Hrest) as (c' & s' & Hj & _ & He).
    destruct m as [|c s]; [discriminate Ht|].
    change ((String c s :: l) ++ [n])%list
      with (String c s :: (l ++ [n]))%list.
    destruct (l ++ [n])%list as [|x rest] eqn:El;
      [destruct l; discriminate El|].
    rewrite join_cons2, Hj. cbn [append].
    eexists c, _. split; [reflexivity|]. split.
    + cbn [Str.includes] in Hs. now apply orb_false_iff in Hs.
    + change (String c (s ++ String "/" (String c' s')))
        with (String c s ++ (String "/" (String c' s'))).
      rewrite endsWith_append by discriminate. exact He.
Qed.

Lemma segments_with_name (rel n : string) :
  valid_name n = true ->
  Forall (fun s => Str.truthy s = true /\ Str.includes s "/" = false)
         (normal_segments rel ++ [n]).
Proof.
  intros Hn. apply Forall_app. split.
  - rewrite <- (rev_involutive (normal_segments rel)). apply Forall_rev.
    exact (good_stack_segments _ _ (normal_segments_good rel)).
  - apply valid_name_spec in Hn. repeat constructor; tauto.
Qed.

Lemma split_name (n : string) :
  valid_name n = true -> Str.split "/" n = [n].
Proof.
  intros Hn. apply split_no_sep. now apply valid_name_spec in Hn.
Qed.

(** [path.join(rel, name)] for an entry name: the segments of [rel] in
    normal form, then the name. *)
Lemma join_name (rel n : string) :
  valid_name n = true ->
  Path.join rel n
  = abs_prefix rel ++ Str.join "/" (normal_segments rel ++ [n]).
Proof.
  intros Hn. pose proof (valid_name_spec n Hn) as (Ht & Hs & _).
  destruct (join_last_shape _ _ (segments_with_name rel n Hn))
    as (c & s & Hj & Hc & He).
  destruct n as [|d n']; [discriminate Ht|].
  assert (Hnorm : forall p,
             p <> "" ->
             Path.normalize_segments (negb (Path.is_absolute p))
                                     (p ++ "/" ++ String d n')
             = (normal_segments p ++ [String d n'])%list).
  { intros p _. unfold normal_segments, Path.normalize_segments.
    cbn [append]. rewrite split_app_at_sep, (split_name _ Hn), fold_left_app.
    cbn [fold_left]. rewrite push_segment_valid by exact Hn. reflexivity. }
  destruct rel as [|r rel'].
  - change (Path.join "" (String d n')) with (Path.normalize (String d n')).
    assert (E : Path.normalize (Str.join "/" [String d n'])
                = Str.join "/" [String d n'])
      by (apply normalize_valid; [discriminate | now repeat constructor]).
    exact E.
  - set (rel := String r rel') in *.
    change (Path.join rel (String d n'))
      with (Path.normalize (rel ++ "/" ++ String d n')).
    unfold Path.normalize.
    assert (Hp : rel ++ "/" ++ String d n'
                 = String r (rel' ++ "/" ++ String d n')) by reflexivity.
    rewrite Hp at 1. cbv zeta.
    assert (Habs : Path.is_absolute (rel ++ "/" ++ String d n')
                   = Path.is_absolute rel) by reflexivity.
    rewrite Habs. unfold Path.normalizeString.
    rewrite Hnorm by discriminate.
    rewrite Hj.
    assert (Hend : Str.endsWith (rel ++ "/" ++ String d n') "/" = false).
    { change (rel ++ "/" ++ String d n')
        with (rel ++ (String "/" (String d n'))).
      rewrite endsWith_append by discriminate.
      change (String "/" (String d n')) with ("/" ++ String d n').
      rewrite endsWith_append by discriminate.
      now apply endsWith_no_sep. }
    rewrite Hend. unfold abs_prefix.
    destruct (Path.is_absolute rel); reflexivity.
Qed.

Lemma is_absolute_join (rel n : string) :
  valid_name n = true ->
  Path.is_absolute (Path.join rel n) = Path.is_absolute rel.
Proof.
  intros Hn. rewrite (join_name rel n Hn).
  destruct (join_last_shape _ _ (segments_with_name rel n Hn))
    as (c & s & -> & Hc & _).
  unfold abs_prefix. destruct (Path.is_absolute rel); [reflexivity|].
  exact Hc.
Qed.

Lemma split_prefixed_join (rel : string) (l : list string) :
  l <> [] ->
  Forall (fun s => Str.truthy s = true /\ Str.includes s "/" = false) l ->
  Str.split "/" (abs_prefix rel ++ Str.join "/" l)
  = ((if Path.is_absolute rel then [""] else []) ++ l)%list.
Proof.
  intros Hne Hl.
  assert (E : Str.split "/" (Str.join "/" l) = l).
  { apply split_join; [exact Hne|].
    eapply Forall_impl; [|exact Hl]. intros x Hx. apply Hx. }
  unfold abs_prefix. destruct (Path.is_absolute rel); [|exact E].
  cbn [append Str.split]. cbn [Ascii.eqb Bool.eqb andb]. now rewrite E.
Qed.

Lemma normal_segments_join (rel n : string) :
  valid_name n = true ->
  normal_segments (Path.join rel n) = (normal_segments rel ++ [n])%list.
Proof.
  intros Hn. unfold normal_segments at 1.
  rewrite (is_absolute_join rel n Hn), (join_name rel n Hn).
  unfold Path.normalize_segments at 1.
  rewrite split_prefixed_join;
    [| destruct (normal_segments rel); discriminate
     | now apply segments_with_name].
  assert (Hg : good_stack (negb (Path.is_absolute rel))
                          (n :: rev (normal_segments rel))).
  { rewrite <- (push_segment_valid (negb (Path.is_absolute rel)) _ n Hn).
    apply push_segment_good; [now apply valid_name_spec in Hn|].
    apply normal_segments_good. }
  assert (E : fold_left (Path.push_segment (negb (Path.is_absolute rel)))
                        (normal_segments rel ++ [n]) []
              = n :: rev (normal_segments rel)).
  { rewrite <- (fold_push_again _ _ Hg). cbn [rev].
    now rewrite rev_involutive. }
  destruct (Path.is_absolute rel); cbn [app fold_left negb] in E |- *.
  - rewrite push_segment_empty, E. cbn [rev]. now rewrite rev_involutive.
  - rewrite E. cbn [rev]. now rewrite rev_involutive.
Qed.

Lemma filter_truthy_segments (l : list string) :
  Forall (fun s => Str.truthy s = true /\ Str.includes s "/" = false) l ->
  filter Str.truthy l = l.
Proof.
  induction 1 as [|x l [Hx _] _ IH]; [reflexivity|].
  cbn [filter]. now rewrite Hx, IH.
Qed.

Lemma path_segments_join_name (rel n : string) :
  valid_name n = true ->
  path_segments (Path.join rel n) = (normal_segments rel ++ [n])%list.
Proof.
  intros Hn. rewrite (join_name rel n Hn). unfold path_segments.
  rewrite split_prefixed_join;
    [| destruct (normal_segments rel); discriminate
     | now apply segments_with_name].
  rewrite filter_app, (filter_truthy_segments _ (segments_with_name rel n Hn)).
  destruct (Path.is_absolute rel); reflexivity.
Qed.

(** The segments of the path of an entry: the segments of the start
    path in normal form, then the names gone through. *)
Lemma entry_path_segments (names : list string) :
  forall rel,
    names <> [] ->
    Forall (fun n => valid_name n = true) names ->
    path_segments (entry_path rel names) = (normal_segments rel ++ names)%list
    /\ path_segments (entry_path rel names ++ "/")
       = (normal_segments rel ++ names)%list.
Proof.
  induction names as [|n names IH]; intros rel Hne Hall; [contradiction|].
  inversion Hall as [|? ? Hn Hrest]; subst.
  assert (Hslash : forall p, path_segments (p ++ "/") = path_segments p).
  { intros p. rewrite (path_segments_app_sep p ""). apply app_nil_r. }
  unfold entry_path. cbn [fold_left]. fold (entry_path (Path.join rel n) names).
  destruct names as [|m names].
  - cbn [entry_path fold_left]. unfold entry_path. cbn [fold_left].
    rewrite Hslash, (path_segments_join_name rel n Hn). now split.
  - destruct (IH (Path.join rel n)) as [E1 E2]; [discriminate | exact Hrest|].
    rewrite E1, E2, (normal_segments_join rel n Hn), <- app_assoc.
    now split.
Qed.

Example normal_segments_examples :
  normal_segments "" = []
  /\ normal_segments "src" = ["src"]
  /\ normal_segments "./src" = ["src"]
  /\ normal_segments "src/../lib/" = ["lib"]
  /\ normal_segments "../a" = [".."; "a"]
  /\ normal_segments "/ws/src" = ["ws"; "src"].
Proof. repeat split; reflexivity. Qed.

(** * The walk, seen from the workspace root *)

(** ** Ignored names *)

(** C4, as stated, fails: listing the directory [node_modules] itself
    with the ignore pattern [node_modules] returns [node_modules/foo.js],
    a path with a segment named like the pattern.  The walk tests the
    entries it meets, not the segments of the path it starts from. *)
Lemma C4_counterexample :
  exists files f,
    In "node_modules" ["node_modules"]
    /\ Str.includes "node_modules" "/" = false
    /\ list_files_entries "/" (Some "/ws") test_fs
         (list_params (Some "node_modules") (Some ["node_modules"]))
       = inr files
    /\ In f files
    /\ In "node_modules" (path_segments f).
Proof.
  exists ["node_modules/foo.js"], "node_modules/foo.js".
  repeat split; vm_compute; auto.
Qed.

(** C4, amended.  For every tree and every slash-free ignore pattern [X],
    no path returned by [list_files] has a segment named [X] below the
    directory the listing starts from.  Each returned path is the path of
    an entry of the tree: the entry reached from the directory listed
    through the entries [names], one inside the other, each of them a
    plain name that [X] does not match, so that none is named [X] (an
    entry whose name matches is skipped, and not descended into).  The
    segments of the returned path are the segments of the path argument,
    reduced to normal form as [path.join] does, followed by [names]; for
    a path argument made of plain names these are the names of the path
    argument.  The segments of the path argument itself are not tested.
    When the listing starts at the workspace root (path ["."]) no
    returned path has a segment named [X] at any depth. *)
Theorem C4_ignored_name_pruned_below_start
        (process_cwd : string) (options_cwd : option string) (fs : node)
        (params : list_files_params) (X : string) (files : list string)
        (f : string) :
  valid_names fs ->
  In X (or_default (lf_ignore params) default_ignore) ->
  Str.includes X "/" = false ->
  list_files_entries process_cwd options_cwd fs params = inr files ->
  In f files ->
  let path := or_default (lf_path params) "." in
  let start := if String.eqb path "." then "" else path in
  exists stats names target,
    stat fs (Path.resolve process_cwd (root process_cwd options_cwd) path)
    = Stat stats
    /\ names <> []
    /\ descends stats names target
    /\ Forall (fun name => valid_name name = true) names
    /\ ~ In X names
    /\ Forall (fun name => Regex.test (compiled X) name = false) names
    /\ (f = entry_path start names
        \/ f = (entry_path start names ++ "/")%string)
    /\ path_segments f = (normal_segments start ++ names)%list
    /\ (forall ps, names_path path ps -> normal_segments start = ps)
    /\ (path = "." -> ~ In X (path_segments f)).
Proof.
  intros Hv HX Hs Hentries Hf path start.
  destruct (list_files_entries_inr _ _ _ _ _ Hentries)
    as (stats & Hstat & Hdir & ->).
  apply (proj1 (in_sort _ _)) in Hf. fold path in Hstat, Hf. fold start in Hf.
  destruct (walk_sound _ _ _ _ _ Hf)
    as (names & target & Hne & Hdesc & Hkept & Hshape).
  pose proof (kept_excludes_name _ X HX Hs _ _ Hkept) as Hnot.
  assert (Hvs : valid_names stats) by (eapply lookup_valid; eauto).
  destruct (descends_valid _ _ _ Hvs Hdesc) as [Hnames _].
  destruct (entry_path_segments names start Hne Hnames) as [E1 E2].
  assert (Hsegs : path_segments f = (normal_segments start ++ names)%list)
    by (destruct Hshape as [[-> _]|(-> & _)]; assumption).
  exists stats, names, target.
  split; [exact Hstat|]. split; [exact Hne|]. split; [exact Hdesc|].
  split; [exact Hnames|]. split; [exact Hnot|].
  split; [exact (kept_no_match _ X HX Hs _ _ Hkept)|].
  split; [destruct Hshape as [[-> _]|(-> & _)]; auto|].
  split; [exact Hsegs|]. split.
  - intros ps Hp. unfold start. rewrite (names_path_start _ ps Hp).
    apply normalize_segments_valid. apply Hp.
  - intros Hdot. rewrite Hsegs. unfold start. rewrite Hdot. exact Hnot.
Qed.

Lemma C4_ignored_name_pruned_below_start_witness :
  valid_names test_fs
  /\ In "node_modules" ["node_modules"; "dist"]
  /\ Str.includes "node_modules" "/" = false
  /\ list_files_entries "/" (Some "/ws") test_fs
       (list_params None (Some ["node_modules"; "dist"]))
     = inr ["README.md"; "src/index.ts"; "src/nested_modules/nested.js";
            "src/utils.ts"; "test/index.test.ts"]
  /\ In "src/nested_modules/nested.js"
        ["README.md"; "src/index.ts"; "src/nested_modules/nested.js";
         "src/utils.ts"; "test/index.test.ts"]
  /\ ~ In "node_modules" (path_segments "src/nested_modules/nested.js").
Proof.
  assert (H0 : valid_names test_fs) by (cbn; repeat split; reflexivity).
  assert (H1 : In "node_modules" ["node_modules"; "dist"]) by (now left).
  assert (H2 : Str.includes "node_modules" "/" = false) by reflexivity.
  assert (H3 : list_files_entries "/" (Some "/ws") test_fs
                 (list_params None (Some ["node_modules"; "dist"]))
               = inr ["README.md"; "src/index.ts";
                      "src/nested_modules/nested.js";
                      "src/utils.ts"; "test/index.test.ts"])
    by (vm_compute; reflexivity).
  assert (H4 : In "src/nested_modules/nested.js"
                  ["README.md"; "src/index.ts"; "src/nested_modules/nested.js";
                   "src/utils.ts"; "test/index.test.ts"])
    by (cbn; tauto).
  repeat (split; [assumption|]).
  destruct (C4_ignored_name_pruned_below_start
              "/" (Some "/ws") test_fs
              (list_params None (Some ["node_modules"; "dist"]))
              "node_modules" _ _ H0 H1 H2 H3 H4)
    as (stats & names & target & _ & _ & _ & _ & _ & _ & _ & _ & _ & Hdot).
  apply Hdot. reflexivity.
Defined.

(** ** The path argument of [search] *)

Lemma in_include_args (x : string) (include : list string) :
  In x (include_args include) -> x = "--include" \/ In x include.
Proof.
  unfold include_args. induction include as [|i include IH]; cbn; [tauto|].
  intros [<-|[<-|H]]; auto. destruct (IH H); auto.
Qed.

Lemma in_exclude_args (x : string) (exclude : list string) :
  In x (exclude_args exclude) ->
  x = "--exclude" \/ x = "--exclude-dir" \/ In x exclude.
Proof.
  unfold exclude_args. induction exclude as [|e exclude IH]; cbn; [tauto|].
  intros [<-|[<-|[<-|[<-|H]]]]; auto. destruct (IH H) as [|[|]]; auto.
Qed.

(** What the tool itself does with [caseSensitive]: whenever it is not
    the boolean [true] the vector starts with [-rIn], [-i], [-E]; when it
    is [true] the vector starts with [-rIn], [-E], and [-i] occurs in it
    only where a string supplied by the caller is [-i] itself. *)
Lemma case_flag_follows_parameter
      (process_cwd : string) (options_cwd : option string)
      (params : search_params) (request : exec_request) :
  search_prepare process_cwd options_cwd params = Run request ->
  (strict_eq_true (sp_caseSensitive params) = false ->
   (exists rest, exec_args request = "-rIn" :: "-i" :: "-E" :: rest)
   /\ In "-i" (exec_args request))
  /\ (strict_eq_true (sp_caseSensitive params) = true ->
      (exists rest, exec_args request = "-rIn" :: "-E" :: rest)
      /\ (In "-i" (exec_args request) ->
          In "-i" (or_default (sp_include params) [])
          \/ In "-i" (or_default (sp_exclude params) default_ignore)
          \/ sp_pattern params = "-i"
          \/ or_default (sp_path params) "." = "-i")).
Proof.
  intros Hrun. apply search_prepare_run in Hrun. subst request.
  cbn [exec_args]. rewrite grepArgs_shape.
  split; intros ->.
  - split; [eexists; reflexivity | cbn; tauto].
  - split; [eexists; reflexivity|].
    cbn [app]. intros [H|[H|H]]; try discriminate.
    apply in_app_or in H. destruct H as [H|H].
    { apply in_include_args in H. destruct H; [discriminate | auto]. }
    apply in_app_or in H. destruct H as [H|H].
    { apply in_exclude_args in H. destruct H as [|[|]];
        [discriminate | discriminate | auto]. }
    destruct H as [H|[H|[H|[]]]]; [discriminate | auto | auto].
Qed.

(** C7.  The claim says that the argument vector holds no
    case-insensitivity flag when [caseSensitive] is exactly [true].  The
    tool pushes the path as a bare last argument, protected by the guard
    alone (the source: "relativePath is validated to be safe by targetDir
    check"), and the guard lets the path [-i] through, since it resolves
    to [/ws/-i] inside the root: with [caseSensitive] equal to [true] and
    the path [-i], the vector given to [grep] ends with the flag [-i],
    not preceded by [-e], as the pattern is, nor by [--]. *)
Theorem C7_path_argument_adds_flag :
  strict_eq_true (JBool true) = true
  /\ Path.resolve "/" "/ws" "-i" = "/ws/-i"
  /\ search_prepare "/" (Some "/ws")
                    (search_for "hello" (Some "-i") (JBool true))
     = Run {| exec_file := "grep";
              exec_args :=
                ["-rIn"; "-E";
                 "--exclude"; ".git"; "--exclude-dir"; ".git";
                 "--exclude"; "node_modules"; "--exclude-dir"; "node_modules";
                 "--exclude"; "dist"; "--exclude-dir"; "dist";
                 "--exclude"; "coverage"; "--exclude-dir"; "coverage";
                 "-e"; "hello"; "-i"];
              exec_maxBuffer := 1024 * 1024;
              exec_cwd := "/ws" |}
  /\ (forall request,
         search_prepare "/" (Some "/ws")
                        (search_for "hello" (Some "-i") (JBool true))
         = Run request ->
         In "-i" (exec_args request) /\ last (exec_args request) "" = "-i").
Proof.
  split; [reflexivity|]. split; [reflexivity|].
  split; [vm_compute; reflexivity|].
  intros request H. vm_compute in H. injection H as <-.
  split; [cbn; tauto | reflexivity].
Qed.

(** ** Root-relative results *)

Lemma matchesPattern_false_iff (filePath basename : string)
      (patterns : list string) :
  matchesPattern filePath basename patterns = false <->
  forall pattern,
    In pattern patterns ->
    Regex.test (compiled pattern)
               (if has_interior_slash pattern then filePath else basename)
    = false.
Proof.
  unfold matchesPattern, has_interior_slash.
  destruct patterns as [|p ps].
  - split; [intros _ pattern [] | reflexivity].
  - rewrite normalizedPath_id. split.
    + intros H pattern Hin.
      destruct (Regex.test (compiled pattern) _) eqn:Ht; [|reflexivity].
      assert (Hex : existsb (matches_one filePath basename) (p :: ps) = true).
      { apply existsb_exists. exists pattern. split; [exact Hin|].
        now rewrite matches_one_compiled. }
      congruence.
    + intros H.
      destruct (existsb (matches_one filePath basename) (p :: ps)) eqn:Hex;
        [|reflexivity].
      apply existsb_exists in Hex. destruct Hex as (pattern & Hin & Hm).
      rewrite matches_one_compiled, (H pattern Hin) in Hm. discriminate.
Qed.

(** On plain names the condition the walk tests, entry by entry, is the
    one [passes] spells out on root-relative paths. *)
Lemma kept_passes (ignore : list string) (names : list string) :
  forall above,
    Forall (fun n => valid_name n = true) above ->
    Forall (fun n => valid_name n = true) names ->
    kept ignore (Str.join "/" above) names <-> passes ignore above names.
Proof.
  induction names as [|n names IH]; intros above Ha Hn; [reflexivity|].
  inversion Hn as [|? ? Hn1 Hn2]; subst.
  cbn [kept passes]. rewrite (path_join_valid above n Ha Hn1).
  rewrite matchesPattern_false_iff.
  rewrite IH; [reflexivity | | exact Hn2].
  apply Forall_app. split; [exact Ha | now repeat constructor].
Qed.

Lemma join_app_differs (segments names : list string) :
  segments <> [] ->
  Forall (fun n => valid_name n = true) segments ->
  Forall (fun n => valid_name n = true) names ->
  Str.join "/" (segments ++ names) <> Str.join "/" names.
Proof.
  intros Hne Hs Hn E.
  apply (f_equal path_segments) in E.
  rewrite !path_segments_join in E
    by (try apply Forall_app; try split; assumption).
  apply (f_equal (@List.length string)) in E. rewrite length_app in E.
  destruct segments; [contradiction | cbn in E; lia].
Qed.

Lemma literal_path_pattern (filePath basename pattern : string) :
  is_literal pattern = true ->
  has_interior_slash pattern = true ->
  matchesPattern filePath basename [pattern] = String.eqb filePath pattern.
Proof.
  intros Hl Hs. unfold matchesPattern. cbn [existsb].
  rewrite orb_false_r, matches_one_compiled.
  fold (has_interior_slash pattern). rewrite Hs.
  unfold has_interior_slash in Hs. apply andb_true_iff in Hs.
  destruct Hs as [_ He]. apply negb_true_iff in He.
  rewrite normalizedPath_id, test_compiled, He.
  now apply literal_terms_match.
Qed.

(** C10, as stated, fails: [path.join] normalizes what it returns, so
    listing [./src] yields [src/index.ts], which does not begin with
    [./src/]. *)
Lemma C10_counterexample :
  "./src" <> "."
  /\ exists files f,
      list_files_entries "/" (Some "/ws") test_fs
                         (list_params (Some "./src") None)
      = inr files
      /\ In f files
      /\ Str.startsWith f ("./src" ++ "/") = false.
Proof.
  split; [discriminate|].
  exists ["src/index.ts"; "src/nested_modules/nested.js"; "src/utils.ts"],
    "src/index.ts".
  repeat split; vm_compute; auto.
Qed.

(** C10, amended.  For every path argument [p] in normal form (a relative
    path made of the plain names [segments]: no empty, [.] or [..]
    segment, no leading or trailing separator; such a [p] is never
    ["."]), every entry of the listing begins with [p] followed by a
    separator: the walk starts from [p] itself.  The ignore patterns are
    tested on these root-relative paths: the array the answer is built
    from holds an entry exactly when the entry lies below the directory
    listed (a file at any depth in a recursive listing; a file or a
    directory, with a slash after it, of the directory itself
    otherwise) and no pattern matches it or a directory on the way to
    it, a pattern with an interior slash being tested against [p], a
    separator and the names below the directory listed, any other
    pattern against the name of the entry.  So a pattern with an
    interior slash and without wildcard that spells the path of an entry
    from the directory listed does not match that entry. *)
Theorem C10_entries_begin_with_normal_path
        (process_cwd : string) (options_cwd : option string) (fs : node)
        (params : list_files_params) (p : string) (segments : list string)
        (files : list string) :
  lf_path params = Some p ->
  p = Str.join "/" segments ->
  segments <> [] ->
  Forall (fun n => valid_name n = true) segments ->
  valid_names fs ->
  list_files_entries process_cwd options_cwd fs params = inr files ->
  let ignore := or_default (lf_ignore params) default_ignore in
  let recursive := strict_neq_false (lf_recursive params) in
  exists stats,
    stat fs (Path.resolve process_cwd (root process_cwd options_cwd) p)
    = Stat stats
    /\ (forall f, In f files -> Str.startsWith f (p ++ "/") = true)
    /\ (forall f,
           In f files <->
           exists names target,
             names <> []
             /\ descends stats names target
             /\ passes ignore segments names
             /\ ((recursive = true
                  /\ is_directory target = false
                  /\ f = Str.join "/" (segments ++ names))
                 \/ (recursive = false
                     /\ List.length names = 1
                     /\ f = if is_directory target
                            then Str.join "/" (segments ++ names) ++ "/"
                            else Str.join "/" (segments ++ names))))
    /\ (forall names target basename,
           descends stats names target ->
           is_literal (Str.join "/" names) = true ->
           has_interior_slash (Str.join "/" names) = true ->
           matchesPattern (Str.join "/" (segments ++ names)) basename
                          [Str.join "/" names] = false).
Proof.
  intros Hpath -> Hne Hsegs Hv Hentries ignore recursive.
  destruct (list_files_entries_inr _ _ _ _ _ Hentries)
    as (stats & Hstat & Hdir & ->).
  rewrite Hpath in Hstat |- *. cbn [or_default] in Hstat |- *.
  rewrite (valid_join_not_dot _ Hsegs).
  fold ignore. fold recursive.
  assert (Hvs : valid_names stats) by (eapply lookup_valid; eauto).
  assert (Hchar : forall f,
             In f (sort (walk recursive ignore stats (Str.join "/" segments)))
             <-> exists names target,
                 names <> []
                 /\ descends stats names target
                 /\ passes ignore segments names
                 /\ ((recursive = true
                      /\ is_directory target = false
                      /\ f = Str.join "/" (segments ++ names))
                     \/ (recursive = false
                         /\ List.length names = 1
                         /\ f = if is_directory target
                                then Str.join "/" (segments ++ names) ++ "/"
                                else Str.join "/" (segments ++ names)))).
  { intros f. rewrite in_sort. destruct recursive eqn:Hrec.
    - split.
      + intros Hf.
        destruct (walk_sound _ _ _ _ _ Hf)
          as (names & target & Hn & Hd & Hk & [[-> Ht]|(_ & _ & Hfalse)]);
          [|discriminate].
        destruct (descends_valid _ _ _ Hvs Hd) as [Hnames _].
        exists names, target. split; [exact Hn|]. split; [exact Hd|].
        split; [now apply kept_passes|].
        left. split; [reflexivity|]. split; [exact Ht|].
        now apply entry_path_valid.
      + intros (names & target & Hn & Hd & Hp & [(_ & Ht & ->)|(Hfalse & _)]);
          [|discriminate].
        destruct (descends_valid _ _ _ Hvs Hd) as [Hnames _].
        rewrite <- (entry_path_valid segments names Hsegs Hnames).
        eapply walk_complete; eauto. now apply kept_passes.
    - destruct stats as [|entries]; [discriminate|].
      rewrite walk_shallow. split.
      + intros (name & child & Hin & Hm & ->).
        destruct (valid_names_child _ _ _ Hvs Hin) as [Hname _].
        exists [name], child. split; [discriminate|].
        split; [exists child; split; [exact Hin | reflexivity]|].
        split.
        { apply kept_passes; [exact Hsegs | now repeat constructor|].
          split; [exact Hm | exact I]. }
        right. split; [reflexivity|]. split; [reflexivity|].
        now rewrite (path_join_valid segments name Hsegs Hname).
      + intros (names & target & Hn & Hd & Hp & [(Hfalse & _)|(_ & Hlen & ->)]);
          [discriminate|].
        destruct names as [|name [|more names]]; try discriminate Hlen.
        destruct Hd as (child & Hin & Hd). cbn in Hd. subst target.
        destruct (valid_names_child _ _ _ Hvs Hin) as [Hname _].
        exists name, child. split; [exact Hin|].
        rewrite (path_join_valid segments name Hsegs Hname).
        split; [|reflexivity].
        apply (kept_passes ignore [name] segments Hsegs) in Hp;
          [|now repeat constructor].
        destruct Hp as [Hm _].
        now rewrite (path_join_valid segments name Hsegs Hname) in Hm. }
  exists stats. split; [exact Hstat|]. split; [|split; [exact Hchar|]].
  - intros f Hf. apply Hchar in Hf.
    destruct Hf as (names & target & Hn & _ & _ & Hshape).
    assert (E : exists rest, f = (Str.join "/" segments ++ "/") ++ rest).
    { rewrite join_app in Hshape by assumption.
      destruct Hshape as [(_ & _ & ->)|(_ & _ & ->)];
        [|destruct (is_directory target)];
        eexists; rewrite ?append_assoc; reflexivity. }
    destruct E as (rest & ->). unfold Str.startsWith. apply prefix_append.
  - intros names target basename Hd Hl Hs.
    destruct (descends_valid _ _ _ Hvs Hd) as [Hnames _].
    rewrite (literal_path_pattern _ _ _ Hl Hs).
    apply String.eqb_neq. now apply join_app_differs.
Qed.

Lemma C10_entries_begin_with_normal_path_witness :
  lf_path (list_params (Some "src") (Some ["src/utils.ts"])) = Some "src"
  /\ "src" = Str.join "/" ["src"]
  /\ ["src"] <> []
  /\ Forall (fun n => valid_name n = true) ["src"]
  /\ valid_names test_fs
  /\ list_files_entries "/" (Some "/ws") test_fs
       (list_params (Some "src") (Some ["src/utils.ts"]))
     = inr ["src/index.ts"; "src/nested_modules/nested.js"]
  /\ forall f,
      In f ["src/index.ts"; "src/nested_modules/nested.js"] ->
      Str.startsWith f ("src" ++ "/") = true.
Proof.
  assert (H1 : lf_path (list_params (Some "src") (Some ["src/utils.ts"]))
               = Some "src") by reflexivity.
  assert (H2 : "src" = Str.join "/" ["src"]) by reflexivity.
  assert (H3 : ["src"] <> []) by discriminate.
  assert (H4 : Forall (fun n => valid_name n = true) ["src"])
    by (repeat constructor).
  assert (H5 : valid_names test_fs) by (cbn; repeat split; reflexivity).
  assert (H6 : list_files_entries "/" (Some "/ws") test_fs
                 (list_params (Some "src") (Some ["src/utils.ts"]))
               = inr ["src/index.ts"; "src/nested_modules/nested.js"])
    by (vm_compute; reflexivity).
  repeat (split; [assumption|]).
  destruct (C10_entries_begin_with_normal_path
              "/" (Some "/ws") test_fs
              (list_params (Some "src") (Some ["src/utils.ts"]))
              "src" ["src"] _ H1 H2 H3 H4 H5 H6)
    as (stats & _ & Hstart & _).
  exact Hstart.
Defined.

(** A pattern spelled relative to the directory listed does not exclude
    the entry; the same entry spelled from the workspace root does. *)
Example interior_slash_pattern_is_root_relative :
  list_files "/" (Some "/ws") test_fs
             (list_params (Some "src") (Some ["nested_modules/nested.js"]))
  = Content (Str.join nl ["src/index.ts";
                          "src/nested_modules/nested.js";
                          "src/utils.ts"])
  /\ list_files "/" (Some "/ws") test_fs
                (list_params (Some "src")
                             (Some ["src/nested_modules/nested.js"]))
     = Content (Str.join nl ["src/index.ts"; "src/utils.ts"]).
Proof. split; vm_compute; reflexivity. Qed.

(** ** Extra properties *)

(** *** The text of a listing *)

Lemma normalize_not_empty (p : string) : Path.normalize p <> "".
Proof.
  unfold Path.normalize. destruct p as [|c p]; [discriminate|]. cbv zeta.
  destruct (Path.normalizeString (String c p) _) as [|d body].
  - destruct (Path.is_absolute _); [discriminate|].
    destruct (Str.endsWith _ _); discriminate.
  - destruct (Path.is_absolute _), (Str.endsWith _ _); discriminate.
Qed.

Lemma join_not_empty (a b : string) : Path.join a b <> "".
Proof.
  unfold Path.join. destruct a, b; try discriminate;
    apply normalize_not_empty.
Qed.

Lemma walk_not_empty (recursive : bool) (ignore : list string) (dir : node)
      (rel f : string) :
  In f (walk recursive ignore dir rel) -> f <> "".
Proof.
  intros Hf.
  destruct (walk_sound _ _ _ _ _ Hf) as (names & target & Hne & _ & _ & Hshape).
  assert (He : entry_path rel names <> "").
  { destruct (exists_last Hne) as (front & n & ->).
    unfold entry_path. rewrite fold_left_app. cbn [fold_left].
    apply join_not_empty. }
  destruct Hshape as [[-> _]|(-> & _)]; [exact He|].
  apply append_not_empty_r. discriminate.
Qed.

Lemma join_lines_truthy (f : string) (files : list string) :
  f <> "" -> Str.truthy (Str.join nl (f :: files)) = true.
Proof.
  intros Hf. destruct f as [|c f]; [contradiction|].
  destruct files; reflexivity.
Qed.

Lemma list_files_text_whole (files : list string) :
  List.length files <= MAX_FILES ->
  (forall f, In f files -> f <> "") ->
  list_files_text files = whole_text files.
Proof.
  intros Hlen Hne. unfold list_files_text.
  rewrite (proj2 (Nat.ltb_ge _ _) Hlen).
  destruct files as [|f files]; [reflexivity|].
  rewrite join_lines_truthy by (apply Hne; now left). reflexivity.
Qed.

(** What [list_files] answers once the sorted array [files] is built:
    the text made from it, which is the whole array, joined, when it is
    not above the ceiling. *)
Lemma list_files_answer (process_cwd : string) (options_cwd : option string)
      (fs : node) (params : list_files_params) (files : list string) :
  list_files_entries process_cwd options_cwd fs params = inr files ->
  list_files process_cwd options_cwd fs params
  = Content (list_files_text files)
  /\ (List.length files <= MAX_FILES ->
      list_files process_cwd options_cwd fs params
      = Content (whole_text files)).
Proof.
  intros H. unfold list_files. rewrite H. split; [reflexivity|].
  intros Hlen. rewrite list_files_text_whole; [reflexivity | exact Hlen|].
  destruct (list_files_entries_inr _ _ _ _ _ H) as (stats & _ & _ & ->).
  intros f Hf. apply (proj1 (in_sort _ _)) in Hf.
  now apply walk_not_empty in Hf.
Qed.

(** X1.  In a recursive listing, the sorted array from which
    [list_files] builds its answer holds exactly the paths of the files
    (the entries that are not directories) reached from the listed
    directory through entries that the ignore list does not match:
    nothing else is in it, no such file is missing, and directories
    themselves are not listed.  The answer is the text made from that
    array; when the array has at most 1000 entries the text is the whole
    array, joined by newlines (or ["(empty directory)"]), so that no
    such file is left out of the answer. *)
Theorem X1_recursive_listing_exact
        (process_cwd : string) (options_cwd : option string) (fs : node)
        (params : list_files_params) (stats : node) (files : list string) :
  strict_neq_false (lf_recursive params) = true ->
  stat fs (Path.resolve process_cwd (root process_cwd options_cwd)
                        (or_default (lf_path params) ".")) = Stat stats ->
  list_files_entries process_cwd options_cwd fs params = inr files ->
  let start := if String.eqb (or_default (lf_path params) ".") "."
               then "" else or_default (lf_path params) "." in
  (forall f,
      In f files <->
      exists names target,
        names <> []
        /\ descends stats names target
        /\ is_directory target = false
        /\ kept (or_default (lf_ignore params) default_ignore) start names
        /\ f = entry_path start names)
  /\ list_files process_cwd options_cwd fs params
     = Content (list_files_text files)
  /\ (List.length files <= MAX_FILES ->
      list_files process_cwd options_cwd fs params
      = Content (whole_text files)).
Proof.
  intros Hrec Hstat Hentries start.
  split; [|exact (list_files_answer _ _ _ _ _ Hentries)].
  destruct (list_files_entries_inr _ _ _ _ _ Hentries)
    as (stats' & Hstat' & _ & ->).
  rewrite Hstat in Hstat'. injection Hstat' as <-.
  rewrite Hrec. fold start. intros f. rewrite in_sort. split.
  - intros Hf.
    destruct (walk_sound _ _ _ _ _ Hf)
      as (names & target & Hne & Hd & Hk & [[-> Ht]|(_ & _ & Hfalse)]);
      [|discriminate].
    exists names, target. auto.
  - intros (names & target & Hne & Hd & Ht & Hk & ->).
    eapply walk_complete; eauto.
Qed.

Lemma X1_recursive_listing_exact_witness :
  strict_neq_false (lf_recursive (list_params None None)) = true
  /\ stat test_fs (Path.resolve "/" (root "/" (Some "/ws")) ".")
     = Stat test_workspace
  /\ list_files_entries "/" (Some "/ws") test_fs (list_params None None)
     = inr ["README.md"; "src/index.ts"; "src/nested_modules/nested.js";
            "src/utils.ts"; "test/index.test.ts"]
  /\ (In "src/utils.ts"
         ["README.md"; "src/index.ts"; "src/nested_modules/nested.js";
          "src/utils.ts"; "test/index.test.ts"]
      <-> exists names target,
          names <> []
          /\ descends test_workspace names target
          /\ is_directory target = false
          /\ kept default_ignore "" names
          /\ "src/utils.ts" = entry_path "" names).
Proof.
  assert (H1 : strict_neq_false (lf_recursive (list_params None None)) = true)
    by reflexivity.
  assert (H2 : stat test_fs (Path.resolve "/" (root "/" (Some "/ws")) ".")
               = Stat test_workspace) by reflexivity.
  assert (H3 : list_files_entries "/" (Some "/ws") test_fs
                 (list_params None None)
               = inr ["README.md"; "src/index.ts";
                      "src/nested_modules/nested.js";
                      "src/utils.ts"; "test/index.test.ts"])
    by (vm_compute; reflexivity).
  split; [exact H1|]. split; [exact H2|]. split; [exact H3|].
  exact (proj1 (X1_recursive_listing_exact
                  "/" (Some "/ws") test_fs (list_params None None)
                  test_workspace _ H1 H2 H3)
               "src/utils.ts").
Defined.

(** X2.  In a listing with [recursive: false], the sorted array from
    which [list_files] builds its answer holds exactly the entries of
    the listed directory itself that the ignore list does not match, a
    directory with a slash after its path and not descended into.  The
    answer is the text made from that array; when the array has at most
    1000 entries the text is the whole array, joined by newlines (or
    ["(empty directory)"]). *)
Theorem X2_shallow_listing_exact
        (process_cwd : string) (options_cwd : option string) (fs : node)
        (params : list_files_params) (entries : list (string * node))
        (files : list string) :
  lf_recursive params = JBool false ->
  stat fs (Path.resolve process_cwd (root process_cwd options_cwd)
                        (or_default (lf_path params) ".")) = Stat (Dir entries) ->
  list_files_entries process_cwd options_cwd fs params = inr files ->
  let start := if String.eqb (or_default (lf_path params) ".") "."
               then "" else or_default (lf_path params) "." in
  (forall f,
      In f files <->
      exists name child,
        In (name, child) entries
        /\ matchesPattern (Path.join start name) name
                          (or_default (lf_ignore params) default_ignore) = false
        /\ f = if is_directory child then (Path.join start name ++ "/")%string
               else Path.join start name)
  /\ list_files process_cwd options_cwd fs params
     = Content (list_files_text files)
  /\ (List.length files <= MAX_FILES ->
      list_files process_cwd options_cwd fs params
      = Content (whole_text files)).
Proof.
  intros Hrec Hstat Hentries start.
  split; [|exact (list_files_answer _ _ _ _ _ Hentries)].
  destruct (list_files_entries_inr _ _ _ _ _ Hentries)
    as (stats' & Hstat' & _ & ->).
  rewrite Hstat in Hstat'. injection Hstat' as <-.
  rewrite Hrec. cbn [strict_neq_false]. fold start.
  intros f. rewrite in_sort. apply walk_shallow.
Qed.

Lemma X2_shallow_listing_exact_witness :
  lf_recursive shallow_params = JBool false
  /\ stat test_fs (Path.resolve "/" (root "/" (Some "/ws")) ".")
     = Stat test_workspace
  /\ list_files_entries "/" (Some "/ws") test_fs shallow_params
     = inr ["README.md"; "src/"; "test/"]
  /\ List.length ["README.md"; "src/"; "test/"] <= MAX_FILES
  /\ list_files "/" (Some "/ws") test_fs shallow_params
     = Content (whole_text ["README.md"; "src/"; "test/"]).
Proof.
  assert (H1 : lf_recursive shallow_params = JBool false) by reflexivity.
  assert (H2 : stat test_fs (Path.resolve "/" (root "/" (Some "/ws")) ".")
               = Stat test_workspace) by reflexivity.
  assert (H3 : list_files_entries "/" (Some "/ws") test_fs shallow_params
               = inr ["README.md"; "src/"; "test/"])
    by (vm_compute; reflexivity).
  assert (H4 : List.length ["README.md"; "src/"; "test/"] <= MAX_FILES)
    by (unfold MAX_FILES; cbn [List.length]; lia).
  split; [exact H1|]. split; [exact H2|]. split; [exact H3|].
  split; [exact H4|].
  exact (proj2 (proj2 (X2_shallow_listing_exact
                         "/" (Some "/ws") test_fs shallow_params _ _
                         H1 H2 H3))
               H4).
Defined.

Lemma truthy_not_empty (s : string) : Str.truthy s = true -> s <> "".
Proof. destruct s; [discriminate | discriminate]. Qed.

Lemma list_files_text_not_empty (files : list string) :
  list_files_text files <> "".
Proof.
  unfold list_files_text. destruct (Nat.ltb _ _).
  - apply append_not_empty_r. discriminate.
  - destruct (Str.truthy _) eqn:E; [now apply truthy_not_empty | discriminate].
Qed.

Lemma search_text_not_empty (stdout : string) : search_text stdout <> "".
Proof.
  unfold search_text. destruct (Nat.ltb _ _).
  - apply append_not_empty_r. discriminate.
  - destruct (Str.truthy _) eqn:E; [now apply truthy_not_empty | discriminate].
Qed.

(** X3.  Neither tool ever returns an empty text block: whatever the file
    system holds and however the child process settles, a returned text
    is the listing, the matches, a truncation note or a placeholder
    (["(empty directory)"], ["No matches found."]). *)
Theorem X3_content_never_empty
        (process_cwd : string) (options_cwd : option string) :
  (forall fs params,
      list_files process_cwd options_cwd fs params <> Content "")
  /\ (forall execFile params,
         search process_cwd options_cwd execFile params <> Content "").
Proof.
  split.
  - intros fs params. unfold list_files.
    destruct (list_files_entries _ _ fs params) as [e|files]; [discriminate|].
    intros [= H]. now apply list_files_text_not_empty in H.
  - intros execFile params. unfold search.
    destruct (search_prepare _ _ params) as [e|request]; [discriminate|].
    unfold search_settle. destruct (execFile request) as [stdout|e].
    + intros [= H]. now apply search_text_not_empty in H.
    + destruct (strict_eq_num (err_code e) 1); [discriminate|].
      destruct (strict_eq_num (err_code e) 2); discriminate.
Qed.

(** ** The text built from the output of [grep] *)

Lemma split_lines_back (lines : list string) :
  Forall (fun l => Str.truthy l = true /\ Str.includes l "010" = false) lines ->
  filter Str.truthy (Str.split "010" (Str.join nl lines ++ nl)) = lines.
Proof.
  intros H.
  assert (Hsep : Forall (fun s => Str.includes s "010" = false) lines)
    by (eapply Forall_impl; [|exact H]; now intros l [_ Hl]).
  assert (Htruthy : filter Str.truthy lines = lines).
  { clear Hsep. induction H as [|l lines [Hl _] _ IH]; [reflexivity|].
    cbn [filter]. now rewrite Hl, IH. }
  destruct lines as [|l lines]; [reflexivity|].
  assert (E : Str.join nl (l :: lines) ++ nl
              = Str.join (String "010" "") ((l :: lines) ++ [""])).
  { unfold nl. rewrite join_app by discriminate. reflexivity. }
  rewrite E, split_join.
  - rewrite filter_app, Htruthy. cbn [filter Str.truthy]. apply app_nil_r.
  - discriminate.
  - apply Forall_app. split; [exact Hsep | now repeat constructor].
Qed.

(** X4.  When [grep] exits with status 0, [search] returns the lines it
    printed: for an output of at most 500 non-empty lines, each ended by
    a newline, the text is those lines joined by newlines, without the
    final newline. *)
Theorem X4_search_returns_printed_lines
        (process_cwd : string) (options_cwd : option string)
        (execFile : exec_request -> exec_outcome) (params : search_params)
        (request : exec_request) (lines : list string) :
  search_prepare process_cwd options_cwd params = Run request ->
  lines <> [] ->
  List.length lines <= MAX_LINES ->
  Forall (fun l => Str.truthy l = true /\ Str.includes l "010" = false) lines ->
  execFile request = Resolved (Str.join nl lines ++ nl) ->
  search process_cwd options_cwd execFile params
  = Content (Str.join nl lines).
Proof.
  intros Hrun Hne Hlen Hlines Hout.
  unfold search. rewrite Hrun, Hout. cbn [search_settle].
  unfold search_text. rewrite (split_lines_back lines Hlines).
  rewrite (proj2 (Nat.ltb_ge _ _) Hlen).
  destruct lines as [|l lines]; [contradiction|].
  inversion Hlines as [|? ? [Hl _] _]; subst.
  destruct l as [|c l]; [discriminate Hl|].
  destruct lines; reflexivity.
Qed.

Lemma X4_search_returns_printed_lines_witness :
  search_prepare "/" (Some "/ws") (search_for "add" (Some "src") JUndefined)
  = Run (default_request "add" "src")
  /\ ["src/utils.ts:1:export const add = (a, b) => a + b;"] <> []
  /\ List.length ["src/utils.ts:1:export const add = (a, b) => a + b;"]
     <= MAX_LINES
  /\ Forall (fun l => Str.truthy l = true /\ Str.includes l "010" = false)
            ["src/utils.ts:1:export const add = (a, b) => a + b;"]
  /\ (fun _ : exec_request =>
        Resolved (Str.join nl ["src/utils.ts:1:export const add = (a, b) => a + b;"]
                  ++ nl))
       (default_request "add" "src")
     = Resolved (Str.join nl ["src/utils.ts:1:export const add = (a, b) => a + b;"]
                 ++ nl)
  /\ search "/" (Some "/ws")
            (fun _ =>
               Resolved (Str.join nl ["src/utils.ts:1:export const add = (a, b) => a + b;"]
                         ++ nl))
            (search_for "add" (Some "src") JUndefined)
     = Content (Str.join nl ["src/utils.ts:1:export const add = (a, b) => a + b;"]).
Proof.
  assert (H1 : search_prepare "/" (Some "/ws")
                 (search_for "add" (Some "src") JUndefined)
               = Run (default_request "add" "src")) by reflexivity.
  assert (H2 : ["src/utils.ts:1:export const add = (a, b) => a + b;"] <> [])
    by discriminate.
  assert (H3 : List.length
                 ["src/utils.ts:1:export const add = (a, b) => a + b;"]
               <= MAX_LINES)
    by (apply Nat.leb_le; vm_compute; reflexivity).
  assert (H4 : Forall (fun l => Str.truthy l = true
                                /\ Str.includes l "010" = false)
                 ["src/utils.ts:1:export const add = (a, b) => a + b;"])
    by (repeat constructor).
  split; [exact H1|]. split; [exact H2|]. split; [exact H3|].
  split; [exact H4|]. split; [reflexivity|].
  exact (X4_search_returns_printed_lines
           "/" (Some "/ws") _ (search_for "add" (Some "src") JUndefined)
           (default_request "add" "src") _ H1 H2 H3 H4 eq_refl).
Defined.

(** ** More on the glob matcher *)

(** X5.  A pattern without [*] and [?] and without a trailing slash
    matches by equality: the characters that mean something in a regular
    expression (the dot, brackets, parentheses, the backslash, ...) stand
    for themselves.  A pattern with a slash in it is compared with the
    relative path of the entry, any other pattern with its base name. *)
Theorem X5_literal_pattern_matches_by_equality
        (filePath basename pattern : string) :
  is_literal pattern = true ->
  Str.endsWith pattern "/" = false ->
  matchesPattern filePath basename [pattern]
  = String.eqb (if Str.includes pattern "/" then filePath else basename)
               pattern.
Proof.
  intros Hl He. unfold matchesPattern. cbn [existsb].
  rewrite orb_false_r, matches_one_compiled, He, andb_true_r.
  rewrite normalizedPath_id, test_compiled, He.
  now apply literal_terms_match.
Qed.

Lemma X5_literal_pattern_matches_by_equality_witness :
  is_literal "a.b(c)" = true
  /\ Str.endsWith "a.b(c)" "/" = false
  /\ matchesPattern "src/axb(c)" "axb(c)" ["a.b(c)"]
     = String.eqb (if Str.includes "a.b(c)" "/" then "src/axb(c)" else "axb(c)")
                  "a.b(c)".
Proof.
  split; [reflexivity|]. split; [reflexivity|].
  exact (X5_literal_pattern_matches_by_equality
           "src/axb(c)" "axb(c)" "a.b(c)" eq_refl eq_refl).
Defined.

Lemma is_literal_cons (c : ascii) (s : string) :
  is_literal (String c s) = true ->
  Ascii.eqb c "*" = false /\ Ascii.eqb c "?" = false /\ is_literal s = true.
Proof.
  unfold is_literal. cbn [Str.includes]. rewrite !negb_orb, !andb_true_iff.
  rewrite !negb_true_iff. intros [[H1 H2] [H3 H4]].
  rewrite H2, H4. auto.
Qed.

Lemma glob_terms_literal_app (pre s : string) :
  is_literal pre = true ->
  glob_terms (pre ++ s) = (glob_terms pre ++ glob_terms s)%list.
Proof.
  induction pre as [|c pre IH]; intros Hl; [reflexivity|].
  apply is_literal_cons in Hl. destruct Hl as (Hs & Hq & Hl).
  cbn [append]. rewrite !glob_terms_other by exact Hs.
  cbn [app]. now rewrite IH.
Qed.

Lemma literal_no_leading_star (s : string) :
  is_literal s = true -> no_leading_star s.
Proof.
  destruct s as [|c s]; [exact (fun _ => I)|].
  intros H. apply is_literal_cons in H. apply H.
Qed.

(** Past the start of the subject, expressions without [^] do not look
    at the start flag. *)
Lemma match_here_flag (r : Regex.regex) :
  ~ In Regex.AssertStart r ->
  forall b b' s, Regex.match_here r b s = Regex.match_here r b' s.
Proof.
  induction r as [|t r IH]; intros Hno b b' s; [reflexivity|].
  assert (Hr : ~ In Regex.AssertStart r) by (intros H; apply Hno; now right).
  destruct t as [| |a|a].
  - exfalso. apply Hno. now left.
  - cbn [Regex.match_here]. destruct s; [now apply IH | reflexivity].
  - reflexivity.
  - revert b b'. induction s as [|c s IHs]; intros b b';
      rewrite !(match_here_star a r); rewrite (IH Hr b b'); reflexivity.
Qed.

Lemma glob_terms_no_start (pattern : string) :
  ~ In Regex.AssertStart (glob_terms pattern).
Proof.
  revert pattern.
  apply (glob_ind (fun p => ~ In Regex.AssertStart (glob_terms p))).
  - intros [].
  - intros s IH. rewrite glob_terms_star_star.
    intros [H|[H|H]]; [discriminate | discriminate | exact (IH H)].
  - intros s Hs IH. rewrite (glob_terms_star s Hs).
    intros [H|H]; [discriminate | exact (IH H)].
  - intros c s Hc IH. rewrite (glob_terms_other c s Hc).
    intros [H|H]; [discriminate | exact (IH H)].
Qed.

Lemma literal_prefix_match (pre : string) (r : Regex.regex) :
  is_literal pre = true ->
  forall b s,
    Regex.match_here (glob_terms pre ++ r)%list b s = true <->
    exists rest,
      s = pre ++ rest
      /\ Regex.match_here r (match pre with EmptyString => b | _ => false end)
                          rest = true.
Proof.
  induction pre as [|c pre IH]; intros Hl b s.
  - cbn [glob_terms app append]. split.
    + intros H. now exists s.
    + now intros (rest & -> & H).
  - apply is_literal_cons in Hl. destruct Hl as (Hs & Hq & Hl).
    rewrite glob_terms_other by exact Hs. rewrite Hq.
    cbn [app Regex.match_here]. destruct s as [|d s].
    + split; [discriminate | intros (rest & H & _); discriminate].
    + cbn [Regex.atom_matches]. rewrite andb_true_iff, (IH Hl false s).
      split.
      * intros [Hd (rest & -> & Hm)]. apply Ascii.eqb_eq in Hd. subst d.
        exists rest. split; [reflexivity|].
        destruct pre; exact Hm.
      * intros (rest & E & Hm). cbn [append] in E. injection E as -> ->.
        split; [apply Ascii.eqb_refl|].
        exists rest. split; [reflexivity|]. destruct pre; exact Hm.
Qed.

Lemma star_run_match (r : Regex.regex) :
  ~ In Regex.AssertStart r ->
  forall b s,
    Regex.match_here (Regex.Star (Regex.NoneOf ["/"%char]) :: r) b s = true <->
    exists run rest,
      s = run ++ rest
      /\ Str.includes run "/" = false
      /\ Regex.match_here r false rest = true.
Proof.
  intros Hno b s. revert b. induction s as [|c s IH]; intros b;
    rewrite match_here_star, orb_true_iff.
  - split.
    + intros [H|H]; [|discriminate]. exists "", "".
      rewrite (match_here_flag r Hno false b). auto.
    + intros (run & rest & E & _ & Hm). left.
      destruct run; [|discriminate]. cbn in E. subst rest.
      now rewrite (match_here_flag r Hno b false).
  - rewrite andb_true_iff, (IH false). split.
    + intros [H|[Hc (run & rest & -> & Hrun & Hm)]].
      * exists "", (String c s). rewrite (match_here_flag r Hno false b). auto.
      * exists (String c run), rest. split; [reflexivity|]. split; [|exact Hm].
        cbn [Str.includes]. rewrite Hrun, orb_false_r.
        cbn [Regex.atom_matches existsb] in Hc.
        rewrite orb_false_r in Hc. now apply negb_true_iff in Hc.
    + intros (run & rest & E & Hrun & Hm). destruct run as [|d run].
      * left. cbn in E. subst rest.
        now rewrite (match_here_flag r Hno b false).
      * right. cbn [append] in E. injection E as -> ->.
        cbn [Str.includes] in Hrun. apply orb_false_iff in Hrun.
        destruct Hrun as [Hd Hrun]. split.
        -- cbn [Regex.atom_matches existsb]. now rewrite Hd.
        -- exists run, rest. auto.
Qed.

(** X6.  A slash-free pattern [pre*post], where [pre] and [post] hold no
    wildcard, matches exactly the base names that begin with [pre], end
    with [post] and have no slash in between: [*.ts] matches every name
    that ends with [.ts]. *)
Theorem X6_star_pattern_matches_affixes
        (filePath basename pre post : string) :
  is_literal pre = true ->
  is_literal post = true ->
  Str.includes pre "/" = false ->
  Str.includes post "/" = false ->
  matchesPattern filePath basename [pre ++ "*" ++ post] = true <->
  exists middle,
    basename = pre ++ middle ++ post /\ Str.includes middle "/" = false.
Proof.
  intros Hpre Hpost Hspre Hspost.
  assert (Hs : Str.includes (pre ++ "*" ++ post) "/" = false).
  { clear Hpre. induction pre as [|c pre IH]; cbn [append Str.includes].
    - exact Hspost.
    - cbn [Str.includes] in Hspre. apply orb_false_iff in Hspre.
      destruct Hspre as [-> Hspre]. now apply IH. }
  unfold matchesPattern. cbn [existsb].
  rewrite orb_false_r, matches_one_compiled, Hs. cbn [andb].
  rewrite test_compiled, (endsWith_no_sep _ _ Hs).
  rewrite (glob_terms_literal_app pre _ Hpre).
  cbn [append]. rewrite (glob_terms_star post (literal_no_leading_star _ Hpost)).
  rewrite <- app_assoc. rewrite (literal_prefix_match pre _ Hpre).
  cbn [app].
  assert (Hno : ~ In Regex.AssertStart (glob_terms post ++ [Regex.AssertEnd])%list).
  { intros H. apply in_app_or in H. destruct H as [H|[H|[]]];
      [now apply glob_terms_no_start in H | discriminate]. }
  split.
  - intros (rest & -> & Hm). apply (star_run_match _ Hno) in Hm.
    destruct Hm as (run & rest' & -> & Hrun & Hm).
    rewrite (literal_terms_match post Hpost) in Hm.
    apply String.eqb_eq in Hm. subst rest'. now exists run.
  - intros (middle & -> & Hrun). exists (middle ++ post). split; [reflexivity|].
    apply (star_run_match _ Hno). exists middle, post.
    split; [reflexivity|]. split; [exact Hrun|].
    rewrite (literal_terms_match post Hpost). apply String.eqb_refl.
Qed.

Lemma X6_star_pattern_matches_affixes_witness :
  is_literal "" = true
  /\ is_literal ".test.ts" = true
  /\ Str.includes "" "/" = false
  /\ Str.includes ".test.ts" "/" = false
  /\ (matchesPattern "test/index.test.ts" "index.test.ts" ["" ++ "*" ++ ".test.ts"]
      = true
      <-> exists middle,
          "index.test.ts" = "" ++ middle ++ ".test.ts"
          /\ Str.includes middle "/" = false).
Proof.
  repeat (split; [reflexivity|]).
  exact (X6_star_pattern_matches_affixes
           "test/index.test.ts" "index.test.ts" "" ".test.ts"
           eq_refl eq_refl eq_refl eq_refl).
Defined.

(** ** Paths inside the workspace *)

(** X7.  With a workspace root in normal form (an absolute path made of
    plain names), [search] never refuses a path that is ["."] or is made
    of plain names: it runs [grep], in the workspace root, with the path
    as given for last argument. *)
Theorem X7_search_accepts_paths_inside_root
        (process_cwd top : string) (rs ps : list string)
        (params : search_params) :
  normal_root top rs ->
  names_path (or_default (sp_path params) ".") ps ->
  exists options,
    search_prepare process_cwd (Some top) params
    = Run {| exec_file := "grep";
             exec_args := (options ++ [or_default (sp_path params) "."])%list;
             exec_maxBuffer := 1024 * 1024;
             exec_cwd := top |}.
Proof.
  intros Hroot Hp. unfold search_prepare, root. cbn [or_default].
  rewrite (guard_passes process_cwd top _ rs ps Hroot Hp). cbn [negb].
  rewrite grepArgs_shape. rewrite !app_assoc.
  change ["-e"; sp_pattern params; or_default (sp_path params) "."]
    with (["-e"; sp_pattern params] ++ [or_default (sp_path params) "."])%list.
  rewrite app_assoc. eexists. reflexivity.
Qed.

Lemma X7_search_accepts_paths_inside_root_witness :
  normal_root "/ws" ["ws"]
  /\ names_path (or_default (sp_path (search_for "add" (Some "src/nested_modules")
                                                 JUndefined)) ".")
                ["src"; "nested_modules"]
  /\ exists options,
      search_prepare "/" (Some "/ws")
                     (search_for "add" (Some "src/nested_modules") JUndefined)
      = Run {| exec_file := "grep";
               exec_args :=
                 (options
                    ++ [or_default
                          (sp_path (search_for "add" (Some "src/nested_modules")
                                               JUndefined)) "."])%list;
               exec_maxBuffer := 1024 * 1024;
               exec_cwd := "/ws" |}.
Proof.
  assert (H1 : normal_root "/ws" ["ws"])
    by (split; [repeat constructor | reflexivity]).
  assert (H2 : names_path
                 (or_default (sp_path (search_for "add" (Some "src/nested_modules")
                                                  JUndefined)) ".")
                 ["src"; "nested_modules"]).
  { split; [repeat constructor|]. right. split; [discriminate | reflexivity]. }
  split; [exact H1|]. split; [exact H2|].
  exact (X7_search_accepts_paths_inside_root
           "/" "/ws" ["ws"] ["src"; "nested_modules"]
           (search_for "add" (Some "src/nested_modules") JUndefined) H1 H2).
Defined.

(** X8.  With a root and a path in normal form, what [list_files] does
    is decided by what the tree holds under the names of the path: a
    missing entry gives the caller-input error "Directory not found", an
    entry that is a file gives "is not a directory", a path that goes
    through a file is raised as the bare [ENOTDIR] error and not turned
    into a caller-input error, and a directory is listed. *)
Theorem X8_list_files_outcomes
        (process_cwd top : string) (rs ps : list string) (fs : node)
        (params : list_files_params) :
  normal_root top rs ->
  names_path (or_default (lf_path params) ".") ps ->
  let p := or_default (lf_path params) "." in
  (lookup fs (rs ++ ps) = StatError "ENOENT" ->
   list_files process_cwd (Some top) fs params
   = Throw (ToolInputError ("Directory not found: " ++ p)))
  /\ (lookup fs (rs ++ ps) = StatError "ENOTDIR" ->
      list_files process_cwd (Some top) fs params
      = Throw (ErrnoException "ENOTDIR"))
  /\ (lookup fs (rs ++ ps) = Stat File ->
      list_files process_cwd (Some top) fs params
      = Throw (ToolInputError (p ++ " is not a directory.")))
  /\ (forall entries,
         lookup fs (rs ++ ps) = Stat (Dir entries) ->
         list_files process_cwd (Some top) fs params
         = Content
             (list_files_text
                (sort (walk (strict_neq_false (lf_recursive params))
                            (or_default (lf_ignore params) default_ignore)
                            (Dir entries) (Str.join "/" ps))))).
Proof.
  intros Hroot Hp p. unfold list_files.
  rewrite (list_files_entries_plain process_cwd top rs ps fs params Hroot Hp).
  repeat split.
  - intros ->. reflexivity.
  - intros ->. reflexivity.
  - intros ->. reflexivity.
  - intros entries ->. reflexivity.
Qed.

Lemma X8_list_files_outcomes_witness :
  normal_root "/ws" ["ws"]
  /\ names_path (or_default (lf_path (list_params (Some "README.md/x") None)) ".")
                ["README.md"; "x"]
  /\ lookup test_fs (["ws"] ++ ["README.md"; "x"]) = StatError "ENOTDIR"
  /\ list_files "/" (Some "/ws") test_fs (list_params (Some "README.md/x") None)
     = Throw (ErrnoException "ENOTDIR").
Proof.
  assert (H1 : normal_root "/ws" ["ws"])
    by (split; [repeat constructor | reflexivity]).
  assert (H2 : names_path
                 (or_default (lf_path (list_params (Some "README.md/x") None)) ".")
                 ["README.md"; "x"]).
  { split; [repeat constructor|]. right. split; [discriminate | reflexivity]. }
  assert (H3 : lookup test_fs (["ws"] ++ ["README.md"; "x"])
               = StatError "ENOTDIR") by reflexivity.
  split; [exact H1|]. split; [exact H2|]. split; [exact H3|].
  exact (proj1 (proj2 (X8_list_files_outcomes
                         "/" "/ws" ["ws"] ["README.md"; "x"] test_fs
                         (list_params (Some "README.md/x") None) H1 H2))
               H3).
Defined.

(** X9.  With a workspace root in normal form other than [/], both tools
    refuse every path that only climbs ([..], [../], [../..], [./..],
    ...) with the access-denied error, whatever the file system holds and
    without running a process. *)
Theorem X9_climbing_paths_refused
        (process_cwd top p : string) (rs : list string) :
  normal_root top rs ->
  rs <> [] ->
  climbs p ->
  (forall fs recursive ignore,
      list_files process_cwd (Some top) fs
                 {| lf_path := Some p; lf_recursive := recursive;
                    lf_ignore := ignore |}
      = Throw (ToolInputError
                 ("Access denied: " ++ p ++ " is outside workspace root.")))
  /\ (forall execFile pattern include exclude caseSensitive,
         search process_cwd (Some top) execFile
                {| sp_pattern := pattern; sp_path := Some p;
                   sp_include := include; sp_exclude := exclude;
                   sp_caseSensitive := caseSensitive |}
         = Throw (ToolInputError
                    ("Access denied: " ++ p ++ " is outside workspace root."))).
Proof.
  intros Hroot Hne Hc.
  apply (guard_rejects_non_prefix process_cwd (Some top) (Some p)).
  cbn [or_default]. unfold root. cbn [or_default].
  exact (climbing_leaves_root process_cwd top p rs Hroot Hne Hc).
Qed.

Lemma X9_climbing_paths_refused_witness :
  normal_root "/home/user/ws" ["home"; "user"; "ws"]
  /\ ["home"; "user"; "ws"] <> []
  /\ climbs "../../"
  /\ (forall fs recursive ignore,
         list_files "/" (Some "/home/user/ws") fs
                    {| lf_path := Some "../../"; lf_recursive := recursive;
                       lf_ignore := ignore |}
         = Throw (ToolInputError
                    ("Access denied: " ++ "../../"
                                       ++ " is outside workspace root.")))
  /\ (forall execFile pattern include exclude caseSensitive,
         search "/" (Some "/home/user/ws") execFile
                {| sp_pattern := pattern; sp_path := Some "../../";
                   sp_include := include; sp_exclude := exclude;
                   sp_caseSensitive := caseSensitive |}
         = Throw (ToolInputError
                    ("Access denied: " ++ "../../"
                                       ++ " is outside workspace root."))).
Proof.
  assert (H1 : normal_root "/home/user/ws" ["home"; "user"; "ws"])
    by (split; [repeat constructor | reflexivity]).
  assert (H2 : ["home"; "user"; "ws"] <> []) by discriminate.
  assert (H3 : climbs "../../").
  { split; [reflexivity|]. split.
    - cbn. repeat (apply Forall_cons;
                   [first [ left; reflexivity
                          | right; left; reflexivity
                          | right; right; reflexivity ]|]).
      apply Forall_nil.
    - cbn. auto. }
  split; [exact H1|]. split; [exact H2|]. split; [exact H3|].
  exact (X9_climbing_paths_refused
           "/" "/home/user/ws" "../../" ["home"; "user"; "ws"] H1 H2 H3).
Defined.

(** X10.  A tool created with a [cwd] option that is an absolute path
    of one or more plain names followed by a slash ([/ws/],
    [/home/user/ws/]; not the bare [/]) refuses to work on the workspace
    root itself: the default path ["."] resolves to the root without the
    slash, of which the root as given is no prefix, so both tools answer
    with the access-denied error. *)
Theorem X10_trailing_slash_root_refuses_itself
        (process_cwd : string) (rs : list string) (path : option string) :
  rs <> [] ->
  Forall (fun n => valid_name n = true) rs ->
  or_default path "." = "." ->
  let top := "/" ++ Str.join "/" rs ++ "/" in
  (forall fs recursive ignore,
      list_files process_cwd (Some top) fs
                 {| lf_path := path; lf_recursive := recursive;
                    lf_ignore := ignore |}
      = Throw (ToolInputError
                 ("Access denied: " ++ "." ++ " is outside workspace root.")))
  /\ (forall execFile pattern include exclude caseSensitive,
         search process_cwd (Some top) execFile
                {| sp_pattern := pattern; sp_path := path;
                   sp_include := include; sp_exclude := exclude;
                   sp_caseSensitive := caseSensitive |}
         = Throw (ToolInputError
                    ("Access denied: " ++ "." ++ " is outside workspace root."))).
Proof.
  intros Hne Hrs Hp top.
  pose proof (guard_rejects_non_prefix process_cwd (Some top) path) as H.
  rewrite Hp in H. apply H.
  unfold root. cbn [or_default].
  exact (trailing_slash_root_dot process_cwd rs Hne Hrs).
Qed.

Lemma X10_trailing_slash_root_refuses_itself_witness :
  ["ws"] <> []
  /\ Forall (fun n => valid_name n = true) ["ws"]
  /\ or_default (@None string) "." = "."
  /\ list_files "/" (Some "/ws/") test_fs (list_params None None)
     = Throw (ToolInputError "Access denied: . is outside workspace root.").
Proof.
  assert (H1 : ["ws"] <> []) by discriminate.
  assert (H2 : Forall (fun n => valid_name n = true) ["ws"])
    by (repeat constructor).
  split; [exact H1|]. split; [exact H2|]. split; [reflexivity|].
  exact (proj1 (X10_trailing_slash_root_refuses_itself "/" ["ws"] None
                  H1 H2 eq_refl)
               test_fs JUndefined None).
Defined.

(** X11.  The two tools guard alike: [search] refuses a path exactly when
    [list_files] refuses it as outside the workspace root, and both then
    throw the same error. *)
Theorem X11_tools_share_the_guard
        (process_cwd : string) (options_cwd : option string) (fs : node)
        (lparams : list_files_params) (sparams : search_params) :
  lf_path lparams = sp_path sparams ->
  let denied :=
    ToolInputError ("Access denied: " ++ or_default (sp_path sparams) "."
                                      ++ " is outside workspace root.") in
  search_prepare process_cwd options_cwd sparams = Refused denied
  <-> list_files_entries process_cwd options_cwd fs lparams = inl denied.
Proof.
  intros Hpath denied. unfold search_prepare, list_files_entries.
  rewrite Hpath. fold denied.
  destruct (negb (Str.startsWith _ _)).
  - split; intros _; reflexivity.
  - split; [discriminate|].
    destruct (stat fs _) as [stats|code].
    + destruct (negb (is_directory stats)); [|discriminate].
      intros [= H]. exfalso.
      assert (L : String.length (or_default (sp_path sparams) "."
                                            ++ " is not a directory.")
                  = String.length ("Access denied: "
                                     ++ or_default (sp_path sparams) "."
                                     ++ " is outside workspace root."))
        by (now rewrite H).
      rewrite !length_append in L. cbn [String.length] in L. lia.
    + destruct (String.eqb code "ENOENT"); discriminate.
Qed.

Lemma X11_tools_share_the_guard_witness :
  lf_path (list_params (Some "..") None)
  = sp_path (search_for "x" (Some "..") JUndefined)
  /\ (search_prepare "/" (Some "/ws") (search_for "x" (Some "..") JUndefined)
      = Refused (ToolInputError
                   ("Access denied: "
                      ++ or_default (sp_path (search_for "x" (Some "..") JUndefined))
                                    "."
                      ++ " is outside workspace root."))
      <-> list_files_entries "/" (Some "/ws") test_fs
                             (list_params (Some "..") None)
          = inl (ToolInputError
                   ("Access denied: "
                      ++ or_default (sp_path (search_for "x" (Some "..") JUndefined))
                                    "."
                      ++ " is outside workspace root."))).
Proof.
  split; [reflexivity|].
  exact (X11_tools_share_the_guard
           "/" (Some "/ws") test_fs (list_params (Some "..") None)
           (search_for "x" (Some "..") JUndefined) eq_refl).
Defined.

(** ** Listing and [stat] *)

(** X12.  Every path that [list_files] returns names an entry of the
    tree: resolved against the workspace root it is found by [stat], as
    a directory when and only when the returned path ends with a slash
    (the mark of a directory in a non-recursive listing).  Root and path
    are in normal form, and no directory holds a name twice. *)
Theorem X12_listed_paths_exist
        (process_cwd top : string) (rs ps : list string) (fs : node)
        (params : list_files_params) (files : list string) (f : string) :
  normal_root top rs ->
  names_path (or_default (lf_path params) ".") ps ->
  valid_names fs ->
  unique_names fs ->
  list_files_entries process_cwd (Some top) fs params = inr files ->
  In f files ->
  exists target,
    stat fs (Path.resolve process_cwd top f) = Stat target
    /\ is_directory target = Str.endsWith f "/".
Proof.
  intros Hroot Hp Hv Hu Hentries Hf.
  rewrite (list_files_entries_plain process_cwd top rs ps fs params Hroot Hp)
    in Hentries.
  destruct (lookup fs (rs ++ ps)) as [stats|code] eqn:Hl;
    [|destruct (String.eqb code "ENOENT"); discriminate].
  destruct (negb (is_directory stats)); [discriminate|].
  injection Hentries as <-. apply (proj1 (in_sort _ _)) in Hf.
  destruct (walk_sound _ _ _ _ _ Hf)
    as (names & target & Hne & Hd & _ & Hshape).
  assert (Hvs : valid_names stats) by (eapply lookup_valid; eauto).
  assert (Hus : unique_names stats).
  { apply (descends_unique (rs ++ ps) fs stats Hu).
    apply lookup_descends. exact Hl. }
  destruct (descends_valid _ _ _ Hvs Hd) as [Hnames _].
  pose proof (descends_lookup _ _ _ Hus Hd) as Hfound.
  destruct Hroot as [Hrs ->]. destruct Hp as [Hps _].
  assert (Hall : Forall (fun n => valid_name n = true) (ps ++ names))
    by (apply Forall_app; now split).
  assert (Hne' : (ps ++ names)%list <> [])
    by (intros E; apply app_eq_nil in E; now destruct E).
  assert (Hseg : lookup fs (rs ++ ps ++ names) = Stat target).
  { rewrite app_assoc, lookup_app, Hl. exact Hfound. }
  assert (Hsegs : path_segments ("/" ++ Str.join "/" (rs ++ ps ++ names))
                  = (rs ++ ps ++ names)%list).
  { apply path_segments_root_join. apply Forall_app. now split. }
  exists target. rewrite entry_path_valid in Hshape by assumption.
  destruct Hshape as [[-> Ht]|(-> & Ht & _)].
  - rewrite resolve_plain by assumption. unfold stat. rewrite Hsegs, Hseg.
    split; [reflexivity|]. rewrite Ht. symmetry.
    destruct (ps ++ names)%list as [|n l] eqn:E; [contradiction|].
    destruct (join_valid_shape n l Hall) as (c & s & -> & _ & He).
    exact He.
  - rewrite resolve_plain_slash by assumption. unfold stat.
    rewrite Hsegs, Hseg. split; [reflexivity|]. rewrite Ht. symmetry.
    now rewrite endsWith_append by discriminate.
Qed.

Lemma X12_listed_paths_exist_witness :
  normal_root "/ws" ["ws"]
  /\ names_path (or_default (lf_path (list_params (Some "src") None)) ".") ["src"]
  /\ valid_names test_fs
  /\ unique_names test_fs
  /\ list_files_entries "/" (Some "/ws") test_fs (list_params (Some "src") None)
     = inr ["src/index.ts"; "src/nested_modules/nested.js"; "src/utils.ts"]
  /\ In "src/nested_modules/nested.js"
        ["src/index.ts"; "src/nested_modules/nested.js"; "src/utils.ts"]
  /\ exists target,
      stat test_fs (Path.resolve "/" "/ws" "src/nested_modules/nested.js")
      = Stat target
      /\ is_directory target = Str.endsWith "src/nested_modules/nested.js" "/".
Proof.
  assert (H1 : normal_root "/ws" ["ws"])
    by (split; [repeat constructor | reflexivity]).
  assert (H2 : names_path
                 (or_default (lf_path (list_params (Some "src") None)) ".")
                 ["src"]).
  { split; [repeat constructor|]. right. split; [discriminate | reflexivity]. }
  assert (H3 : valid_names test_fs) by (cbn; repeat split; reflexivity).
  assert (H4 : unique_names test_fs).
  { cbn. repeat split; repeat constructor; cbn; intuition discriminate. }
  assert (H5 : list_files_entries "/" (Some "/ws") test_fs
                 (list_params (Some "src") None)
               = inr ["src/index.ts"; "src/nested_modules/nested.js";
                      "src/utils.ts"])
    by (vm_compute; reflexivity).
  assert (H6 : In "src/nested_modules/nested.js"
                  ["src/index.ts"; "src/nested_modules/nested.js";
                   "src/utils.ts"])
    by (cbn; tauto).
  repeat (split; [assumption|]).
  exact (X12_listed_paths_exist
           "/" "/ws" ["ws"] ["src"] test_fs (list_params (Some "src") None)
           _ "src/nested_modules/nested.js" H1 H2 H3 H4 H5 H6).
Defined.

(** X13.  No path is listed twice: on a tree in which no directory holds
    a name twice, listed from a root and a path in normal form, the
    returned entries are pairwise distinct. *)
Theorem X13_no_path_listed_twice
        (process_cwd top : string) (rs ps : list string) (fs : node)
        (params : list_files_params) (files : list string) :
  normal_root top rs ->
  names_path (or_default (lf_path params) ".") ps ->
  valid_names fs ->
  unique_names fs ->
  list_files_entries process_cwd (Some top) fs params = inr files ->
  NoDup files.
Proof.
  intros Hroot Hp Hv Hu Hentries.
  rewrite (list_files_entries_plain process_cwd top rs ps fs params Hroot Hp)
    in Hentries.
  destruct (lookup fs (rs ++ ps)) as [stats|code] eqn:Hl;
    [|destruct (String.eqb code "ENOENT"); discriminate].
  destruct (negb (is_directory stats)); [discriminate|].
  injection Hentries as <-.
  eapply Permutation_NoDup; [apply sort_perm|].
  apply walk_NoDup.
  - eapply lookup_valid; eauto.
  - apply (descends_unique (rs ++ ps) fs stats Hu).
    apply lookup_descends. exact Hl.
  - apply Hp.
Qed.

Lemma X13_no_path_listed_twice_witness :
  normal_root "/ws" ["ws"]
  /\ names_path (or_default (lf_path (list_params None None)) ".") []
  /\ valid_names test_fs
  /\ unique_names test_fs
  /\ list_files_entries "/" (Some "/ws") test_fs (list_params None None)
     = inr ["README.md"; "src/index.ts"; "src/nested_modules/nested.js";
            "src/utils.ts"; "test/index.test.ts"]
  /\ NoDup ["README.md"; "src/index.ts"; "src/nested_modules/nested.js";
            "src/utils.ts"; "test/index.test.ts"].
Proof.
  assert (H1 : normal_root "/ws" ["ws"])
    by (split; [repeat constructor | reflexivity]).
  assert (H2 : names_path (or_default (lf_path (list_params None None)) ".") [])
    by (split; [constructor | left; split; reflexivity]).
  assert (H3 : valid_names test_fs) by (cbn; repeat split; reflexivity).
  assert (H4 : unique_names test_fs).
  { cbn. repeat split; repeat constructor; cbn; intuition discriminate. }
  assert (H5 : list_files_entries "/" (Some "/ws") test_fs
                 (list_params None None)
               = inr ["README.md"; "src/index.ts";
                      "src/nested_modules/nested.js";
                      "src/utils.ts"; "test/index.test.ts"])
    by (vm_compute; reflexivity).
  repeat (split; [assumption|]).
  exact (X13_no_path_listed_twice
           "/" "/ws" ["ws"] [] test_fs (list_params None None) _
           H1 H2 H3 H4 H5).
Defined.

(** ** A single star stays inside one path segment *)

Lemma count_char_app (c : ascii) (a b : string) :
  count_char c (a ++ b) = count_char c a + count_char c b.
Proof.
  induction a as [|d a IH]; [reflexivity|].
  cbn [append count_char]. rewrite IH. lia.
Qed.

Lemma count_char_none (c : ascii) (s : string) :
  Str.includes s c = false -> count_char c s = 0.
Proof.
  induction s as [|d s IH]; [reflexivity|].
  cbn [Str.includes count_char]. intros H. apply orb_false_iff in H.
  destruct H as [-> H]. now rewrite IH.
Qed.

Lemma has_double_star_tail (c : ascii) (s : string) :
  has_double_star (String c s) = false -> has_double_star s = false.
Proof.
  destruct s as [|d s]; [reflexivity|].
  intros H. change (has_double_star (String c (String d s)))
    with ((Ascii.eqb c "*" && Ascii.eqb d "*")
          || has_double_star (String d s)) in H.
  now apply orb_false_iff in H.
Qed.

Lemma single_star_keeps_separators (pattern : string) :
  has_double_star pattern = false ->
  Str.includes pattern "?" = false ->
  forall b s,
    Regex.match_here (glob_terms pattern ++ [Regex.AssertEnd])%list b s = true ->
    count_char "/" s = count_char "/" pattern.
Proof.
  revert pattern.
  apply (glob_ind (fun p =>
    has_double_star p = false ->
    Str.includes p "?" = false ->
    forall b s,
      Regex.match_here (glob_terms p ++ [Regex.AssertEnd])%list b s = true ->
      count_char "/" s = count_char "/" p)).
  - intros _ _ b s H. cbn in H. destruct s; [reflexivity | discriminate].
  - intros s _ H. discriminate H.
  - intros s Hs IH Hd Hq b t Hm.
    rewrite (glob_terms_star s Hs) in Hm. cbn [app] in Hm.
    assert (Hno : ~ In Regex.AssertStart (glob_terms s ++ [Regex.AssertEnd])%list).
    { intros H. apply in_app_or in H. destruct H as [H|[H|[]]];
        [now apply glob_terms_no_start in H | discriminate]. }
    apply (star_run_match _ Hno) in Hm.
    destruct Hm as (run & rest & -> & Hrun & Hm).
    rewrite count_char_app, (count_char_none _ _ Hrun).
    cbn [count_char Ascii.eqb Bool.eqb]. cbn [Nat.add].
    apply (IH) with (b := false); [| |exact Hm].
    + exact (has_double_star_tail _ _ Hd).
    + cbn [Str.includes] in Hq. now apply orb_false_iff in Hq.
  - intros c s Hc IH Hd Hq b t Hm.
    rewrite (glob_terms_other c s Hc) in Hm.
    cbn [Str.includes] in Hq. apply orb_false_iff in Hq.
    destruct Hq as [Hcq Hq]. rewrite Hcq in Hm.
    cbn [app Regex.match_here] in Hm. destruct t as [|d t]; [discriminate|].
    apply andb_true_iff in Hm. destruct Hm as [Ha Hm].
    cbn [Regex.atom_matches] in Ha. apply Ascii.eqb_eq in Ha. subst d.
    cbn [count_char]. f_equal. apply (IH) with (b := false); [|exact Hq|exact Hm].
    exact (has_double_star_tail _ _ Hd).
Qed.

(** X14.  A single star does not cross a directory boundary: when a
    pattern with an interior slash, without question mark and without two
    stars in a row, matches a relative path, the path has exactly as many
    separators as the pattern ([src/*.ts] matches [src/a.ts], never
    [src/a/b.ts]). *)
Theorem X14_single_star_stays_in_segment
        (filePath basename pattern : string) :
  Str.includes pattern "/" = true ->
  Str.endsWith pattern "/" = false ->
  Str.includes pattern "?" = false ->
  has_double_star pattern = false ->
  matchesPattern filePath basename [pattern] = true ->
  count_char "/" filePath = count_char "/" pattern.
Proof.
  intros Hs He Hq Hd Hm. unfold matchesPattern in Hm. cbn [existsb] in Hm.
  rewrite orb_false_r, matches_one_compiled, Hs, He in Hm. cbn [negb andb] in Hm.
  rewrite normalizedPath_id, test_compiled, He in Hm.
  exact (single_star_keeps_separators pattern Hd Hq true filePath Hm).
Qed.

Lemma X14_single_star_stays_in_segment_witness :
  Str.includes "src/*.ts" "/" = true
  /\ Str.endsWith "src/*.ts" "/" = false
  /\ Str.includes "src/*.ts" "?" = false
  /\ has_double_star "src/*.ts" = false
  /\ matchesPattern "src/index.ts" "index.ts" ["src/*.ts"] = true
  /\ count_char "/" "src/index.ts" = count_char "/" "src/*.ts".
Proof.
  assert (H : matchesPattern "src/index.ts" "index.ts" ["src/*.ts"] = true)
    by (vm_compute; reflexivity).
  repeat (split; [reflexivity|]).
  exact (X14_single_star_stays_in_segment
           "src/index.ts" "index.ts" "src/*.ts"
           eq_refl eq_refl eq_refl eq_refl H).
Defined.

(** ** Listings of a directory and of the root *)

Lemma recursive_listing_iff
      (cwd top : string) (rs ps : list string) (fs : node)
      (params : list_files_params) (stats : node) (files : list string)
      (f : string) :
  normal_root top rs ->
  names_path (or_default (lf_path params) ".") ps ->
  strict_neq_false (lf_recursive params) = true ->
  lookup fs (rs ++ ps) = Stat stats ->
  list_files_entries cwd (Some top) fs params = inr files ->
  In f files <->
  exists names target,
    names <> []
    /\ descends stats names target
    /\ is_directory target = false
    /\ kept (or_default (lf_ignore params) default_ignore)
            (Str.join "/" ps) names
    /\ f = entry_path (Str.join "/" ps) names.
Proof.
  intros Hroot Hp Hrec Hl Hentries.
  rewrite (list_files_entries_plain cwd top rs ps fs params Hroot Hp), Hl
    in Hentries.
  destruct (negb (is_directory stats)); [discriminate|].
  injection Hentries as <-. rewrite Hrec, in_sort. split.
  - intros Hf.
    destruct (walk_sound _ _ _ _ _ Hf)
      as (names & target & Hne & Hd & Hk & [[-> Ht]|(_ & _ & Hfalse)]);
      [|discriminate].
    exists names, target. auto.
  - intros (names & target & Hne & Hd & Ht & Hk & ->).
    eapply walk_complete; eauto.
Qed.

Lemma prefix_split (a b : string) :
  String.prefix a b = true -> exists rest, b = a ++ rest.
Proof.
  revert a. induction b as [|d b IH]; intros [|c a] H; cbn in H.
  - now exists "".
  - discriminate.
  - now exists (String d b).
  - destruct (ascii_dec c d) as [->|]; [|discriminate].
    destruct (IH a H) as (rest & ->). now exists rest.
Qed.

Lemma entry_path_top (names : list string) :
  Forall (fun n => valid_name n = true) names ->
  entry_path "" names = Str.join "/" names.
Proof.
  intros H. exact (entry_path_valid [] names (Forall_nil _) H).
Qed.

(** X18.  Listing a directory gives the part of the root listing that
    lies under it.  In recursive listings with the same ignore list,
    from a root and a path [p] in normal form whose own names the ignore
    list does not match, on a tree where no directory holds a name
    twice: the sorted array built for [p] holds an entry exactly when
    the array built for the root holds it and it begins with [p]
    followed by a separator, and it is no longer than the array for the
    root.  So when the root listing has at most 1000 entries neither
    answer is cut: each is its whole array, joined by newlines. *)
Theorem X18_directory_listing_is_part_of_root_listing
        (process_cwd top : string) (rs ps : list string) (fs : node)
        (recursive : jsval) (ignore : option (list string))
        (under whole : list string) :
  normal_root top rs ->
  ps <> [] ->
  Forall (fun n => valid_name n = true) ps ->
  valid_names fs ->
  unique_names fs ->
  strict_neq_false recursive = true ->
  kept (or_default ignore default_ignore) "" ps ->
  list_files_entries process_cwd (Some top) fs
                     {| lf_path := Some (Str.join "/" ps);
                        lf_recursive := recursive; lf_ignore := ignore |}
  = inr under ->
  list_files_entries process_cwd (Some top) fs
                     {| lf_path := None;
                        lf_recursive := recursive; lf_ignore := ignore |}
  = inr whole ->
  (forall f,
      In f under <->
      In f whole /\ Str.startsWith f (Str.join "/" ps ++ "/") = true)
  /\ List.length under <= List.length whole
  /\ (List.length whole <= MAX_FILES ->
      list_files process_cwd (Some top) fs
                 {| lf_path := None;
                    lf_recursive := recursive; lf_ignore := ignore |}
      = Content (whole_text whole)
      /\ list_files process_cwd (Some top) fs
                    {| lf_path := Some (Str.join "/" ps);
                       lf_recursive := recursive; lf_ignore := ignore |}
         = Content (whole_text under)).
Proof.
  intros Hroot Hne Hps Hv Hu Hrec Hkept Hunder Hwhole.
  set (pparams := {| lf_path := Some (Str.join "/" ps);
                     lf_recursive := recursive; lf_ignore := ignore |}) in *.
  set (rparams := {| lf_path := None;
                     lf_recursive := recursive; lf_ignore := ignore |}) in *.
  assert (Hp : names_path (or_default (lf_path pparams) ".") ps).
  { split; [exact Hps|]. right. split; [exact Hne | reflexivity]. }
  assert (Hr : names_path (or_default (lf_path rparams) ".") []).
  { split; [constructor|]. left. split; reflexivity. }
  (* the two directories listed *)
  pose proof Hunder as Hunder'. pose proof Hwhole as Hwhole'.
  rewrite (list_files_entries_plain process_cwd top rs ps fs pparams Hroot Hp)
    in Hunder'.
  rewrite (list_files_entries_plain process_cwd top rs [] fs rparams Hroot Hr)
    in Hwhole'.
  rewrite app_nil_r in Hwhole'.
  destruct (lookup fs rs) as [rstats|code] eqn:Hlr;
    [|destruct (String.eqb code "ENOENT"); discriminate].
  destruct (lookup fs (rs ++ ps)) as [pstats|code] eqn:Hlp;
    [|destruct (String.eqb code "ENOENT"); discriminate].
  destruct (is_directory pstats) eqn:Hpdir; [|discriminate].
  cbn [negb] in Hunder'. injection Hunder' as Eunder.
  clear Hwhole'.
  assert (Hlr' : lookup fs (rs ++ []) = Stat rstats)
    by (now rewrite app_nil_r).
  assert (Hsub : lookup rstats ps = Stat pstats).
  { rewrite lookup_app, Hlr in Hlp. exact Hlp. }
  assert (Hvr : valid_names rstats) by (eapply lookup_valid; eauto).
  assert (Hvp : valid_names pstats) by (eapply lookup_valid; eauto).
  assert (Hur : unique_names rstats).
  { apply (descends_unique rs fs rstats Hu). now apply lookup_descends. }
  assert (Hup : unique_names pstats).
  { apply (descends_unique (rs ++ ps) fs pstats Hu). now apply lookup_descends. }
  assert (Hiff : forall f,
             In f under <->
             In f whole /\ Str.startsWith f (Str.join "/" ps ++ "/") = true).
  { intros f.
    rewrite (recursive_listing_iff process_cwd top rs ps fs pparams pstats
               under f Hroot Hp Hrec Hlp Hunder).
    rewrite (recursive_listing_iff process_cwd top rs [] fs rparams rstats
               whole f Hroot Hr Hrec Hlr' Hwhole).
    cbn [lf_ignore pparams rparams Str.join String.concat].
    split.
    - intros (names & target & Hn & Hd & Ht & Hk & ->).
      assert (Hnames : Forall (fun n => valid_name n = true) names)
        by (now destruct (descends_valid _ _ _ Hvp Hd)).
      split.
      + exists (ps ++ names)%list, target.
        split; [intros E; apply app_eq_nil in E; now destruct E|].
        split; [apply descends_app; exists pstats;
                split; [now apply lookup_descends | exact Hd]|].
        split; [exact Ht|]. split.
        * apply kept_app. split; [exact Hkept|].
          now rewrite entry_path_top.
        * rewrite entry_path_valid by assumption.
          rewrite entry_path_top; [reflexivity|].
          apply Forall_app. now split.
      + rewrite entry_path_valid by assumption.
        rewrite join_app by assumption.
        unfold Str.startsWith. rewrite <- append_assoc. apply prefix_append.
    - intros [(names' & target & Hn' & Hd' & Ht & Hk' & ->) Hstart].
      destruct (descends_valid _ _ _ Hvr Hd') as [Hnames' _].
      rewrite entry_path_top in Hstart by assumption.
      apply prefix_split in Hstart. destruct Hstart as (rest & Hrest).
      pose proof (path_segments_join names' Hnames') as Hsegs.
      rewrite Hrest, append_assoc in Hsegs. cbn [append] in Hsegs.
      rewrite path_segments_app_sep, (path_segments_join ps Hps) in Hsegs.
      set (names := path_segments rest) in *. subst names'.
      apply descends_app in Hd'. destruct Hd' as (mid & Hmid & Hd).
      pose proof (descends_lookup _ _ _ Hur Hmid) as Hfound.
      rewrite Hsub in Hfound. injection Hfound as <-.
      apply kept_app in Hk'. destruct Hk' as [_ Hk].
      rewrite entry_path_top in Hk by assumption.
      apply Forall_app in Hnames'. destruct Hnames' as [_ Hnames].
      exists names, target.
      split.
      { intros E. rewrite E in Hd. cbn in Hd. subst target. congruence. }
      split; [exact Hd|]. split; [exact Ht|]. split; [exact Hk|].
      rewrite entry_path_top by (apply Forall_app; now split).
      now rewrite entry_path_valid. }
  assert (Hlen : List.length under <= List.length whole).
  { apply NoDup_incl_length.
    - rewrite <- Eunder. eapply Permutation_NoDup; [apply sort_perm|].
      now apply walk_NoDup.
    - intros f Hf. now apply Hiff in Hf. }
  split; [exact Hiff|]. split; [exact Hlen|].
  intros Hmax. split.
  - exact (proj2 (list_files_answer _ _ _ _ _ Hwhole) Hmax).
  - apply (proj2 (list_files_answer _ _ _ _ _ Hunder)). lia.
Qed.

Lemma X18_directory_listing_is_part_of_root_listing_witness :
  normal_root "/ws" ["ws"]
  /\ ["src"] <> []
  /\ Forall (fun n => valid_name n = true) ["src"]
  /\ valid_names test_fs
  /\ unique_names test_fs
  /\ strict_neq_false JUndefined = true
  /\ kept (or_default None default_ignore) "" ["src"]
  /\ list_files_entries "/" (Some "/ws") test_fs
       {| lf_path := Some (Str.join "/" ["src"]);
          lf_recursive := JUndefined; lf_ignore := None |}
     = inr ["src/index.ts"; "src/nested_modules/nested.js"; "src/utils.ts"]
  /\ list_files_entries "/" (Some "/ws") test_fs
       {| lf_path := None; lf_recursive := JUndefined; lf_ignore := None |}
     = inr ["README.md"; "src/index.ts"; "src/nested_modules/nested.js";
            "src/utils.ts"; "test/index.test.ts"]
  /\ (In "src/utils.ts"
         ["src/index.ts"; "src/nested_modules/nested.js"; "src/utils.ts"]
      <-> In "src/utils.ts"
             ["README.md"; "src/index.ts"; "src/nested_modules/nested.js";
              "src/utils.ts"; "test/index.test.ts"]
          /\ Str.startsWith "src/utils.ts" (Str.join "/" ["src"] ++ "/") = true).
Proof.
  assert (H1 : normal_root "/ws" ["ws"])
    by (split; [repeat constructor | reflexivity]).
  assert (H2 : ["src"] <> []) by discriminate.
  assert (H3 : Forall (fun n => valid_name n = true) ["src"])
    by (repeat constructor).
  assert (H4 : valid_names test_fs) by (cbn; repeat split; reflexivity).
  assert (H5 : unique_names test_fs).
  { cbn. repeat split; repeat constructor; cbn; intuition discriminate. }
  assert (H6 : strict_neq_false JUndefined = true) by reflexivity.
  assert (H7 : kept (or_default None default_ignore) "" ["src"])
    by (split; [vm_compute; reflexivity | exact I]).
  assert (H8 : list_files_entries "/" (Some "/ws") test_fs
                 {| lf_path := Some (Str.join "/" ["src"]);
                    lf_recursive := JUndefined; lf_ignore := None |}
               = inr ["src/index.ts"; "src/nested_modules/nested.js";
                      "src/utils.ts"])
    by (vm_compute; reflexivity).
  assert (H9 : list_files_entries "/" (Some "/ws") test_fs
                 {| lf_path := None; lf_recursive := JUndefined;
                    lf_ignore := None |}
               = inr ["README.md"; "src/index.ts";
                      "src/nested_modules/nested.js";
                      "src/utils.ts"; "test/index.test.ts"])
    by (vm_compute; reflexivity).
  repeat (split; [assumption|]).
  exact (proj1 (X18_directory_listing_is_part_of_root_listing
                  "/" "/ws" ["ws"] ["src"] test_fs JUndefined None _ _
                  H1 H2 H3 H4 H5 H6 H7 H8 H9)
               "src/utils.ts").
Defined.

(** ** More ignore patterns *)

Lemma walk_fewer_patterns (recursive : bool) (l1 l2 : list string)
      (dir : node) :
  forall rel f,
    In f (walk recursive (l1 ++ l2) dir rel) ->
    In f (walk recursive l1 dir rel).
Proof.
  induction dir as [|entries IH] using node_ind'; intros rel f Hin.
  - destruct Hin.
  - induction entries as [|[name child] rest IHrest]; [destruct Hin|].
    inversion IH as [|? ? IHchild IHtail]; subst. cbn [snd] in IHchild.
    rewrite walk_cons in Hin |- *. apply in_app_or in Hin. apply in_or_app.
    destruct Hin as [Hin|Hin]; [left | right; now apply IHrest].
    rewrite matchesPattern_app in Hin.
    destruct (matchesPattern (Path.join rel name) name l1); [destruct Hin|].
    cbn [orb] in Hin.
    destruct (matchesPattern (Path.join rel name) name l2); [destruct Hin|].
    destruct (is_directory child); [|exact Hin].
    destruct recursive; [now apply IHchild | exact Hin].
Qed.

Lemma walk_fewer_length (recursive : bool) (l1 l2 : list string)
      (dir : node) :
  forall rel,
    List.length (walk recursive (l1 ++ l2) dir rel)
    <= List.length (walk recursive l1 dir rel).
Proof.
  induction dir as [|entries IH] using node_ind'; intros rel; [apply le_n|].
  induction entries as [|[name child] rest IHrest]; [apply le_n|].
  inversion IH as [|? ? IHchild IHtail]; subst. cbn [snd] in IHchild.
  rewrite !walk_cons, !length_app.
  apply Nat.add_le_mono; [|now apply IHrest].
  rewrite matchesPattern_app.
  destruct (matchesPattern (Path.join rel name) name l1); [apply le_n|].
  cbn [orb].
  destruct (matchesPattern (Path.join rel name) name l2);
    [apply Nat.le_0_l|].
  destruct (is_directory child); [|apply le_n].
  destruct recursive; [apply IHchild | apply le_n].
Qed.

Lemma sort_length (l : list string) : List.length (sort l) = List.length l.
Proof. symmetry. apply Permutation_length, sort_perm. Qed.

(** X19.  Adding ignore patterns never adds entries.  Whatever the tree,
    the path and the mode, the sorted array that [list_files] builds
    with the ignore list extended by further patterns holds only entries
    of the array built with the shorter list, and is no longer.  So when
    the listing with the shorter list has at most 1000 entries neither
    answer is cut: each is its whole array, joined by newlines, and
    every path answered with the longer list is answered with the
    shorter one. *)
Theorem X19_more_patterns_fewer_entries
        (process_cwd : string) (options_cwd : option string) (fs : node)
        (path : option string) (recursive : jsval)
        (patterns more : list string) (fewer all : list string) :
  list_files_entries process_cwd options_cwd fs
                     {| lf_path := path; lf_recursive := recursive;
                        lf_ignore := Some (patterns ++ more)%list |}
  = inr fewer ->
  list_files_entries process_cwd options_cwd fs
                     {| lf_path := path; lf_recursive := recursive;
                        lf_ignore := Some patterns |}
  = inr all ->
  (forall f, In f fewer -> In f all)
  /\ List.length fewer <= List.length all
  /\ (List.length all <= MAX_FILES ->
      list_files process_cwd options_cwd fs
                 {| lf_path := path; lf_recursive := recursive;
                    lf_ignore := Some patterns |}
      = Content (whole_text all)
      /\ list_files process_cwd options_cwd fs
                    {| lf_path := path; lf_recursive := recursive;
                       lf_ignore := Some (patterns ++ more)%list |}
         = Content (whole_text fewer)).
Proof.
  intros Hfewer Hall.
  assert (Hlen : List.length fewer <= List.length all).
  { destruct (list_files_entries_inr _ _ _ _ _ Hfewer)
      as (stats & Hstat & _ & ->).
    destruct (list_files_entries_inr _ _ _ _ _ Hall)
      as (stats' & Hstat' & _ & ->).
    cbn [lf_path lf_recursive lf_ignore or_default] in *.
    rewrite Hstat in Hstat'. injection Hstat' as <-.
    rewrite !sort_length. apply walk_fewer_length. }
  split; [|split; [exact Hlen|]].
  - intros f Hf.
    destruct (list_files_entries_inr _ _ _ _ _ Hfewer)
      as (stats & Hstat & _ & ->).
    destruct (list_files_entries_inr _ _ _ _ _ Hall)
      as (stats' & Hstat' & _ & ->).
    cbn [lf_path lf_recursive lf_ignore or_default] in *.
    rewrite Hstat in Hstat'. injection Hstat' as <-.
    apply in_sort. apply (proj1 (in_sort _ _)) in Hf.
    now apply walk_fewer_patterns in Hf.
  - intros Hmax. split.
    + exact (proj2 (list_files_answer _ _ _ _ _ Hall) Hmax).
    + apply (proj2 (list_files_answer _ _ _ _ _ Hfewer)). lia.
Qed.

Lemma X19_more_patterns_fewer_entries_witness :
  list_files_entries "/" (Some "/ws") test_fs
                     {| lf_path := None; lf_recursive := JUndefined;
                        lf_ignore := Some (["node_modules"] ++ ["*.ts"])%list |}
  = inr ["README.md"; "src/nested_modules/nested.js"]
  /\ list_files_entries "/" (Some "/ws") test_fs
                        {| lf_path := None; lf_recursive := JUndefined;
                           lf_ignore := Some ["node_modules"] |}
     = inr ["README.md"; "src/index.ts"; "src/nested_modules/nested.js";
            "src/utils.ts"; "test/index.test.ts"]
  /\ forall f,
      In f ["README.md"; "src/nested_modules/nested.js"] ->
      In f ["README.md"; "src/index.ts"; "src/nested_modules/nested.js";
            "src/utils.ts"; "test/index.test.ts"].
Proof.
  assert (H1 : list_files_entries "/" (Some "/ws") test_fs
                 {| lf_path := None; lf_recursive := JUndefined;
                    lf_ignore := Some (["node_modules"] ++ ["*.ts"])%list |}
               = inr ["README.md"; "src/nested_modules/nested.js"])
    by (vm_compute; reflexivity).
  assert (H2 : list_files_entries "/" (Some "/ws") test_fs
                 {| lf_path := None; lf_recursive := JUndefined;
                    lf_ignore := Some ["node_modules"] |}
               = inr ["README.md"; "src/index.ts";
                      "src/nested_modules/nested.js";
                      "src/utils.ts"; "test/index.test.ts"])
    by (vm_compute; reflexivity).
  repeat (split; [assumption|]).
  exact (proj1 (X19_more_patterns_fewer_entries
                  "/" (Some "/ws") test_fs None JUndefined
                  ["node_modules"] ["*.ts"] _ _ H1 H2)).
Defined.

(** ** Pruning a map *)

Section MapSizeFacts.

Variables K V : Type.
Variable key_eq_dec : forall a b : K, {a = b} + {a <> b}.

Lemma map_delete_absent (map : list (K * V)) (key : K) :
  ~ In key (List.map fst map) -> map_delete key_eq_dec map key = map.
Proof.
  induction map as [|[k v] rest IH]; intros Hnot; [reflexivity|].
  cbn [map_delete filter fst]. destruct (key_eq_dec k key) as [E|N].
  - exfalso. apply Hnot. left. exact E.
  - f_equal. apply IH. intros H. apply Hnot. now right.
Qed.

Lemma map_delete_first (key : K) (value : V) (rest : list (K * V)) :
  NoDup (List.map fst ((key, value) :: rest)) ->
  map_delete key_eq_dec ((key, value) :: rest) key = rest.
Proof.
  intros Hnd. inversion Hnd as [|? ? Hnot _]; subst.
  cbn [map_delete filter fst].
  destruct (key_eq_dec key key) as [_|N]; [|now contradiction N].
  now apply map_delete_absent.
Qed.

Lemma prune_loop_skipn (z : Z) (map : list (K * V)) :
  forall i,
    NoDup (List.map fst map) ->
    prune_loop key_eq_dec (Int z) i (List.map fst map) map
    = skipn (Z.to_nat (z - Z.of_nat i)) map.
Proof.
  induction map as [|[k v] rest IH]; intros i Hnd.
  - cbn [List.map prune_loop]. rewrite skipn_nil.
    destruct (num_lt _ _); reflexivity.
  - cbn [List.map fst prune_loop num_lt].
    destruct (Z.ltb (Z.of_nat i) z) eqn:E.
    + apply Z.ltb_lt in E. rewrite (map_delete_first k v rest Hnd).
      inversion Hnd; subst. rewrite IH by assumption.
      replace (Z.to_nat (z - Z.of_nat i))
        with (S (Z.to_nat (z - Z.of_nat (S i)))) by lia.
      reflexivity.
    + apply Z.ltb_ge in E.
      replace (Z.to_nat (z - Z.of_nat i)) with 0 by lia. reflexivity.
Qed.

Lemma pruned_to_limit (map : list (K * V)) (q : Q) :
  NoDup (List.map fst map) ->
  (1 <= Qfloor q)%Z ->
  pruneMapToMaxSize key_eq_dec map (Finite q)
  = skipn (List.length map - Z.to_nat (Qfloor q)) map.
Proof.
  intros Hnd Hq. unfold pruneMapToMaxSize.
  cbn [Math_floor Math_max num_le].
  rewrite (Z.max_r 0 (Qfloor q)) by lia.
  rewrite (proj2 (Z.leb_gt _ _)) by lia.
  unfold map_size. cbn [num_sub num_le].
  destruct (Z.leb (Z.of_nat (List.length map) - Qfloor q) 0) eqn:E.
  - apply Z.leb_le in E.
    replace (List.length map - Z.to_nat (Qfloor q)) with 0 by lia.
    reflexivity.
  - apply Z.leb_gt in E. unfold map_keys.
    rewrite prune_loop_skipn by exact Hnd. f_equal. lia.
Qed.

Lemma skipn_keys_NoDup (n : nat) (map : list (K * V)) :
  NoDup (List.map fst map) -> NoDup (List.map fst (skipn n map)).
Proof.
  intros H. rewrite <- (firstn_skipn n map), map_app in H.
  now apply NoDup_app_remove_l in H.
Qed.

End MapSizeFacts.

(** X15.  On a map with distinct keys, for a finite [maxSize] of 1 or
    more, [pruneMapToMaxSize] leaves the entries inserted last: it drops
    the oldest [size - floor(maxSize)] entries and keeps the others, with
    their values, in insertion order, so that the size becomes the
    smaller of the old size and [floor(maxSize)]. *)
Theorem X15_prune_keeps_latest_entries
        (K V : Type) (key_eq_dec : forall a b : K, {a = b} + {a <> b})
        (map : list (K * V)) (q : Q) :
  NoDup (List.map fst map) ->
  (1 <= Qfloor q)%Z ->
  let limit := Z.to_nat (Qfloor q) in
  pruneMapToMaxSize key_eq_dec map (Finite q)
  = skipn (List.length map - limit) map
  /\ List.length (pruneMapToMaxSize key_eq_dec map (Finite q))
     = Nat.min (List.length map) limit.
Proof.
  intros Hnd Hq limit.
  rewrite (pruned_to_limit K V key_eq_dec map q Hnd Hq). fold limit.
  split; [reflexivity|]. rewrite length_skipn. lia.
Qed.

Lemma X15_prune_keeps_latest_entries_witness :
  NoDup (List.map fst ten_entries)
  /\ (1 <= Qfloor (11 # 2))%Z
  /\ pruneMapToMaxSize string_dec ten_entries (Finite (11 # 2))
     = skipn (List.length ten_entries - Z.to_nat (Qfloor (11 # 2))) ten_entries
  /\ List.length (pruneMapToMaxSize string_dec ten_entries (Finite (11 # 2)))
     = Nat.min (List.length ten_entries) (Z.to_nat (Qfloor (11 # 2))).
Proof.
  assert (H1 : NoDup (List.map fst ten_entries)).
  { cbn. repeat constructor; cbn; intuition discriminate. }
  assert (H2 : (1 <= Qfloor (11 # 2))%Z) by (vm_compute; discriminate).
  split; [exact H1|]. split; [exact H2|].
  exact (X15_prune_keeps_latest_entries
           string nat string_dec ten_entries (11 # 2) H1 H2).
Defined.

(** X16.  Pruning twice is pruning once to the smaller size: on a map
    with distinct keys, for finite sizes of 1 or more, pruning to [a]
    and then to [b] leaves the map that pruning to the smaller of the
    two leaves. *)
Theorem X16_prune_twice
        (K V : Type) (key_eq_dec : forall a b : K, {a = b} + {a <> b})
        (map : list (K * V)) (a b : Q) :
  NoDup (List.map fst map) ->
  (1 <= Qfloor a)%Z ->
  (1 <= Qfloor b)%Z ->
  pruneMapToMaxSize key_eq_dec
                    (pruneMapToMaxSize key_eq_dec map (Finite a)) (Finite b)
  = pruneMapToMaxSize key_eq_dec map
                      (Finite (if Z.leb (Qfloor a) (Qfloor b) then a else b)).
Proof.
  intros Hnd Ha Hb.
  rewrite (pruned_to_limit K V key_eq_dec map a Hnd Ha).
  rewrite pruned_to_limit; [|now apply skipn_keys_NoDup | exact Hb].
  rewrite skipn_skipn, length_skipn.
  destruct (Z.leb (Qfloor a) (Qfloor b)) eqn:E.
  - apply Z.leb_le in E. rewrite pruned_to_limit by assumption. f_equal. lia.
  - apply Z.leb_gt in E. rewrite pruned_to_limit by assumption. f_equal. lia.
Qed.

Lemma X16_prune_twice_witness :
  NoDup (List.map fst ten_entries)
  /\ (1 <= Qfloor (7 # 1))%Z
  /\ (1 <= Qfloor (3 # 1))%Z
  /\ pruneMapToMaxSize string_dec
       (pruneMapToMaxSize string_dec ten_entries (Finite (7 # 1)))
       (Finite (3 # 1))
     = pruneMapToMaxSize string_dec ten_entries
         (Finite (if Z.leb (Qfloor (7 # 1)) (Qfloor (3 # 1))
                  then 7 # 1 else 3 # 1)).
Proof.
  assert (H1 : NoDup (List.map fst ten_entries)).
  { cbn. repeat constructor; cbn; intuition discriminate. }
  assert (H2 : (1 <= Qfloor (7 # 1))%Z) by (vm_compute; discriminate).
  assert (H3 : (1 <= Qfloor (3 # 1))%Z) by (vm_compute; discriminate).
  split; [exact H1|]. split; [exact H2|]. split; [exact H3|].
  exact (X16_prune_twice string nat string_dec ten_entries (7 # 1) (3 # 1)
                         H1 H2 H3).
Defined.

Lemma prune_loop_NaN (K V : Type)
      (key_eq_dec : forall a b : K, {a = b} + {a <> b})
      (i : nat) (keys : list K) (map : list (K * V)) :
  prune_loop key_eq_dec INaN i keys map = map.
Proof. destruct keys; reflexivity. Qed.

(** X17.  The sizes that are no positive integer: a finite [maxSize]
    below 1 (zero, negative, a fraction of one) and minus infinity empty
    the map; [NaN] and plus infinity leave it as it is. *)
Theorem X17_prune_edge_sizes
        (K V : Type) (key_eq_dec : forall a b : K, {a = b} + {a <> b})
        (map : list (K * V)) :
  (forall q, (Qfloor q <= 0)%Z ->
             pruneMapToMaxSize key_eq_dec map (Finite q) = [])
  /\ pruneMapToMaxSize key_eq_dec map NegInfinity = []
  /\ pruneMapToMaxSize key_eq_dec map NaN = map
  /\ pruneMapToMaxSize key_eq_dec map PosInfinity = map.
Proof.
  repeat split.
  - intros q Hq. unfold pruneMapToMaxSize.
    cbn [Math_floor Math_max num_le].
    rewrite (Z.max_l 0 (Qfloor q)) by lia. reflexivity.
  - unfold pruneMapToMaxSize. cbn. apply prune_loop_NaN.
Qed.

Lemma X17_prune_edge_sizes_witness :
  (Qfloor (-1 # 2) <= 0)%Z
  /\ pruneMapToMaxSize string_dec ten_entries (Finite (-1 # 2)) = [].
Proof.
  assert (H : (Qfloor (-1 # 2) <= 0)%Z) by (vm_compute; discriminate).
  split; [exact H|].
  exact (proj1 (X17_prune_edge_sizes string nat string_dec ten_entries)
               (-1 # 2)%Q H).
Defined.
